(** * The forward pass of the ALBERT/Perceiver encoder of [models.py]

    The development has four layers.

    - [Scalar]: the floating-point primitives the tensor library supplies
      (constants, the four operations, [sqrt], [exp], [erf]).  They are an
      interface: nothing below depends on how they round.
    - The tensor primitives of the numeric library the program calls
      ([torch.*], [nn.functional.*]): arrays are a shape and an element
      function, every primitive checks shapes the way the library does and
      raises the library's exception otherwise.
    - The object store: tensors live in cells, a Python name holds a
      [handle] (a cell and a chain of views), in-place operations write the
      cell, attribute writes ([self.scores = ...]) update the state.
    - The classes of [models.py], one definition per method. *)

From Stdlib Require Import ZArith QArith Lia List.
From stdpp Require Import base list.

Local Open Scope nat_scope.

(** ** Exceptions and results *)

Inductive error : Type :=
  | IndexError       (* index / dimension out of range *)
  | RuntimeError     (* shape or dtype mismatch raised by the tensor library *)
  | TypeError        (* [None] where a tensor is required *)
  | NameError        (* unbound name *)
  | AssertionError   (* a failed [assert] *)
  | InvalidHandle.   (* a handle that names no cell: no Python value is one *)

Inductive result (A : Type) : Type :=
  | Ok (a : A)
  | Err (e : error).
Arguments Ok {A} a.
Arguments Err {A} e.

Definition rbind {A B} (r : result A) (f : A → result B) : result B :=
  match r with Ok a => f a | Err e => Err e end.

Definition rmap {A B} (f : A → B) (r : result A) : result B :=
  match r with Ok a => Ok (f a) | Err e => Err e end.

Definition is_ok {A} (r : result A) : bool :=
  match r with Ok _ => true | Err _ => false end.

Notation "x <~ m ;; k" := (rbind m (fun x => k))
  (at level 100, m at next level, right associativity).

(** ** Floating-point primitives *)

Class Scalar (F : Type) : Type := {
  fconst : Q → F;          (* a Python / numpy float literal or an int cast *)
  fadd : F → F → F;
  fsub : F → F → F;
  fmul : F → F → F;
  fdiv : F → F → F;
  fsqrt : F → F;
  fexp : F → F;
  ferf : F → F
}.

(** The free interpretation: every primitive builds a term.  An equation
    that holds here holds under every interpretation of the primitives. *)
Inductive sym : Type :=
  | SLit (q : Q)
  | SInit (cell : nat) (idx : list nat)   (* initial value of a parameter *)
  | SAdd (a b : sym) | SSub (a b : sym) | SMul (a b : sym) | SDiv (a b : sym)
  | SSqrt (a : sym) | SExp (a : sym) | SErf (a : sym).

#[export] Instance sym_Scalar : Scalar sym := {|
  fconst := SLit; fadd := SAdd; fsub := SSub; fmul := SMul; fdiv := SDiv;
  fsqrt := SSqrt; fexp := SExp; ferf := SErf |}.

(** ** Arrays: a shape and an element function *)

Record arr (A : Type) : Type := Arr { shape : list nat; data : list nat → A }.
Arguments Arr {A} shape data.
Arguments shape {A} a.
Arguments data {A} a i.

(** [i] is a position of an array of shape [sh]. *)
Definition valid_index (sh i : list nat) : Prop := Forall2 lt i sh.

(** All positions of a shape, in row-major order. *)
Fixpoint indices (sh : list nat) : list (list nat) :=
  match sh with
  | [] => [[]]
  | n :: sh' => flat_map (fun i => map (cons i) (indices sh')) (seq 0 n)
  end.

Definition numel (sh : list nat) : nat := fold_right Nat.mul 1 sh.

Definition amap {A B} (f : A → B) (a : arr A) : arr B :=
  Arr (shape a) (fun i => f (data a i)).

(** Negative dimensions count from the end. *)
Definition wrap_dim (rank : nat) (d : Z) : result nat :=
  if ((0 <=? d) && (d <? Z.of_nat rank))%Z then Ok (Z.to_nat d)
  else if ((d <? 0) && (- Z.of_nat rank <=? d))%Z
       then Ok (Z.to_nat (d + Z.of_nat rank))
       else Err IndexError.

(** [x.size(d)] *)
Definition size {A} (a : arr A) (d : Z) : result nat :=
  k <~ wrap_dim (length (shape a)) d ;; Ok (nth k (shape a) 0).

(** *** Broadcasting *)

Definition bc_dim (x y : nat) : result nat :=
  if x =? y then Ok x
  else if x =? 1 then Ok y
  else if y =? 1 then Ok x
  else Err RuntimeError.

(** Shapes are aligned at their last dimension; [bc_rev] walks the reversed
    shapes. *)
Fixpoint bc_rev (a b : list nat) : result (list nat) :=
  match a, b with
  | [], _ => Ok b
  | _, [] => Ok a
  | x :: a', y :: b' =>
      d <~ bc_dim x y ;; r <~ bc_rev a' b' ;; Ok (d :: r)
  end.

Definition broadcast_shapes (s1 s2 : list nat) : result (list nat) :=
  rmap (@rev nat) (bc_rev (rev s1) (rev s2)).

(** The position of an operand of shape [sh] read at position [i] of the
    broadcast result: leading dimensions are dropped, a dimension of size 1
    is read at 0. *)
Definition bidx (sh i : list nat) : list nat :=
  zip_with (fun d k => if d =? 1 then 0 else k) sh (drop (length i - length sh) i).

Definition zip_bc {A B C} (f : A → B → C) (a : arr A) (b : arr B)
  : result (arr C) :=
  sh <~ broadcast_shapes (shape a) (shape b) ;;
  Ok (Arr sh (fun i => f (data a (bidx (shape a) i)) (data b (bidx (shape b) i)))).

(** [a.expand(sh)]: every dimension of [a] is 1 or the target's. *)
Definition expandable (from to : list nat) : bool :=
  (length from <=? length to) &&
  forallb (fun p => (fst p =? snd p) || (fst p =? 1))
          (combine from (drop (length to - length from) to)).

Definition expand {A} (sh : list nat) (a : arr A) : result (arr A) :=
  if expandable (shape a) sh
  then Ok (Arr sh (fun i => data a (bidx (shape a) i)))
  else Err RuntimeError.

(** *** Views *)

Definition swap (d0 d1 : nat) (l : list nat) : list nat :=
  <[d0 := nth d1 l 0]> (<[d1 := nth d0 l 0]> l).

Definition transpose_nat {A} (d0 d1 : nat) (a : arr A) : arr A :=
  Arr (swap d0 d1 (shape a)) (fun i => data a (swap d0 d1 i)).

(** [a.unsqueeze(d)] for [0 <= d <= rank]. *)
Definition unsqueeze {A} (d : nat) (a : arr A) : arr A :=
  Arr (take d (shape a) ++ 1 :: drop d (shape a))
      (fun i => data a (take d i ++ drop (S d) i)).

(** [a.squeeze(d)] on a dimension of size 1. *)
Definition squeeze {A} (d : nat) (a : arr A) : arr A :=
  Arr (take d (shape a) ++ drop (S d) (shape a))
      (fun i => data a (take d i ++ 0 :: drop d i)).

(** The last component of a position or shape, and what precedes it. *)
Definition lastn (l : list nat) : nat := nth (length l - 1) l 0.
Definition initn (l : list nat) : list nat := take (length l - 1) l.

(** The last dimension [h * w] seen as two dimensions [h; w]. *)
Definition split_arr {A} (h w : nat) (a : arr A) : arr A :=
  Arr (initn (shape a) ++ [h; w])
      (fun i => let pre := take (length i - 2) i in
                data a (pre ++ [nth (length i - 2) i 0 * w + nth (length i - 1) i 0])).

(** The last two dimensions [h; w] seen as one dimension [h * w]. *)
Definition merge_arr {A} (a : arr A) : arr A :=
  let r := length (shape a) in
  let h := nth (r - 2) (shape a) 0 in
  let w := nth (r - 1) (shape a) 0 in
  Arr (take (r - 2) (shape a) ++ [h * w])
      (fun i => let d := lastn i in
                data a (initn i ++ [d / w; d mod w])).

(** [torch.arange(n, dtype=torch.long)] *)
Definition arange (n : nat) : arr Z := Arr [n] (fun i => Z.of_nat (hd 0 i)).

(** ** The numeric primitives on float arrays *)

Section Primitives.
Context {F : Type} `{Scalar F}.

Definition fofnat (n : nat) : F := fconst (inject_Z (Z.of_nat n)).

(** Sums run over [0 .. n-1] from left to right. *)
Definition fsum (n : nat) (f : nat → F) : F :=
  foldl (fun acc l => fadd acc (f l)) (fconst 0) (seq 0 n).

Definition in_table (v : nat) (z : Z) : bool :=
  ((0 <=? z) && (z <? Z.of_nat v))%Z.

(** [F.embedding(idx, w)]: row [idx[i]] of the table [w] at every position
    [i]; an index outside the table raises [IndexError]. *)
Definition embedding (idx : arr Z) (w : arr F) : result (arr F) :=
  match shape w with
  | [v; e] =>
      if forallb (fun i => in_table v (data idx i)) (indices (shape idx))
      then Ok (Arr (shape idx ++ [e])
                   (fun i => data w [Z.to_nat (data idx (initn i)); lastn i]))
      else Err IndexError
  | _ => Err RuntimeError
  end.

(** [F.linear(x, w, b) = x @ w.T + b] with [w : [out, in]], [b : [out]]. *)
Definition linear (x w b : arr F) : result (arr F) :=
  match shape w, shape b, shape x with
  | [o; n], [o'], _ :: _ =>
      if (lastn (shape x) =? n) && (o' =? o)
      then Ok (Arr (initn (shape x) ++ [o])
                   (fun i => fadd (fsum n (fun l => fmul (data x (initn i ++ [l]))
                                                         (data w [lastn i; l])))
                                  (data b [lastn i])))
      else Err RuntimeError
  | _, _, _ => Err RuntimeError
  end.

(** Matrix product of arrays of rank at least 2, batch dimensions
    broadcast. *)
Definition mm (a b : arr F) : result (arr F) :=
  let ra := length (shape a) in
  let rb := length (shape b) in
  let ba := take (ra - 2) (shape a) in
  let bb := take (rb - 2) (shape b) in
  let n := nth (ra - 2) (shape a) 0 in
  let k := nth (ra - 1) (shape a) 0 in
  let k' := nth (rb - 2) (shape b) 0 in
  let m := nth (rb - 1) (shape b) 0 in
  if k =? k' then
    bs <~ broadcast_shapes ba bb ;;
    Ok (Arr (bs ++ [n; m])
            (fun i => let bi := take (length i - 2) i in
                      let r := nth (length i - 2) i 0 in
                      let c := nth (length i - 1) i 0 in
                      fsum k (fun l => fmul (data a (bidx ba bi ++ [r; l]))
                                            (data b (bidx bb bi ++ [l; c])))))
  else Err RuntimeError.

(** [a @ b]: a one-dimensional operand is a row (left) or a column (right)
    whose added dimension is removed from the result. *)
Definition matmul (a b : arr F) : result (arr F) :=
  match length (shape a), length (shape b) with
  | 0, _ | _, 0 => Err RuntimeError
  | 1, 1 => r <~ mm (unsqueeze 0 a) (unsqueeze 1 b) ;; Ok (squeeze 0 (squeeze 0 r))
  | 1, S (S rb) => r <~ mm (unsqueeze 0 a) b ;; Ok (squeeze rb r)
  | S (S ra), 1 => r <~ mm a (unsqueeze 1 b) ;; Ok (squeeze (S ra) r)
  | _, _ => mm a b
  end.

(** [F.softmax(x, dim=-1)] *)
Definition softmax (x : arr F) : arr F :=
  match shape x with
  | [] => Arr [] (fun i => fdiv (fexp (data x i))
                                (fadd (fconst 0) (fexp (data x i))))
  | _ :: _ =>
      Arr (shape x)
          (fun i => fdiv (fexp (data x i))
                         (fsum (lastn (shape x))
                               (fun l => fexp (data x (initn i ++ [l])))))
  end.

(** Mean and (biased) variance of the feature vector through position [i]. *)
Definition row_mean (n : nat) (x : arr F) (i : list nat) : F :=
  fdiv (fsum n (fun l => data x (initn i ++ [l]))) (fofnat n).

Definition row_var (n : nat) (x : arr F) (i : list nat) : F :=
  fdiv (fsum n (fun l => let d := fsub (data x (initn i ++ [l])) (row_mean n x i)
                         in fmul d d))
       (fofnat n).

(** [F.layer_norm(x, (n,), w, b, eps)]:
    [(x - E[x]) / sqrt(Var[x] + eps) * w + b] over the last dimension. *)
Definition layer_norm (n : nat) (w b : arr F) (eps : Q) (x : arr F)
  : result (arr F) :=
  match shape x with
  | [] => Err RuntimeError
  | _ :: _ =>
      if lastn (shape x) =? n
      then Ok (Arr (shape x)
                   (fun i => fadd (fmul (fdiv (fsub (data x i) (row_mean n x i))
                                              (fsqrt (fadd (row_var n x i) (fconst eps))))
                                        (data w [lastn i]))
                                  (data b [lastn i])))
      else Err RuntimeError
  end.

(** [x.mean(-1, keepdim=True)] *)
Definition mean_keepdim (x : arr F) : result (arr F) :=
  match shape x with
  | [] => Err IndexError
  | _ :: _ => Ok (Arr (initn (shape x) ++ [1])
                      (fun i => row_mean (lastn (shape x)) x i))
  end.

(** ** Tensors: an array with its dtype *)

Inductive tensor : Type :=
  | TFloat (a : arr F)
  | TLong (a : arr Z).

Definition tshape (t : tensor) : list nat :=
  match t with TFloat a => shape a | TLong a => shape a end.

(** Type promotion of an integer operand of a float operation. *)
Definition promote (t : tensor) : arr F :=
  match t with
  | TFloat a => a
  | TLong a => amap (fun z => fconst (inject_Z z)) a
  end.

(** Operations that are defined on float tensors only. *)
Definition need_float (t : tensor) : result (arr F) :=
  match t with TFloat a => Ok a | TLong _ => Err RuntimeError end.

Definition need_long (t : tensor) : result (arr Z) :=
  match t with TLong a => Ok a | TFloat _ => Err RuntimeError end.

Definition t_embedding (idx w : tensor) : result tensor :=
  i <~ need_long idx ;; a <~ need_float w ;; rmap TFloat (embedding i a).

Definition t_linear (x w b : tensor) : result tensor :=
  ax <~ need_float x ;; aw <~ need_float w ;; ab <~ need_float b ;;
  rmap TFloat (linear ax aw ab).

Definition t_matmul (x y : tensor) : result tensor :=
  ax <~ need_float x ;; ay <~ need_float y ;; rmap TFloat (matmul ax ay).

Definition t_softmax (x : tensor) : result tensor :=
  ax <~ need_float x ;; Ok (TFloat (softmax ax)).

Definition t_layer_norm (n : nat) (w b : tensor) (eps : Q) (x : tensor)
  : result tensor :=
  ax <~ need_float x ;; aw <~ need_float w ;; ab <~ need_float b ;;
  rmap TFloat (layer_norm n aw ab eps ax).

Definition t_mean_keepdim (x : tensor) : result tensor :=
  ax <~ need_float x ;; rmap TFloat (mean_keepdim ax).

(** Elementwise binary operation of two tensors, with broadcasting; two
    integer tensors stay integer. *)
Definition t_zip (fz : Z → Z → Z) (ff : F → F → F) (x y : tensor)
  : result tensor :=
  match x, y with
  | TLong a, TLong b => rmap TLong (zip_bc fz a b)
  | _, _ => rmap TFloat (zip_bc ff (promote x) (promote y))
  end.

Definition t_add : tensor → tensor → result tensor := t_zip Z.add fadd.
Definition t_sub : tensor → tensor → result tensor := t_zip Z.sub fsub.
Definition t_mul : tensor → tensor → result tensor := t_zip Z.mul fmul.
(** True division always yields floats. *)
Definition t_div (x y : tensor) : result tensor :=
  rmap TFloat (zip_bc fdiv (promote x) (promote y)).

(** Elementwise operation with a Python float; the result is float. *)
Definition t_map (f : F → F) (x : tensor) : tensor := TFloat (amap f (promote x)).

(** The in-place form [x -= y]: the broadcast shape must be the shape of
    [x], and a float result cannot be stored in an integer tensor. *)
Definition t_isub (x y : tensor) : result tensor :=
  r <~ t_sub x y ;;
  match x, r with
  | TLong _, TFloat _ => Err RuntimeError
  | _, _ => if decide (tshape r = tshape x) then Ok r else Err RuntimeError
  end.

End Primitives.

(** ** Views

    A view shares the cell of the tensor it was taken from.  The dimensions
    of a view operation are already normalised and checked when the view is
    created. *)

Inductive view_op : Type :=
  | VTranspose (d0 d1 : nat)
  | VUnsqueeze (d : nat)
  | VExpand (sh : list nat)
  | VSplit (h w : nat)
  | VMerge.

Definition view_arr {A} (v : view_op) (a : arr A) : arr A :=
  match v with
  | VTranspose d0 d1 => transpose_nat d0 d1 a
  | VUnsqueeze d => unsqueeze d a
  | VExpand sh => Arr sh (fun i => data a (bidx (shape a) i))
  | VSplit h w => split_arr h w a
  | VMerge => merge_arr a
  end.

(** Writing [new] through the view [v] of [base]: the contents the cell
    receives.  An expanded tensor whose elements overlap cannot be written. *)
Definition unview_arr {A} (v : view_op) (base new : arr A) : result (arr A) :=
  match v with
  | VTranspose d0 d1 => Ok (transpose_nat d0 d1 new)
  | VUnsqueeze d => Ok (squeeze d new)
  | VExpand sh => if decide (shape base = sh) then Ok new else Err RuntimeError
  | VSplit h w => Ok (merge_arr new)
  | VMerge => Ok (split_arr (nth (length (shape base) - 2) (shape base) 0)
                            (lastn (shape base)) new)
  end.

Fixpoint write_back_arr {A} (vs : list view_op) (base new : arr A)
  : result (arr A) :=
  match vs with
  | [] => Ok new
  | v :: vs' =>
      mid <~ write_back_arr vs' (view_arr v base) new ;; unview_arr v base mid
  end.

Section Store.
Context {F : Type} `{Scalar F}.

Definition view_tensor (v : view_op) (t : tensor (F:=F)) : tensor :=
  match t with
  | TFloat a => TFloat (view_arr v a)
  | TLong a => TLong (view_arr v a)
  end.

(** A stored value has the dtype of its cell. *)
Definition write_back (vs : list view_op) (base new : tensor (F:=F))
  : result tensor :=
  match base, new with
  | TFloat b, TFloat n => rmap TFloat (write_back_arr vs b n)
  | TLong b, TLong n => rmap TLong (write_back_arr vs b n)
  | _, _ => Err RuntimeError
  end.

(** What a Python name holds: the cell of the storage and the views through
    which it is read. *)
Record handle : Type := Handle { cell : nat; views : list view_op }.

Definition base (c : nat) : handle := Handle c [].
Definition add_view (h : handle) (v : view_op) : handle :=
  Handle (cell h) (views h ++ [v]).

(** ** Configuration ([class Config(NamedTuple)]) *)

Record Config : Type := {
  vocab_size : nat;
  hidden : nat;
  hidden_ff : nat;
  embedding_dim : nat;      (* the field [embedding] *)
  n_layers : nat;
  n_heads_cfg : nat;        (* the field [n_heads] *)
  max_len : nat;
  n_segments : nat;
  cfg_M : nat;
  cfg_C : nat;
  cfg_N : nat;
  cfg_D : nat;
  cross_heads : nat;
  latent_heads : nat;
  cross_dim_head : nat;
  latent_dim_head : nat;
  ffw : nat;
  process_layers : nat
}.

(** ** The program state

    [heap]: the tensor storages, a cell is its position.
    [cross_attn_scores], [self_attn_scores]: the attribute [scores] of the
    one [QKVAttention_cross] and the one [QKVAttention_self] instance a
    [Transformer] owns ([None] until the first call).
    [models_cfg]: the binding of the name [cfg] in the global namespace of
    [models.py] ([None]: unbound).  The file itself never binds it. *)
Record state : Type := {
  heap : list (tensor (F:=F));
  cross_attn_scores : option handle;
  self_attn_scores : option handle;
  models_cfg : option Config
}.

Definition with_heap (hp : list tensor) (s : state) : state :=
  {| heap := hp; cross_attn_scores := cross_attn_scores s;
     self_attn_scores := self_attn_scores s; models_cfg := models_cfg s |}.

Definition with_cross_scores (h : option handle) (s : state) : state :=
  {| heap := heap s; cross_attn_scores := h;
     self_attn_scores := self_attn_scores s; models_cfg := models_cfg s |}.

Definition with_self_scores (h : option handle) (s : state) : state :=
  {| heap := heap s; cross_attn_scores := cross_attn_scores s;
     self_attn_scores := h; models_cfg := models_cfg s |}.

(** The tensor a handle denotes in a state. *)
Definition deref (s : state) (h : handle) : result tensor :=
  match heap s !! cell h with
  | Some t => Ok (foldl (fun t v => view_tensor v t) t (views h))
  | None => Err InvalidHandle
  end.

(** ** Computations: state passing with exceptions

    The state reached when an exception is raised is kept: what was written
    before stays written. *)
Definition M (A : Type) : Type := state → result A * state.

Definition ret {A} (a : A) : M A := fun s => (Ok a, s).
Definition raise {A} (e : error) : M A := fun s => (Err e, s).
Definition bind {A B} (m : M A) (f : A → M B) : M B :=
  fun s => match m s with
           | (Ok a, s') => f a s'
           | (Err e, s') => (Err e, s')
           end.
Definition lift {A} (r : result A) : M A := fun s => (r, s).

Notation "x <- m ;; k" := (bind m (fun x => k))
  (at level 100, m at next level, right associativity).

(** Reading a tensor. *)
Definition get (h : handle) : M tensor := fun s => (deref s h, s).

(** A new tensor in a fresh cell. *)
Definition new (t : tensor) : M handle :=
  fun s => (Ok (base (length (heap s))), with_heap (heap s ++ [t]) s).

(** Overwriting the storage a handle reads from, through its views. *)
Definition put (h : handle) (t : tensor) : M unit :=
  fun s => match heap s !! cell h with
           | Some b =>
               match write_back (views h) b t with
               | Ok b' => (Ok tt, with_heap (<[cell h := b']> (heap s)) s)
               | Err e => (Err e, s)
               end
           | None => (Err InvalidHandle, s)
           end.

Definition set_cross_scores (h : handle) : M unit :=
  fun s => (Ok tt, with_cross_scores (Some h) s).
Definition set_self_scores (h : handle) : M unit :=
  fun s => (Ok tt, with_self_scores (Some h) s).

(** Looking up the global name [cfg]. *)
Definition global_cfg : M Config :=
  fun s => match models_cfg s with
           | Some c => (Ok c, s)
           | None => (Err NameError, s)
           end.

End Store.

Notation "x <- m ;; k" := (bind m (fun x => k))
  (at level 100, m at next level, right associativity).

(** ** The tensor library as the program calls it *)

Section Torch.
Context {F : Type} `{Scalar F}.

#[local] Abbreviation tensor := (tensor (F:=F)).
#[local] Abbreviation M := (M (F:=F)).

Definition op1 (f : tensor → result tensor) (x : handle) : M handle :=
  t <- get x ;; r <- lift (f t) ;; new r.

Definition op2 (f : tensor → tensor → result tensor) (x y : handle) : M handle :=
  tx <- get x ;; ty <- get y ;; r <- lift (f tx ty) ;; new r.

(** A view of [x]: no cell is allocated.  [check] validates the request on
    the tensor and yields the view operations. *)
Definition mk_view (check : tensor → result (list view_op)) (x : handle)
  : M handle :=
  t <- get x ;; vs <- lift (check t) ;; ret (Handle (cell x) (views x ++ vs)).

(** [x.size(d)] *)
Definition t_size (d : Z) (t : tensor) : result nat :=
  k <~ wrap_dim (length (tshape t)) d ;; Ok (nth k (tshape t) 0).

Definition tensor_size (x : handle) (d : Z) : M nat :=
  t <- get x ;; lift (t_size d t).

(** [torch.arange(n, dtype=torch.long, device=...)] *)
Definition torch_arange (n : nat) : M handle := new (TLong (arange n)).

(** [x.unsqueeze(0)] *)
Definition chk_unsqueeze0 (t : tensor) : result (list view_op) :=
  Ok [VUnsqueeze 0].

Definition tensor_unsqueeze0 (x : handle) : M handle := mk_view chk_unsqueeze0 x.

(** [x.expand_as(other)] *)
Definition chk_expand (sh : list nat) (t : tensor) : result (list view_op) :=
  if expandable (tshape t) sh then Ok [VExpand sh] else Err RuntimeError.

Definition tensor_expand_as (x other : handle) : M handle :=
  o <- get other ;; mk_view (chk_expand (tshape o)) x.

(** [x.transpose(d0, d1)] *)
Definition chk_transpose (d0 d1 : Z) (t : tensor) : result (list view_op) :=
  a <~ wrap_dim (length (tshape t)) d0 ;;
  b <~ wrap_dim (length (tshape t)) d1 ;;
  Ok [VTranspose a b].

Definition tensor_transpose (x : handle) (d0 d1 : Z) : M handle :=
  mk_view (chk_transpose d0 d1) x.

(** [x[:, None, None, :]] *)
Definition chk_index_s_n_n_s (t : tensor) : result (list view_op) :=
  if 2 <=? length (tshape t)
  then Ok [VUnsqueeze 1; VUnsqueeze 1] else Err IndexError.

Definition tensor_index_s_n_n_s (x : handle) : M handle :=
  mk_view chk_index_s_n_n_s x.

(** [x.float()]: the tensor itself when it is already float. *)
Definition tensor_float (x : handle) : M handle :=
  t <- get x ;;
  match t with
  | TFloat _ => ret x
  | TLong _ => new (TFloat (promote t))
  end.

(** [x.clone()], [x.detach()] *)
Definition tensor_clone (x : handle) : M handle := t <- get x ;; new t.
Definition tensor_detach (x : handle) : M handle := _ <- get x ;; ret x.

(** [x.contiguous()]: the tensor itself when its elements already lie in
    row-major order, a copy otherwise.  No strides are kept: a tensor read
    through a transposition or an expansion is copied. *)
Definition keeps_order (v : view_op) : bool :=
  match v with VTranspose _ _ | VExpand _ => false | _ => true end.

Definition tensor_contiguous (x : handle) : M handle :=
  t <- get x ;;
  if forallb keeps_order (views x) then ret x else new t.

Definition tensor_add : handle → handle → M handle := op2 t_add.
Definition tensor_mul : handle → handle → M handle := op2 t_mul.
Definition tensor_div : handle → handle → M handle := op2 t_div.
Definition tensor_sub : handle → handle → M handle := op2 t_sub.
Definition torch_matmul : handle → handle → M handle := op2 t_matmul.

(** Operations with a Python scalar [c]. *)
Definition tensor_map (f : F → F) : handle → M handle :=
  op1 (fun t => Ok (t_map f t)).

Definition torch_erf : handle → M handle := tensor_map ferf.
Definition torch_sqrt : handle → M handle := tensor_map fsqrt.

(** [x -= y] *)
Definition tensor_isub (x y : handle) : M unit :=
  tx <- get x ;; ty <- get y ;; r <- lift (t_isub tx ty) ;; put x r.

Definition F_softmax : handle → M handle := op1 t_softmax.

(** [nn.Embedding] *)
Record nn_Embedding : Type := { emb_weight : handle }.

Definition nn_Embedding_forward (m : nn_Embedding) (idx : option handle)
  : M handle :=
  match idx with
  | None => raise TypeError
  | Some i => op2 t_embedding i (emb_weight m)
  end.

(** [nn.Linear] *)
Record nn_Linear : Type := { lin_weight : handle; lin_bias : handle }.

Definition nn_Linear_forward (m : nn_Linear) (x : handle) : M handle :=
  tx <- get x ;; w <- get (lin_weight m) ;; b <- get (lin_bias m) ;;
  r <- lift (t_linear tx w b) ;; new r.

(** [nn.LayerNorm(normalized_shape, eps=1e-05, elementwise_affine=True)] *)
Record nn_LayerNorm : Type := {
  normalized_shape : nat;
  ln_weight : handle;
  ln_bias : handle;
  ln_eps : Q
}.

Definition nn_LayerNorm_forward (m : nn_LayerNorm) (x : handle) : M handle :=
  tx <- get x ;; w <- get (ln_weight m) ;; b <- get (ln_bias m) ;;
  r <- lift (t_layer_norm (normalized_shape m) w b (ln_eps m) tx) ;; new r.

(** *** Construction of parameters

    [rnd c] is what the random initialiser draws for the tensor stored in
    cell [c]. *)
Variable rnd : nat → list nat → F.

Definition torch_randn (sh : list nat) : M handle :=
  fun s => new (TFloat (Arr sh (rnd (length (heap s))))) s.

Definition torch_full (sh : list nat) (q : Q) : M handle :=
  new (TFloat (Arr sh (fun _ => fconst q))).

Definition nn_Embedding_init (num dim : nat) : M nn_Embedding :=
  w <- torch_randn [num; dim] ;; ret {| emb_weight := w |}.

Definition nn_Linear_init (n_in n_out : nat) : M nn_Linear :=
  w <- torch_randn [n_out; n_in] ;; b <- torch_randn [n_out] ;;
  ret {| lin_weight := w; lin_bias := b |}.

(** The library default of [eps]. *)
Definition nn_LayerNorm_default_eps : Q := 1 # 100000.

Definition nn_LayerNorm_init (n : nat) : M nn_LayerNorm :=
  w <- torch_full [n] 1 ;; b <- torch_full [n] 0 ;;
  ret {| normalized_shape := n; ln_weight := w; ln_bias := b;
         ln_eps := nn_LayerNorm_default_eps |}.

(** [for x in l: body] threading the variables the body rebinds. *)
Fixpoint for_in {A B} (l : list A) (body : A → B → M B) (x : B) : M B :=
  match l with
  | [] => ret x
  | a :: l' => y <- body a x ;; for_in l' body y
  end.

Definition range (n : nat) : list nat := seq 0 n.

End Torch.

(** ** [utils.py] *)

Section Utils.
Context {F : Type} `{Scalar F}.
#[local] Abbreviation M := (M (F:=F)).

(** Modelled from the spec: [utils.split_last], imported by [models.py], is
    not among the sources.  [split_last(x, (heads, -1))] splits the feature
    axis of width [d] into [heads] groups of width [d / heads]; a width that
    the head count does not divide is a runtime shape error. *)
Definition chk_split_last (heads : nat) (t : tensor (F:=F))
  : result (list view_op) :=
  match tshape t with
  | [] => Err IndexError
  | _ :: _ =>
      let d := lastn (tshape t) in
      if negb (heads =? 0) && (d mod heads =? 0)
      then Ok [VSplit heads (d / heads)]
      else Err RuntimeError
  end.

Definition split_last (x : handle) (heads : nat) : M handle :=
  mk_view (chk_split_last heads) x.

(** Modelled from the spec: [utils.merge_last] is not among the sources.
    [merge_last(x, 2)] recombines the last two axes [heads; width] into one
    feature axis of width [heads * width]. *)
Definition chk_merge_last (t : tensor (F:=F)) : result (list view_op) :=
  if 2 <=? length (tshape t) then Ok [VMerge] else Err RuntimeError.

Definition merge_last (x : handle) : M handle := mk_view chk_merge_last x.

End Utils.

(** ** [models.py] *)

Section Models.
Context {F : Type} `{Scalar F}.
Variable rnd : nat → list nat → F.
#[local] Abbreviation M := (M (F:=F)).

(** [gelu(x)]: [x * 0.5 * (1.0 + torch.erf(x / math.sqrt(2.0)))] *)
Definition gelu (x : handle) : M handle :=
  a <- tensor_map (fun v => fmul v (fconst (1 # 2))) x ;;
  b <- tensor_map (fun v => fdiv v (fsqrt (fconst 2))) x ;;
  c <- torch_erf b ;;
  d <- tensor_map (fun v => fadd (fconst 1) v) c ;;
  tensor_mul a d.

(** *** [class Embeddings] *)

Record Embeddings : Type := {
  tok_embed1 : nn_Embedding;
  tok_embed2 : nn_Linear;
  pos_embed : nn_Embedding;
  seg_embed : nn_Embedding;
  norm : nn_LayerNorm
}.

Definition Embeddings_init (cfg : Config) : M Embeddings :=
  t1 <- nn_Embedding_init rnd (vocab_size cfg) (embedding_dim cfg) ;;
  t2 <- nn_Linear_init rnd (embedding_dim cfg) (hidden cfg) ;;
  p <- nn_Embedding_init rnd (max_len cfg) (hidden cfg) ;;
  sg <- nn_Embedding_init rnd (n_segments cfg) (hidden cfg) ;;
  n <- nn_LayerNorm_init (hidden cfg) ;;
  ret {| tok_embed1 := t1; tok_embed2 := t2; pos_embed := p; seg_embed := sg;
         norm := n |}.

Definition Embeddings_forward (self : Embeddings) (x : handle)
  (seg : option handle) : M handle :=
  seq_len <- tensor_size x 1 ;;
  pos <- torch_arange seq_len ;;
  pos <- tensor_unsqueeze0 pos ;;
  pos <- tensor_expand_as pos x ;;
  e <- nn_Embedding_forward (tok_embed1 self) (Some x) ;;
  e <- nn_Linear_forward (tok_embed2 self) e ;;
  p <- nn_Embedding_forward (pos_embed self) (Some pos) ;;
  e <- tensor_add e p ;;
  sg <- nn_Embedding_forward (seg_embed self) seg ;;
  e <- tensor_add e sg ;;
  nn_LayerNorm_forward (norm self) e.

(** *** [class LayerNorm]: the file's own layer normalisation.  No other
    class of the file instantiates it. *)

Record LayerNorm : Type := {
  gamma : handle;
  beta : handle;
  variance_epsilon : Q
}.

Definition LayerNorm_default_variance_epsilon : Q := 1 # 1000000000000.

Definition LayerNorm_init (cfg : Config) (variance_epsilon : Q) : M LayerNorm :=
  g <- torch_full [hidden cfg] 1 ;;
  b <- torch_full [hidden cfg] 0 ;;
  ret {| gamma := g; beta := b; variance_epsilon := variance_epsilon |}.

Definition LayerNorm_forward (self : LayerNorm) (x : handle) : M handle :=
  u <- op1 t_mean_keepdim x ;;
  d <- tensor_sub x u ;;
  p <- tensor_map (fun v => fmul v v) d ;;
  s <- op1 t_mean_keepdim p ;;
  d <- tensor_sub x u ;;
  se <- tensor_map (fun v => fadd v (fconst (variance_epsilon self))) s ;;
  sq <- torch_sqrt se ;;
  x <- tensor_div d sq ;;
  g <- tensor_mul (gamma self) x ;;
  tensor_add g (beta self).

(** *** [class QKVAttention_cross], [class QKVAttention_self]: the two
    classes have the same attributes. *)

Record QKVAttention : Type := {
  proj_q : nn_Linear;
  proj_k : nn_Linear;
  proj_v : nn_Linear;
  n_heads : nat
}.

Definition QKVAttention_cross_init (cfg : Config) (heads : nat) : M QKVAttention :=
  q <- nn_Linear_init rnd (cfg_D cfg) (cfg_D cfg) ;;
  k <- nn_Linear_init rnd (cfg_C cfg) (cfg_D cfg) ;;
  v <- nn_Linear_init rnd (cfg_C cfg) (cfg_D cfg) ;;
  _ <- (fun s => (Ok tt, with_cross_scores None s)) ;;
  ret {| proj_q := q; proj_k := k; proj_v := v; n_heads := heads |}.

Definition QKVAttention_self_init (cfg : Config) (heads : nat) : M QKVAttention :=
  q <- nn_Linear_init rnd (cfg_D cfg) (cfg_D cfg) ;;
  k <- nn_Linear_init rnd (cfg_D cfg) (cfg_D cfg) ;;
  v <- nn_Linear_init rnd (cfg_D cfg) (cfg_D cfg) ;;
  _ <- (fun s => (Ok tt, with_self_scores None s)) ;;
  ret {| proj_q := q; proj_k := k; proj_v := v; n_heads := heads |}.

Definition QKVAttention_cross_forward (self : QKVAttention)
  (x latent : handle) (mask : option handle) : M handle :=
  q <- nn_Linear_forward (proj_q self) latent ;;
  k <- nn_Linear_forward (proj_k self) x ;;
  v <- nn_Linear_forward (proj_v self) x ;;
  q <- (t <- split_last q (n_heads self) ;; tensor_transpose t (-2) (-3)) ;;
  k <- (t <- split_last k (n_heads self) ;; tensor_transpose t (-2) (-3)) ;;
  v <- (t <- split_last v (n_heads self) ;; tensor_transpose t (-2) (-3)) ;;
  kt <- tensor_transpose k (-2) (-1) ;;
  qk <- torch_matmul q kt ;;
  w <- tensor_size k (-1) ;;
  scores <- tensor_map (fun a => fdiv a (fsqrt (fofnat w))) qk ;;
  _ <- match mask with
       | Some mask =>
           mask <- tensor_index_s_n_n_s mask ;;
           mask <- tensor_float mask ;;
           a <- tensor_map (fun v => fsub (fconst 1) v) mask ;;
           b <- tensor_map (fun v => fmul (fconst 10000) v) a ;;
           tensor_isub scores b
       | None => ret tt
       end ;;
  scores <- F_softmax scores ;;
  sv <- torch_matmul scores v ;;
  h <- tensor_transpose sv 1 2 ;;
  h <- tensor_contiguous h ;;
  h <- merge_last h ;;
  _ <- set_cross_scores scores ;;
  ret h.

Definition QKVAttention_self_forward (self : QKVAttention)
  (x : handle) (mask : option handle) : M handle :=
  q <- nn_Linear_forward (proj_q self) x ;;
  k <- nn_Linear_forward (proj_k self) x ;;
  v <- nn_Linear_forward (proj_v self) x ;;
  q <- (t <- split_last q (n_heads self) ;; tensor_transpose t (-2) (-3)) ;;
  k <- (t <- split_last k (n_heads self) ;; tensor_transpose t (-2) (-3)) ;;
  v <- (t <- split_last v (n_heads self) ;; tensor_transpose t (-2) (-3)) ;;
  kt <- tensor_transpose k (-2) (-1) ;;
  qk <- torch_matmul q kt ;;
  w <- tensor_size k (-1) ;;
  scores <- tensor_map (fun a => fdiv a (fsqrt (fofnat w))) qk ;;
  _ <- match mask with
       | Some mask =>
           mask <- tensor_index_s_n_n_s mask ;;
           mask <- tensor_float mask ;;
           a <- tensor_map (fun v => fsub (fconst 1) v) mask ;;
           b <- tensor_map (fun v => fmul (fconst 10000) v) a ;;
           tensor_isub scores b
       | None => ret tt
       end ;;
  scores <- F_softmax scores ;;
  sv <- torch_matmul scores v ;;
  h <- tensor_transpose sv 1 2 ;;
  h <- tensor_contiguous h ;;
  h <- merge_last h ;;
  _ <- set_self_scores scores ;;
  ret h.

(** *** [class FeedForward] *)

Record FeedForward : Type := { fc1 : nn_Linear; fc2 : nn_Linear }.

Definition FeedForward_init (cfg : Config) : M FeedForward :=
  a <- nn_Linear_init rnd (cfg_D cfg) (ffw cfg) ;;
  b <- nn_Linear_init rnd (ffw cfg) (cfg_D cfg) ;;
  ret {| fc1 := a; fc2 := b |}.

Definition FeedForward_forward (self : FeedForward) (x : handle) : M handle :=
  a <- nn_Linear_forward (fc1 self) x ;;
  g <- gelu a ;;
  nn_Linear_forward (fc2 self) g.

(** *** [class Transformer] *)

Record Transformer : Type := {
  embed : Embeddings;
  latents : handle;
  cross_attend_blocks : QKVAttention * FeedForward;
  layers : QKVAttention * FeedForward;
  norm1 : nn_LayerNorm;
  norm2 : nn_LayerNorm;
  norm3 : nn_LayerNorm;
  norm4 : nn_LayerNorm
}.

Definition Transformer_init (cfg : Config) : M Transformer :=
  e <- Embeddings_init cfg ;;
  l <- torch_randn rnd [cfg_N cfg; cfg_D cfg] ;;
  ca <- QKVAttention_cross_init cfg (cross_heads cfg) ;;
  cf <- FeedForward_init cfg ;;
  sa <- QKVAttention_self_init cfg (latent_heads cfg) ;;
  sf <- FeedForward_init cfg ;;
  n1 <- nn_LayerNorm_init (cfg_D cfg) ;;
  n2 <- nn_LayerNorm_init (cfg_D cfg) ;;
  n3 <- nn_LayerNorm_init (cfg_D cfg) ;;
  n4 <- nn_LayerNorm_init (cfg_D cfg) ;;
  ret {| embed := e; latents := l; cross_attend_blocks := (ca, cf);
         layers := (sa, sf); norm1 := n1; norm2 := n2; norm3 := n3;
         norm4 := n4 |}.

(** [forward]: the number of rounds is [cfg.process_layers], where [cfg] is
    a global name: [__init__] keeps no reference to its argument. *)
Definition Transformer_forward (self : Transformer) (input_ids : handle)
  (token_type_ids attention_mask : option handle) : M handle :=
  let x := input_ids in
  let seg := token_type_ids in
  let mask := attention_mask in
  x <- Embeddings_forward (embed self) x seg ;;
  h <- (c <- tensor_clone x ;; tensor_detach c) ;;
  let '(cross_attn, cross_ff) := cross_attend_blocks self in
  x <- (a <- QKVAttention_cross_forward cross_attn h (latents self) mask ;;
        r <- tensor_add a (latents self) ;;
        nn_LayerNorm_forward (norm1 self) r) ;;
  x <- (f <- FeedForward_forward cross_ff x ;;
        r <- tensor_add f x ;;
        nn_LayerNorm_forward (norm2 self) r) ;;
  let '(self_attn, self_ff) := layers self in
  cfg <- global_cfg ;;
  x <- for_in (range (process_layers cfg))
         (fun _ x =>
            x <- (a <- QKVAttention_self_forward self_attn x None ;;
                  r <- tensor_add a x ;;
                  nn_LayerNorm_forward (norm3 self) r) ;;
            f <- FeedForward_forward self_ff x ;;
            r <- tensor_add f x ;;
            nn_LayerNorm_forward (norm4 self) r) x ;;
  ret x.

(** *** Parts of the methods above, named for the proofs.  Each is the
    text of the method it is cut from (see [QKVAttention_cross_forward_eq],
    [QKVAttention_self_forward_eq], [Transformer_forward_eq]). *)

(** [scores = ... / np.sqrt(k.size(-1))] and the [if mask is not None]
    block, followed by [K scores]. *)
Definition scale_and_mask {A} (w : nat) (qk : handle) (mask : option handle)
  (K : handle → M A) : M A :=
  scores <- tensor_map (fun a => fdiv a (fsqrt (fofnat w))) qk ;;
  _ <- match mask with
       | Some mask =>
           mask <- tensor_index_s_n_n_s mask ;;
           mask <- tensor_float mask ;;
           a <- tensor_map (fun v => fsub (fconst 1) v) mask ;;
           b <- tensor_map (fun v => fmul (fconst 10000) v) a ;;
           tensor_isub scores b
       | None => ret tt
       end ;;
  K scores.

(** The statements of the two attention methods after the three
    projections, followed by [K h scores]. *)
Definition attend_with {A} (heads : nat) (q k v : handle)
  (mask : option handle) (K : handle → handle → M A) : M A :=
  q <- (t <- split_last q heads ;; tensor_transpose t (-2) (-3)) ;;
  k <- (t <- split_last k heads ;; tensor_transpose t (-2) (-3)) ;;
  v <- (t <- split_last v heads ;; tensor_transpose t (-2) (-3)) ;;
  kt <- tensor_transpose k (-2) (-1) ;;
  qk <- torch_matmul q kt ;;
  w <- tensor_size k (-1) ;;
  scale_and_mask w qk mask (fun scores =>
  scores <- F_softmax scores ;;
  sv <- torch_matmul scores v ;;
  h <- tensor_transpose sv 1 2 ;;
  h <- tensor_contiguous h ;;
  h <- merge_last h ;;
  K h scores).

(** The body of the [for] loop of [Transformer.forward]. *)
Definition process_round (self : Transformer) (x : handle) : M handle :=
  let '(self_attn, self_ff) := layers self in
  x <- (a <- QKVAttention_self_forward self_attn x None ;;
        r <- tensor_add a x ;;
        nn_LayerNorm_forward (norm3 self) r) ;;
  f <- FeedForward_forward self_ff x ;;
  r <- tensor_add f x ;;
  nn_LayerNorm_forward (norm4 self) r.

(** The statements of [Transformer.forward] before the loop. *)
Definition encode (self : Transformer) (input_ids : handle)
  (token_type_ids attention_mask : option handle) : M handle :=
  x <- Embeddings_forward (embed self) input_ids token_type_ids ;;
  h <- (c <- tensor_clone x ;; tensor_detach c) ;;
  let '(cross_attn, cross_ff) := cross_attend_blocks self in
  x <- (a <- QKVAttention_cross_forward cross_attn h (latents self)
               attention_mask ;;
        r <- tensor_add a (latents self) ;;
        nn_LayerNorm_forward (norm1 self) r) ;;
  f <- FeedForward_forward cross_ff x ;;
  r <- tensor_add f x ;;
  nn_LayerNorm_forward (norm2 self) r.

End Models.

(** ** What [forward] computes, without the store

    The value of every method as a function of the values of its arguments
    and of its parameters.  [ρ] gives the value of the parameter a handle
    names.  These functions are what the methods are compared with. *)

Section Denotation.
Context {F : Type} `{Scalar F}.
#[local] Abbreviation tensor := (tensor (F:=F)).
Variable ρ : handle → result tensor.

Definition apply_views (check : tensor → result (list view_op)) (t : tensor)
  : result tensor :=
  vs <~ check t ;; Ok (foldl (fun t v => view_tensor v t) t vs).

Definition Embedding_v (m : nn_Embedding) (idx : option tensor)
  : result tensor :=
  match idx with
  | None => Err TypeError
  | Some i => w <~ ρ (emb_weight m) ;; t_embedding i w
  end.

Definition Linear_v (m : nn_Linear) (x : tensor) : result tensor :=
  w <~ ρ (lin_weight m) ;; b <~ ρ (lin_bias m) ;; t_linear x w b.

Definition nn_LayerNorm_v (m : nn_LayerNorm) (x : tensor) : result tensor :=
  w <~ ρ (ln_weight m) ;; b <~ ρ (ln_bias m) ;;
  t_layer_norm (normalized_shape m) w b (ln_eps m) x.

Definition gelu_v (x : tensor) : result tensor :=
  let a := t_map (fun v => fmul v (fconst (1 # 2))) x in
  let b := t_map (fun v => fdiv v (fsqrt (fconst 2))) x in
  let c := t_map ferf b in
  let d := t_map (fun v => fadd (fconst 1) v) c in
  t_mul a d.

Definition FeedForward_v (m : FeedForward) (x : tensor) : result tensor :=
  a <~ Linear_v (fc1 m) x ;; g <~ gelu_v a ;; Linear_v (fc2 m) g.

(** The position indices [0 .. S-1] broadcast to the shape of [x]. *)
Definition positions_v (x : tensor) : result tensor :=
  seq_len <~ t_size 1 x ;;
  pos <~ apply_views chk_unsqueeze0 (TLong (arange seq_len)) ;;
  apply_views (chk_expand (tshape x)) pos.

(** The sum the embedding module normalises. *)
Definition Embeddings_sum_v (m : Embeddings) (x : tensor) (seg : option tensor)
  : result tensor :=
  pos <~ positions_v x ;;
  e <~ Embedding_v (tok_embed1 m) (Some x) ;;
  e <~ Linear_v (tok_embed2 m) e ;;
  p <~ Embedding_v (pos_embed m) (Some pos) ;;
  e <~ t_add e p ;;
  sg <~ Embedding_v (seg_embed m) seg ;;
  t_add e sg.

Definition Embeddings_v (m : Embeddings) (x : tensor) (seg : option tensor)
  : result tensor :=
  e <~ Embeddings_sum_v m x seg ;; nn_LayerNorm_v (norm m) e.

Definition split_heads_v (heads : nat) (x : tensor) : result tensor :=
  t <~ apply_views (chk_split_last heads) x ;;
  apply_views (chk_transpose (-2) (-3)) t.

(** [q @ k.transpose(-2, -1) / np.sqrt(k.size(-1))] *)
Definition scaled_scores_v (q k : tensor) : result tensor :=
  kt <~ apply_views (chk_transpose (-2) (-1)) k ;;
  qk <~ t_matmul q kt ;;
  w <~ t_size (-1) k ;;
  Ok (t_map (fun a => fdiv a (fsqrt (fofnat w))) qk).

(** The scores the softmax receives. *)
Definition masked_scores_v (scores : tensor) (mask : option tensor)
  : result tensor :=
  match mask with
  | Some mask =>
      mask <~ apply_views chk_index_s_n_n_s mask ;;
      let a := t_map (fun v => fsub (fconst 1) v) (TFloat (promote mask)) in
      let b := t_map (fun v => fmul (fconst 10000) v) a in
      t_isub scores b
  | None => Ok scores
  end.

(** From the projections to the output; the second component is the
    normalised score tensor the module retains. *)
Definition attend_v (heads : nat) (q k v : tensor) (mask : option tensor)
  : result (tensor * tensor) :=
  q <~ split_heads_v heads q ;;
  k <~ split_heads_v heads k ;;
  v <~ split_heads_v heads v ;;
  scores <~ scaled_scores_v q k ;;
  scores <~ masked_scores_v scores mask ;;
  scores <~ t_softmax scores ;;
  sv <~ t_matmul scores v ;;
  h <~ apply_views (chk_transpose 1 2) sv ;;
  h <~ apply_views chk_merge_last h ;;
  Ok (h, scores).

Definition QKVAttention_cross_v (m : QKVAttention) (x latent : tensor)
  (mask : option tensor) : result (tensor * tensor) :=
  q <~ Linear_v (proj_q m) latent ;;
  k <~ Linear_v (proj_k m) x ;;
  v <~ Linear_v (proj_v m) x ;;
  attend_v (n_heads m) q k v mask.

Definition QKVAttention_self_v (m : QKVAttention) (x : tensor)
  (mask : option tensor) : result (tensor * tensor) :=
  q <~ Linear_v (proj_q m) x ;;
  k <~ Linear_v (proj_k m) x ;;
  v <~ Linear_v (proj_v m) x ;;
  attend_v (n_heads m) q k v mask.

(** A residual sub-block: [norm(f(x) + r)]. *)
Definition residual_v (norm : nn_LayerNorm) (fx r : tensor) : result tensor :=
  y <~ t_add fx r ;; nn_LayerNorm_v norm y.

(** One round of latent self-processing: it depends on the one attention
    module and the one feed-forward module of [self.layers] and on [norm3],
    [norm4], not on the number of the round. *)
Definition process_round_v (self : Transformer) (x : tensor) : result tensor :=
  a <~ QKVAttention_self_v (fst (layers self)) x None ;;
  x <~ residual_v (norm3 self) (fst a) x ;;
  f <~ FeedForward_v (snd (layers self)) x ;;
  residual_v (norm4 self) f x.

(** [n] rounds of a fallible step. *)
Fixpoint iterate (n : nat) (f : tensor → result tensor) (x : tensor)
  : result tensor :=
  match n with
  | 0 => Ok x
  | S n' => y <~ f x ;; iterate n' f y
  end.

(** The latent array after the cross-attention block and its feed-forward
    block (steps 1 to 3 of the forward pass). *)
Definition encode_v (self : Transformer) (ids : tensor)
  (seg mask : option tensor) : result tensor :=
  h <~ Embeddings_v (embed self) ids seg ;;
  l <~ ρ (latents self) ;;
  a <~ QKVAttention_cross_v (fst (cross_attend_blocks self)) h l mask ;;
  x <~ residual_v (norm1 self) (fst a) l ;;
  f <~ FeedForward_v (snd (cross_attend_blocks self)) x ;;
  residual_v (norm2 self) f x.

(** The forward pass with [rounds] rounds of self-processing. *)
Definition Transformer_v (self : Transformer) (rounds : nat) (ids : tensor)
  (seg mask : option tensor) : result tensor :=
  x <~ encode_v self ids seg mask ;;
  iterate rounds (process_round_v self) x.

(** The value of the global name [cfg]. *)
Definition global_cfg_v (g : option Config) : result Config :=
  match g with Some c => Ok c | None => Err NameError end.

(** What [Transformer.forward] computes when the global name [cfg] is bound
    as [g] says: the rounds are counted by [g]. *)
Definition Transformer_forward_v (g : option Config) (self : Transformer)
  (ids : tensor) (seg mask : option tensor) : result tensor :=
  x <~ encode_v self ids seg mask ;;
  cfg <~ global_cfg_v g ;;
  iterate (process_layers cfg) (process_round_v self) x.

End Denotation.

(** ** Relating a method to its value *)

Section Relations.
Context {F : Type} `{Scalar F}.
#[local] Abbreviation tensor := (tensor (F:=F)).
#[local] Abbreviation state := (state (F:=F)).
#[local] Abbreviation M := (M (F:=F)).

(** [s'] keeps every cell of [s] and the global namespace; it may have more
    cells and other retained scores. *)
Definition ext (s s' : state) : Prop :=
  heap s `prefix_of` heap s' ∧ models_cfg s' = models_cfg s.

(** The parameters have in [s] the values [ρ] gives them. *)
Definition agree (ρ : handle → result tensor) (s : state) : Prop :=
  ∀ h t, ρ h = Ok t → deref s h = Ok t.

Definition denotes (s : state) (h : handle) (t : tensor) : Prop :=
  deref s h = Ok t.

Definition same {A} (s : state) (a b : A) : Prop := a = b.

(** An optional argument and its value. *)
Definition opt_denotes (s : state) (o : option handle) (v : option tensor)
  : Prop :=
  match o, v with
  | Some h, Some t => deref s h = Ok t
  | None, None => True
  | _, _ => False
  end.

(** [m], run from [s], raises what [v] raises or returns a result related
    by [rel] to what [v] returns, and the state it reaches extends [s0]. *)
Definition refines_from {A B} (s0 : state) (rel : state → A → B → Prop)
  (s : state) (m : M A) (v : result B) : Prop :=
  ext s0 (snd (m s)) ∧
  match v with
  | Ok b => ∃ a, fst (m s) = Ok a ∧ rel (snd (m s)) a b
  | Err e => fst (m s) = Err e
  end.

(** The usual case: the state reached extends the state [m] starts from. *)
Definition refines {A B} (rel : state → A → B → Prop) (s : state) (m : M A)
  (v : result B) : Prop :=
  refines_from s rel s m v.

(** The cells below [n] are not written by [m]. *)
Definition frames {A} (n : nat) (m : M A) : Prop :=
  ∀ s, n ≤ length (heap s) →
    length (heap s) ≤ length (heap (snd (m s))) ∧
    take n (heap (snd (m s))) = take n (heap s) ∧
    models_cfg (snd (m s)) = models_cfg s.

(** The handle [m] returns reads a cell at or above [n]. *)
Definition fresh (n : nat) (m : M handle) : Prop :=
  ∀ s h, n ≤ length (heap s) → fst (m s) = Ok h → n ≤ cell h.

(** Two states that differ at most in the retained scores. *)
Definition same_but_scores (s t : state) : Prop :=
  heap s = heap t ∧ models_cfg s = models_cfg t.

(** [m] does not read the retained scores. *)
Definition blind {A} (m : M A) : Prop :=
  ∀ s t, same_but_scores s t →
    fst (m s) = fst (m t) ∧ same_but_scores (snd (m s)) (snd (m t)).

(** *** Well-formed parameters: dtype and shape *)

Definition has_shape (ρ : handle → result tensor) (h : handle)
  (sh : list nat) : bool :=
  match ρ h with
  | Ok (TFloat a) => bool_decide (shape a = sh)
  | _ => false
  end.

Definition nn_Linear_ok ρ (m : nn_Linear) (n_in n_out : nat) : bool :=
  has_shape ρ (lin_weight m) [n_out; n_in] && has_shape ρ (lin_bias m) [n_out].

Definition nn_Embedding_ok ρ (m : nn_Embedding) (num dim : nat) : bool :=
  has_shape ρ (emb_weight m) [num; dim].

Definition nn_LayerNorm_ok ρ (m : nn_LayerNorm) (n : nat) : bool :=
  (normalized_shape m =? n) && has_shape ρ (ln_weight m) [n]
  && has_shape ρ (ln_bias m) [n].

Definition Embeddings_ok ρ (cfg : Config) (m : Embeddings) : bool :=
  nn_Embedding_ok ρ (tok_embed1 m) (vocab_size cfg) (embedding_dim cfg)
  && nn_Linear_ok ρ (tok_embed2 m) (embedding_dim cfg) (hidden cfg)
  && nn_Embedding_ok ρ (pos_embed m) (max_len cfg) (hidden cfg)
  && nn_Embedding_ok ρ (seg_embed m) (n_segments cfg) (hidden cfg)
  && nn_LayerNorm_ok ρ (norm m) (hidden cfg).

Definition QKVAttention_cross_ok ρ (cfg : Config) (m : QKVAttention) : bool :=
  nn_Linear_ok ρ (proj_q m) (cfg_D cfg) (cfg_D cfg)
  && nn_Linear_ok ρ (proj_k m) (cfg_C cfg) (cfg_D cfg)
  && nn_Linear_ok ρ (proj_v m) (cfg_C cfg) (cfg_D cfg).

Definition QKVAttention_self_ok ρ (cfg : Config) (m : QKVAttention) : bool :=
  nn_Linear_ok ρ (proj_q m) (cfg_D cfg) (cfg_D cfg)
  && nn_Linear_ok ρ (proj_k m) (cfg_D cfg) (cfg_D cfg)
  && nn_Linear_ok ρ (proj_v m) (cfg_D cfg) (cfg_D cfg).

Definition FeedForward_ok ρ (cfg : Config) (m : FeedForward) : bool :=
  nn_Linear_ok ρ (fc1 m) (cfg_D cfg) (ffw cfg)
  && nn_Linear_ok ρ (fc2 m) (ffw cfg) (cfg_D cfg).

(** What [Transformer.__init__(cfg)] establishes and training preserves. *)
Definition Transformer_ok ρ (cfg : Config) (self : Transformer) : bool :=
  Embeddings_ok ρ cfg (embed self)
  && has_shape ρ (latents self) [cfg_N cfg; cfg_D cfg]
  && QKVAttention_cross_ok ρ cfg (fst (cross_attend_blocks self))
  && (n_heads (fst (cross_attend_blocks self)) =? cross_heads cfg)
  && FeedForward_ok ρ cfg (snd (cross_attend_blocks self))
  && QKVAttention_self_ok ρ cfg (fst (layers self))
  && (n_heads (fst (layers self)) =? latent_heads cfg)
  && FeedForward_ok ρ cfg (snd (layers self))
  && nn_LayerNorm_ok ρ (norm1 self) (cfg_D cfg)
  && nn_LayerNorm_ok ρ (norm2 self) (cfg_D cfg)
  && nn_LayerNorm_ok ρ (norm3 self) (cfg_D cfg)
  && nn_LayerNorm_ok ρ (norm4 self) (cfg_D cfg).

End Relations.

(** ** Inputs of the embedding module *)

(** Every token id, every segment id is a row of its table. *)
Definition tokens_in_table (cfg : Config) (ids : arr Z) : bool :=
  forallb (fun i => in_table (vocab_size cfg) (data ids i)) (indices (shape ids)).

Definition segments_in_table (cfg : Config) (seg : arr Z) : bool :=
  forallb (fun i => in_table (n_segments cfg) (data seg i)) (indices (shape seg)).

(** Every position that is looked up is a row of the position table: there
    is no position to look up in an empty batch. *)
Definition positions_in_table (cfg : Config) (B S : nat) : bool :=
  (B =? 0) || (S <=? max_len cfg).

(** The position tensor [arange(S).unsqueeze(0).expand_as(x)] for [x] of
    shape [[B; S]]. *)
Definition positions_arr (B S : nat) : arr Z :=
  Arr [B; S] (fun i => data (unsqueeze 0 (arange S)) (bidx [1; S] i)).

(** The mask, when there is one, has the shape of the token ids. *)
Definition mask_ok {F : Type} (mask : option (tensor (F:=F))) (B S : nat)
  : Prop :=
  match mask with None => True | Some tm => tshape tm = [B; S] end.

(** The divisibility the two attention modules need, and the width the
    cross-attention projections expect of the embedded sequence. *)
Definition heads_divide (heads D : nat) : Prop := heads ≠ 0 ∧ D mod heads = 0.

Definition Config_ok (cfg : Config) : Prop :=
  hidden cfg = cfg_C cfg
  ∧ heads_divide (cross_heads cfg) (cfg_D cfg)
  ∧ heads_divide (latent_heads cfg) (cfg_D cfg).

(** The five normalisation modules of a model. *)
Definition norms (self : Transformer) : list nn_LayerNorm :=
  [norm (embed self); norm1 self; norm2 self; norm3 self; norm4 self].

(** ** Scenarios *)

(** ** Concrete models and inputs

    Scalars are terms ([sym]); the random initialiser draws [SInit c i] for
    element [i] of the tensor in cell [c]. *)

(** The configuration of the end-to-end scenario: [vocab_size = 100],
    [hidden = 8], [embedding = 4], [D = C = 8], [N = 4],
    [process_layers = 2], two heads. *)
Definition Config_small : Config := {|
  vocab_size := 100; hidden := 8; hidden_ff := 16; embedding_dim := 4;
  n_layers := 1; n_heads_cfg := 2; max_len := 16; n_segments := 2;
  cfg_M := 16; cfg_C := 8; cfg_N := 4; cfg_D := 8; cross_heads := 2;
  latent_heads := 2; cross_dim_head := 4; latent_dim_head := 4; ffw := 16;
  process_layers := 2 |}.

(** The same with no round of self-processing. *)
Definition Config_no_rounds : Config := {|
  vocab_size := 100; hidden := 8; hidden_ff := 16; embedding_dim := 4;
  n_layers := 1; n_heads_cfg := 2; max_len := 16; n_segments := 2;
  cfg_M := 16; cfg_C := 8; cfg_N := 4; cfg_D := 8; cross_heads := 2;
  latent_heads := 2; cross_dim_head := 4; latent_dim_head := 4; ffw := 16;
  process_layers := 0 |}.

(** [hidden = 6] but [C = 8]. *)
Definition Config_narrow : Config := {|
  vocab_size := 100; hidden := 6; hidden_ff := 16; embedding_dim := 4;
  n_layers := 1; n_heads_cfg := 2; max_len := 16; n_segments := 2;
  cfg_M := 16; cfg_C := 8; cfg_N := 4; cfg_D := 8; cross_heads := 2;
  latent_heads := 2; cross_dim_head := 4; latent_dim_head := 4; ffw := 16;
  process_layers := 2 |}.

(** [C = hidden = 6] is a multiple of [cross_heads = 3]; [D = 8] is not. *)
Definition Config_three_heads : Config := {|
  vocab_size := 100; hidden := 6; hidden_ff := 16; embedding_dim := 4;
  n_layers := 1; n_heads_cfg := 2; max_len := 16; n_segments := 2;
  cfg_M := 16; cfg_C := 6; cfg_N := 4; cfg_D := 8; cross_heads := 3;
  latent_heads := 2; cross_dim_head := 4; latent_dim_head := 4; ffw := 16;
  process_layers := 2 |}.

(** Two positions only. *)
Definition Config_short : Config := {|
  vocab_size := 100; hidden := 8; hidden_ff := 16; embedding_dim := 4;
  n_layers := 1; n_heads_cfg := 2; max_len := 2; n_segments := 2;
  cfg_M := 16; cfg_C := 8; cfg_N := 4; cfg_D := 8; cross_heads := 2;
  latent_heads := 2; cross_dim_head := 4; latent_dim_head := 4; ffw := 16;
  process_layers := 2 |}.

(** The state of a fresh interpreter in which the global name [cfg] of
    [models.py] is bound as [g] says. *)
Definition initial_state (g : option Config) : state (F:=sym) :=
  {| heap := []; cross_attn_scores := None; self_attn_scores := None;
     models_cfg := g |}.

Definition null_Linear : nn_Linear :=
  {| lin_weight := base 0; lin_bias := base 0 |}.
Definition null_LayerNorm : nn_LayerNorm :=
  {| normalized_shape := 0; ln_weight := base 0; ln_bias := base 0; ln_eps := 0 |}.
Definition null_Attention : QKVAttention :=
  {| proj_q := null_Linear; proj_k := null_Linear; proj_v := null_Linear;
     n_heads := 0 |}.
Definition null_FeedForward : FeedForward :=
  {| fc1 := null_Linear; fc2 := null_Linear |}.
Definition null_Transformer : Transformer :=
  {| embed := {| tok_embed1 := {| emb_weight := base 0 |};
                 tok_embed2 := null_Linear;
                 pos_embed := {| emb_weight := base 0 |};
                 seg_embed := {| emb_weight := base 0 |};
                 norm := null_LayerNorm |};
     latents := base 0;
     cross_attend_blocks := (null_Attention, null_FeedForward);
     layers := (null_Attention, null_FeedForward);
     norm1 := null_LayerNorm; norm2 := null_LayerNorm;
     norm3 := null_LayerNorm; norm4 := null_LayerNorm |}.

(** [Transformer(cfg)] in a fresh interpreter ([null_Transformer] stands
    for the exception construction never raises). *)
Definition model_of (cfg : Config) : Transformer :=
  match fst (Transformer_init SInit cfg (initial_state None)) with
  | Ok self => self
  | Err _ => null_Transformer
  end.

(** The state after the construction and the creation of the tensors
    [inputs]; input [k] is in cell [36 + k]. *)
Definition state_of (cfg : Config) (g : option Config)
  (inputs : list (tensor (F:=sym))) : state (F:=sym) :=
  let s := snd (Transformer_init SInit cfg (initial_state g)) in
  with_heap (heap s ++ inputs) s.

Definition input (k : nat) : handle := base (36 + k).

(** [token_ids = [[1, 2, 3]]], [segment_ids = [[0, 0, 0]]],
    [mask = [[1, 1, 1]]] *)
Definition ids_123 : tensor (F:=sym) :=
  TLong (Arr [1; 3] (fun i => Z.of_nat (S (nth 1 i 0)))).
Definition seg_000 : tensor (F:=sym) := TLong (Arr [1; 3] (fun _ => 0%Z)).
Definition mask_111 : tensor (F:=sym) := TLong (Arr [1; 3] (fun _ => 1%Z)).

(** An empty batch of sequences of length 3. *)
Definition ids_empty : tensor (F:=sym) := TLong (Arr [0; 3] (fun _ => 0%Z)).

(** A float tensor whose elements are the terms [SInit c i]. *)
Definition float_input (c : nat) (sh : list nat) : tensor (F:=sym) :=
  TFloat (Arr sh (SInit c)).

Definition small_inputs : list (tensor (F:=sym)) := [ids_123; seg_000; mask_111].

(** An embedded sequence [[1; 3; 8]] and the mask [[1, 1, 1]]. *)
Definition attention_inputs : list (tensor (F:=sym)) :=
  [float_input 36 [1; 3; 8]; mask_111].

(** The parameters a round of self-processing reads. *)
Definition Linear_params (m : nn_Linear) : list handle :=
  [lin_weight m; lin_bias m].
Definition LayerNorm_params (m : nn_LayerNorm) : list handle :=
  [ln_weight m; ln_bias m].
Definition round_params (self : Transformer) : list handle :=
  Linear_params (proj_q (fst (layers self)))
  ++ Linear_params (proj_k (fst (layers self)))
  ++ Linear_params (proj_v (fst (layers self)))
  ++ Linear_params (fc1 (snd (layers self)))
  ++ Linear_params (fc2 (snd (layers self)))
  ++ LayerNorm_params (norm3 self) ++ LayerNorm_params (norm4 self).


(** A latent array [[1; 4; 8]] for the loop to start from. *)
Definition latent_input : tensor (F:=sym) := float_input 36 [1; 4; 8].

(** ** Outcomes of the embedding module *)

(** [embed(x, seg)] raises. *)
Definition embed_fails {F : Type} {SF : Scalar F} (s : state (F:=F))
  (m : Embeddings) (x seg : handle) : Prop :=
  ∃ e, fst (Embeddings_forward m x (Some seg) s) = Err e.

(** Some element of [a], at a position of [a], is not a row of a table
    of [rows] rows. *)
Definition out_of_table (rows : nat) (a : arr Z) : Prop :=
  ∃ i, valid_index (shape a) i ∧ in_table rows (data a i) = false.

(** ** The file's own layer normalisation, without the store *)

Section OwnLayerNormValue.
Context {F : Type} {SF : Scalar F}.
#[local] Abbreviation tensor := (tensor (F:=F)).

(** What [LayerNorm.forward] computes from the values of [gamma], [beta]
    and [x]. *)
Definition LayerNorm_v (g b : tensor) (eps : Q) (x : tensor) : result tensor :=
  u <~ t_mean_keepdim x ;;
  d <~ t_sub x u ;;
  s <~ t_mean_keepdim (t_map (fun v => fmul v v) d) ;;
  d <~ t_sub x u ;;
  x <~ t_div d (t_map fsqrt (t_map (fun v => fadd v (fconst eps)) s)) ;;
  gx <~ t_mul g x ;;
  t_add gx b.

End OwnLayerNormValue.

(** ** Counting the tensors a construction creates *)

Section Allocation.
Context {F : Type} {SF : Scalar F}.
#[local] Abbreviation M := (M (F:=F)).


End Allocation.

(** ** More scenarios *)

(** [Config()]: every field at its default. *)
#[warnings="-abstract-large-number"]
Definition Config_default : Config := {|
  vocab_size := 30000; hidden := 384; hidden_ff := 640; embedding_dim := 64;
  n_layers := 6; n_heads_cfg := 384 / 32; max_len := 256; n_segments := 2;
  cfg_M := 256; cfg_C := 384; cfg_N := 128; cfg_D := 384; cross_heads := 1;
  latent_heads := 8; cross_dim_head := 32; latent_dim_head := 32; ffw := 640;
  process_layers := 12 |}.

(** A row [[1; 8]] of features, and [gamma], [beta] as [LayerNorm] creates
    them for [hidden = 8]. *)
Definition own_LayerNorm_inputs : list (tensor (F:=sym)) :=
  [float_input 0 [1; 8];
   TFloat (Arr [8] (fun _ => fconst 1)); TFloat (Arr [8] (fun _ => fconst 0))].

Definition own_LayerNorm_state : state (F:=sym) :=
  with_heap own_LayerNorm_inputs (initial_state None).

(** [token_ids = [[1, 2, 100]]]: 100 is not a row of a table of 100 rows. *)
Definition ids_out_of_table : tensor (F:=sym) :=
  TLong (Arr [1; 3] (fun i => if nth 1 i 0 =? 2 then 100%Z
                              else Z.of_nat (S (nth 1 i 0)))).

(** * Properties *)

(** ** Results and computations *)

Section MonadFacts.
Context {F : Type} `{Scalar F}.
#[local] Abbreviation tensor := (tensor (F:=F)).
#[local] Abbreviation state := (state (F:=F)).
#[local] Abbreviation M := (M (F:=F)).

Implicit Types (s : state) (t : tensor) (h x y : handle).

Lemma ext_refl (s : state) : ext s s.
Proof. split; reflexivity. Qed.

Lemma ext_trans (s1 s2 s3 : state) : ext s1 s2 → ext s2 s3 → ext s1 s3.
Proof.
  intros [P1 G1] [P2 G2]. split; [by etrans | congruence].
Qed.

Lemma deref_ext (s s' : state) h t : ext s s' → deref s h = Ok t → deref s' h = Ok t.
Proof.
  intros [P _]. unfold deref.
  destruct (heap s !! cell h) as [c|] eqn:E; [|discriminate].
  by rewrite (prefix_lookup_Some _ _ _ _ E P).
Qed.

Lemma agree_ext ρ (s s' : state) : ext s s' → agree ρ s → agree ρ s'.
Proof. intros E A h t Hh. eapply deref_ext; eauto. Qed.

Lemma opt_denotes_ext s s' o v :
  ext s s' → opt_denotes s o v → opt_denotes s' o v.
Proof.
  intros E. destruct o, v; simpl; try done. by apply deref_ext.
Qed.

Lemma agree_deref (s : state) : agree (deref s) s.
Proof. intros h t Hh; exact Hh. Qed.

Lemma refines_from_bind {A A' B B'} (rel1 : state → A → A' → Prop)
  (rel2 : state → B → B' → Prop) s0 s (m : M A) (f : A → M B) v g :
  refines_from s0 rel1 s m v →
  (∀ s1 a b, v = Ok b → ext s0 s1 → rel1 s1 a b →
             refines_from s0 rel2 s1 (f a) (g b)) →
  refines_from s0 rel2 s (bind m f) (rbind v g).
Proof.
  unfold refines_from, bind. destruct (m s) as [[a|e] s1]; simpl; intros [E R] K.
  - destruct v as [b|e]; [|discriminate].
    destruct R as (a0 & [= <-] & R). simpl. exact (K s1 a b eq_refl E R).
  - destruct v as [b|e']; [destruct R as (? & ? & ?); discriminate|].
    injection R as <-. simpl. by split.
Qed.

Lemma refines_from_weaken {A B} (rel : state → A → B → Prop) s0 s (m : M A) v :
  ext s0 s → refines rel s m v → refines_from s0 rel s m v.
Proof. intros E [E1 R]. split; [by eapply ext_trans|exact R]. Qed.

Lemma refines_from_step {A A' B B'} (rel1 : state → A → A' → Prop)
  (rel2 : state → B → B' → Prop) s0 s (m : M A) (f : A → M B) v g :
  ext s0 s →
  refines rel1 s m v →
  (∀ s1 a b, v = Ok b → ext s s1 → rel1 s1 a b →
             refines_from s0 rel2 s1 (f a) (g b)) →
  refines_from s0 rel2 s (bind m f) (rbind v g).
Proof.
  unfold refines, refines_from, bind.
  destruct (m s) as [[a|e] s1]; simpl; intros E0 [E R] K.
  - destruct v as [b|e]; [|discriminate].
    destruct R as (a0 & [= <-] & R). simpl. exact (K s1 a b eq_refl E R).
  - destruct v as [b|e']; [destruct R as (? & ? & ?); discriminate|].
    injection R as <-. simpl. split; [by eapply ext_trans|done].
Qed.

Lemma refines_from_run {A B B'} (rel : state → B → B' → Prop) s0 s s1
  (m : M A) (f : A → M B) a v :
  m s = (Ok a, s1) → refines_from s0 rel s1 (f a) v →
  refines_from s0 rel s (bind m f) v.
Proof. unfold refines_from, bind. by intros ->. Qed.

Lemma refines_from_step_ok {A A' B B'} (rel1 : state → A → A' → Prop)
  (rel2 : state → B → B' → Prop) s0 s (m : M A) (f : A → M B) b v :
  ext s0 s →
  refines rel1 s m (Ok b) →
  (∀ s1 a, ext s s1 → rel1 s1 a b → refines_from s0 rel2 s1 (f a) v) →
  refines_from s0 rel2 s (bind m f) v.
Proof.
  intros E R K. change v with (rbind (Ok b) (fun _ => v)).
  eapply refines_from_step; [exact E|exact R|].
  intros s1 a b' [= <-] E1 R1. by apply K.
Qed.

Lemma refines_bind {A A' B B'} (rel1 : state → A → A' → Prop)
  (rel2 : state → B → B' → Prop) s (m : M A) (f : A → M B) v g :
  refines rel1 s m v →
  (∀ s1 a b, v = Ok b → ext s s1 → rel1 s1 a b → refines rel2 s1 (f a) (g b)) →
  refines rel2 s (bind m f) (rbind v g).
Proof.
  intros R K. apply (refines_from_step rel1 rel2 s s m f v g (ext_refl s) R).
  intros s1 a b Ev E R1. apply refines_from_weaken; [done|]. by apply K.
Qed.

Lemma refines_bind_ok {A A' B B'} (rel1 : state → A → A' → Prop)
  (rel2 : state → B → B' → Prop) s (m : M A) (f : A → M B) b v :
  refines rel1 s m (Ok b) →
  (∀ s1 a, ext s s1 → rel1 s1 a b → refines rel2 s1 (f a) v) →
  refines rel2 s (bind m f) v.
Proof.
  intros R K. change v with (rbind (Ok b) (fun _ => v)).
  eapply refines_bind; [exact R|]. intros s1 a b' [= <-] E R1. by apply K.
Qed.

Lemma rbind_assoc {A B C} (v : result A) (f : A → result B) (g : B → result C) :
  rbind (rbind v f) g = rbind v (fun a => rbind (f a) g).
Proof. by destruct v. Qed.

Lemma bind_assoc {A B C} (m : M A) (f : A → M B) (g : B → M C) s :
  bind (bind m f) g s = bind m (fun a => bind (f a) g) s.
Proof. unfold bind. by destruct (m s) as [[a|e] s1]. Qed.

Lemma refines_assoc {A B C D} (rel : state → C → D → Prop) s
  (m : M A) (f : A → M B) (g : B → M C) v :
  refines rel s (bind m (fun a => bind (f a) g)) v →
  refines rel s (bind (bind m f) g) v.
Proof. unfold refines, refines_from. by rewrite bind_assoc. Qed.

Lemma bind_ext {A B} (m : M A) (f g : A → M B) s :
  (∀ a s1, f a s1 = g a s1) → bind m f s = bind m g s.
Proof. intros E. unfold bind. by destruct (m s) as [[a|e] s1]. Qed.

(** [Transformer.forward] is [encode], then the lookup of [cfg], then the
    loop. *)
Lemma Transformer_forward_eq (self : Transformer) ids seg mask s :
  Transformer_forward self ids seg mask s =
  (x <- encode self ids seg mask ;;
   cfg <- global_cfg ;;
   x <- for_in (range (process_layers cfg))
          (fun _ x => process_round self x) x ;;
   ret x) s.
Proof.
  unfold Transformer_forward, encode, process_round.
  destruct (cross_attend_blocks self) as [ca cf], (layers self) as [sa sf].
  do 3 (etrans; [|symmetry; apply bind_assoc]; apply bind_ext; intros ? ?).
  reflexivity.
Qed.

Lemma bind_ret {A} (m : M A) s : bind m ret s = m s.
Proof. unfold bind, ret. by destruct (m s) as [[a|e] s1]. Qed.

Lemma refines_bind_ret {A B} (rel : state → A → B → Prop) s (m : M A) v :
  refines rel s m v → refines rel s (x <- m ;; ret x) v.
Proof. unfold refines, refines_from. by rewrite bind_ret. Qed.

Lemma refines_ret {A B} (rel : state → A → B → Prop) s a b :
  rel s a b → refines rel s (ret a) (Ok b).
Proof. intros R. split; [apply ext_refl|]. by exists a. Qed.

Lemma refines_lift {A} s (r : result A) : refines same s (lift r) r.
Proof.
  split; [apply ext_refl|]. destruct r; simpl; [|done]. by eexists.
Qed.

Lemma refines_get s h t : deref s h = Ok t → refines same s (get h) (Ok t).
Proof. intros D. split; [apply ext_refl|]. exists t. by split. Qed.

Lemma ext_new (s : state) t : ext s (with_heap (heap s ++ [t]) s).
Proof. split; [by apply prefix_app_r|done]. Qed.

Lemma deref_new (s : state) t :
  deref (with_heap (heap s ++ [t]) s) (base (length (heap s))) = Ok t.
Proof. unfold deref; simpl. by rewrite list_lookup_middle. Qed.

Lemma refines_new s t : refines denotes s (new t) (Ok t).
Proof.
  split; [apply ext_new|]. eexists; split; [done|]. apply deref_new.
Qed.

(** A value computed from tensors that are read, stored in a new cell. *)
Lemma refines_lift_new s (r : result tensor) :
  refines denotes s (a <- lift r ;; new a) r.
Proof.
  destruct r as [t|e].
  - eapply refines_bind_ok; [apply refines_lift|].
    intros s1 a _ R; unfold same in R; subst a. apply refines_new.
  - split; [apply ext_refl|done].
Qed.

Lemma refines_op1 s f x t :
  deref s x = Ok t → refines denotes s (op1 f x) (f t).
Proof.
  intros D. unfold op1.
  eapply refines_bind_ok; [by apply refines_get|].
  intros s1 a _ R; unfold same in R; subst a. apply refines_lift_new.
Qed.

Lemma refines_op2 s f x y tx ty :
  deref s x = Ok tx → deref s y = Ok ty →
  refines denotes s (op2 f x y) (f tx ty).
Proof.
  intros Dx Dy. unfold op2.
  eapply refines_bind_ok; [by apply refines_get|]. intros s1 a E R; unfold same in R; subst a.
  eapply refines_bind_ok; [apply refines_get; by eapply deref_ext|].
  intros s2 b _ R; unfold same in R; subst b. apply refines_lift_new.
Qed.

Lemma refines_tensor_map s f x t :
  deref s x = Ok t → refines denotes s (tensor_map f x) (Ok (t_map f t)).
Proof. intros D. by apply (refines_op1 s (fun t => Ok (t_map f t))). Qed.

Lemma deref_add_views (s : state) x t vs :
  deref s x = Ok t →
  deref s (Handle (cell x) (views x ++ vs))
  = Ok (foldl (fun t v => view_tensor v t) t vs).
Proof.
  unfold deref; simpl. destruct (heap s !! cell x); [|discriminate].
  intros [= <-]. by rewrite foldl_app.
Qed.

Lemma refines_mk_view s check x t :
  deref s x = Ok t → refines denotes s (mk_view check x) (apply_views check t).
Proof.
  intros D. unfold mk_view, apply_views.
  eapply refines_bind_ok; [by apply refines_get|]. intros s1 a E R; unfold same in R; subst a.
  eapply refines_bind; [apply refines_lift|]. intros s2 vs vs' _ E2 R; unfold same in R; subst vs.
  apply refines_ret. apply deref_add_views.
  eapply deref_ext; [exact E2|]. by eapply deref_ext.
Qed.

Lemma refines_expand_as s x other t o :
  deref s x = Ok t → deref s other = Ok o →
  refines denotes s (tensor_expand_as x other)
          (apply_views (chk_expand (tshape o)) t).
Proof.
  intros D Do. unfold tensor_expand_as.
  eapply refines_bind_ok; [by apply refines_get|]. intros s1 a E R; unfold same in R; subst a.
  apply refines_mk_view. by eapply deref_ext.
Qed.

Lemma refines_float s x t :
  deref s x = Ok t →
  refines denotes s (tensor_float x) (Ok (TFloat (promote t))).
Proof.
  intros D. unfold tensor_float.
  eapply refines_bind_ok; [by apply refines_get|]. intros s1 a E R; unfold same in R; subst a.
  destruct t; [|apply refines_new].
  apply refines_ret. by eapply deref_ext.
Qed.

Lemma refines_clone s x t :
  deref s x = Ok t → refines denotes s (tensor_clone x) (Ok t).
Proof.
  intros D. unfold tensor_clone.
  eapply refines_bind_ok; [by apply refines_get|]. intros s1 a E R; unfold same in R; subst a.
  apply refines_new.
Qed.

Lemma refines_detach s x t :
  deref s x = Ok t → refines denotes s (tensor_detach x) (Ok t).
Proof.
  intros D. unfold tensor_detach.
  eapply refines_bind_ok; [by apply refines_get|]. intros s1 a E R; unfold same in R; subst a.
  apply refines_ret. by eapply deref_ext.
Qed.

Lemma refines_contiguous s x t :
  deref s x = Ok t → refines denotes s (tensor_contiguous x) (Ok t).
Proof.
  intros D. unfold tensor_contiguous.
  eapply refines_bind_ok; [by apply refines_get|]. intros s1 a E R; unfold same in R; subst a.
  destruct (forallb keeps_order (views x)); [|apply refines_new].
  apply refines_ret. by eapply deref_ext.
Qed.

Lemma tensor_map_run s f x t :
  deref s x = Ok t →
  tensor_map f x s
  = (Ok (base (length (heap s))), with_heap (heap s ++ [t_map f t]) s).
Proof.
  intros D. unfold tensor_map, op1, bind, get, lift, new. by rewrite D.
Qed.

Lemma t_isub_float a ty r :
  t_isub (TFloat a) ty = Ok r → ∃ a', r = TFloat a'.
Proof.
  unfold t_isub, t_sub, t_zip. simpl.
  destruct (zip_bc fsub a (promote ty)) as [c|]; simpl; [|discriminate].
  case_decide; [|discriminate]. intros [= <-]. by eexists.
Qed.

(** [scores -= b] where [scores] is the tensor allocated right after [s0]:
    the cells of [s0] are not written. *)
Lemma isub_fresh s0 s c0 b tb :
  ext (with_heap (heap s0 ++ [TFloat c0]) s0) s → deref s b = Ok tb →
  refines_from s0
    (fun s' (_ : unit) t' => deref s' (base (length (heap s0))) = Ok t')
    s (tensor_isub (base (length (heap s0))) b) (t_isub (TFloat c0) tb).
Proof.
  intros E Db. pose proof (deref_ext _ _ _ _ E (deref_new s0 (TFloat c0))) as Dsc.
  destruct E as [[l Hl] Hg]. simpl in Hl, Hg.
  assert (E0 : ext s0 s).
  { split; [|done]. rewrite Hl, <- app_assoc. by apply prefix_app_r. }
  unfold refines_from, tensor_isub, bind, get, lift, put. rewrite Dsc, Db.
  destruct (t_isub (TFloat c0) tb) as [r|e] eqn:Er; simpl; [|by split].
  destruct (t_isub_float _ _ _ Er) as [a' ->].
  assert (Hn : heap s !! length (heap s0) = Some (TFloat c0)).
  { rewrite Hl, <- app_assoc. by apply list_lookup_middle. }
  rewrite Hn. simpl. split.
  - split; [|done]. simpl. rewrite Hl, <- app_assoc.
    rewrite insert_app_r_alt, Nat.sub_diag by lia. simpl.
    by apply prefix_app_r.
  - exists tt. split; [done|]. unfold deref. simpl.
    rewrite list_lookup_insert_eq; [done|].
    apply lookup_lt_Some in Hn. exact Hn.
Qed.

Lemma refines_tensor_size s x d t :
  deref s x = Ok t → refines same s (tensor_size x d) (t_size d t).
Proof.
  intros D. unfold tensor_size.
  eapply refines_bind_ok; [by apply refines_get|]. intros s1 a E R; unfold same in R; subst a.
  apply refines_lift.
Qed.

End MonadFacts.

(** Facts about the state before a step, carried to the state after it. *)
Ltac fwd E :=
  lazymatch type of E with
  | ext ?s ?s1 =>
      repeat match goal with
        | D : deref s _ = Ok _ |- _ => apply (deref_ext _ _ _ _ E) in D
        | D : denotes s _ _ |- _ => apply (deref_ext _ _ _ _ E) in D
        | A : agree _ s |- _ => apply (agree_ext _ _ _ E) in A
        | O : opt_denotes s _ _ |- _ => apply (opt_denotes_ext _ _ _ _ E) in O
        end
  end.

(** One statement [a <- m ;; ...] whose value is total ([step_ok]) or may
    raise ([step]); [lem] proves the statement computes its value. *)
Ltac step lem :=
  rewrite ?rbind_assoc; eapply refines_bind; [lem|];
  let s1 := fresh "s" in let a := fresh "a" in let b := fresh "b" in
  let Ev := fresh "Ev" in let E := fresh "E" in let R := fresh "R" in
  intros s1 a b Ev E R; fwd E; cbv beta in R; unfold same in R; try subst a.

(** [ext s s'] from the chain of steps between [s] and [s']. *)
Ltac ext_chain :=
  solve [ apply ext_refl
        | eassumption
        | eapply ext_trans; [eassumption|ext_chain] ].

Ltac fstep lem :=
  rewrite ?rbind_assoc;
  eapply refines_from_step; [ext_chain|lem|];
  let s1 := fresh "s" in let a := fresh "a" in let b := fresh "b" in
  let Ev := fresh "Ev" in let E := fresh "E" in let R := fresh "R" in
  intros s1 a b Ev E R; fwd E; cbv beta in R; unfold same in R; try subst a.

Ltac fstep_ok lem :=
  eapply refines_from_step_ok; [ext_chain|lem|];
  let s1 := fresh "s" in let a := fresh "a" in
  let E := fresh "E" in let R := fresh "R" in
  intros s1 a E R; fwd E; cbv beta in R; unfold same in R; try subst a.

(** Of what an attention method establishes, the value of its output. *)
Ltac keep_output :=
  match goal with
  | R : _ ∧ (∃ sc, _ ∧ _) |- _ => destruct R as [R _]
  end.

Ltac step_ok lem :=
  eapply refines_bind_ok; [lem|];
  let s1 := fresh "s" in let a := fresh "a" in
  let E := fresh "E" in let R := fresh "R" in
  intros s1 a E R; fwd E; cbv beta in R; unfold same in R; try subst a.

Section Unfoldings.
Context {F : Type} `{Scalar F}.

Lemma QKVAttention_cross_forward_eq (self : QKVAttention) x latent mask :
  QKVAttention_cross_forward (F:=F) self x latent mask =
  (q <- nn_Linear_forward (proj_q self) latent ;;
   k <- nn_Linear_forward (proj_k self) x ;;
   v <- nn_Linear_forward (proj_v self) x ;;
   attend_with (n_heads self) q k v mask
     (fun h scores => _ <- set_cross_scores scores ;; ret h)).
Proof. reflexivity. Qed.

Lemma QKVAttention_self_forward_eq (self : QKVAttention) x mask :
  QKVAttention_self_forward (F:=F) self x mask =
  (q <- nn_Linear_forward (proj_q self) x ;;
   k <- nn_Linear_forward (proj_k self) x ;;
   v <- nn_Linear_forward (proj_v self) x ;;
   attend_with (n_heads self) q k v mask
     (fun h scores => _ <- set_self_scores scores ;; ret h)).
Proof. reflexivity. Qed.

End Unfoldings.

(** ** Every method computes its value *)

Section Refinement.
Context {F : Type} `{Scalar F}.
#[local] Abbreviation tensor := (tensor (F:=F)).
#[local] Abbreviation state := (state (F:=F)).
#[local] Abbreviation M := (M (F:=F)).
Implicit Types (s : state) (t : tensor) (h x y : handle).
Variable ρ : handle → result tensor.

Lemma has_shape_inv h sh :
  has_shape ρ h sh = true → ∃ a, ρ h = Ok (TFloat a) ∧ shape a = sh.
Proof.
  unfold has_shape. destruct (ρ h) as [[a|a]|]; try discriminate.
  intros D. exists a. split; [done|]. by apply bool_decide_eq_true in D.
Qed.

Lemma refines_Embedding s m o v num dim :
  agree ρ s → nn_Embedding_ok ρ m num dim = true → opt_denotes s o v →
  refines denotes s (nn_Embedding_forward m o) (Embedding_v ρ m v).
Proof.
  intros A Ok1 D. destruct o as [i|], v as [t|]; simpl in D; try done.
  apply has_shape_inv in Ok1 as (a & Hw & _).
  unfold nn_Embedding_forward, Embedding_v. rewrite Hw. simpl.
  apply refines_op2; [done|]. by apply A.
Qed.

Lemma refines_Linear s m x t n_in n_out :
  agree ρ s → nn_Linear_ok ρ m n_in n_out = true → deref s x = Ok t →
  refines denotes s (nn_Linear_forward m x) (Linear_v ρ m t).
Proof.
  intros A Ok1 D. apply andb_prop in Ok1 as [Hw Hb].
  apply has_shape_inv in Hw as (w & Hw & _).
  apply has_shape_inv in Hb as (b & Hb & _).
  unfold nn_Linear_forward, Linear_v. rewrite Hw, Hb. simpl.
  step_ok ltac:(by apply refines_get).
  step_ok ltac:(apply refines_get; by apply A).
  step_ok ltac:(apply refines_get; by apply A).
  apply refines_lift_new.
Qed.

Lemma refines_LayerNorm s m x t n :
  agree ρ s → nn_LayerNorm_ok ρ m n = true → deref s x = Ok t →
  refines denotes s (nn_LayerNorm_forward m x) (nn_LayerNorm_v ρ m t).
Proof.
  intros A Ok1 D. apply andb_prop in Ok1 as [Ok1 Hb].
  apply andb_prop in Ok1 as [_ Hw].
  apply has_shape_inv in Hw as (w & Hw & _).
  apply has_shape_inv in Hb as (b & Hb & _).
  unfold nn_LayerNorm_forward, nn_LayerNorm_v. rewrite Hw, Hb. simpl.
  step_ok ltac:(by apply refines_get).
  step_ok ltac:(apply refines_get; by apply A).
  step_ok ltac:(apply refines_get; by apply A).
  apply refines_lift_new.
Qed.

Lemma refines_gelu s x t :
  deref s x = Ok t → refines denotes s (gelu x) (gelu_v t).
Proof.
  intros D. unfold gelu, gelu_v, torch_erf. cbv zeta.
  step_ok ltac:(by apply refines_tensor_map).
  step_ok ltac:(by apply refines_tensor_map).
  step_ok ltac:(by apply refines_tensor_map).
  step_ok ltac:(by apply refines_tensor_map).
  by apply refines_op2.
Qed.

Lemma refines_FeedForward s cfg m x t :
  agree ρ s → FeedForward_ok ρ cfg m = true → deref s x = Ok t →
  refines denotes s (FeedForward_forward m x) (FeedForward_v ρ m t).
Proof.
  intros A Ok1 D. apply andb_prop in Ok1 as [O1 O2].
  unfold FeedForward_forward, FeedForward_v.
  step ltac:(by eapply refines_Linear).
  step ltac:(by apply refines_gelu).
  by eapply refines_Linear.
Qed.

Lemma refines_Embeddings s cfg m x t o v :
  agree ρ s → Embeddings_ok ρ cfg m = true → deref s x = Ok t →
  opt_denotes s o v →
  refines denotes s (Embeddings_forward m x o) (Embeddings_v ρ m t v).
Proof.
  intros A Ok1 D O. unfold Embeddings_ok in Ok1.
  repeat (apply andb_prop in Ok1 as [Ok1 ?]).
  unfold Embeddings_forward, Embeddings_v, Embeddings_sum_v, positions_v.
  rewrite !rbind_assoc.
  step ltac:(by apply refines_tensor_size).
  step_ok ltac:(apply refines_new).
  rewrite !rbind_assoc.
  step ltac:(by apply refines_mk_view).
  step ltac:(by apply refines_expand_as).
  step ltac:(by eapply (refines_Embedding _ _ (Some x) (Some t))).
  step ltac:(by eapply refines_Linear).
  step ltac:(by eapply (refines_Embedding _ _ (Some _) (Some _))).
  step ltac:(by apply refines_op2).
  step ltac:(by eapply refines_Embedding).
  step ltac:(by apply refines_op2).
  by eapply refines_LayerNorm.
Qed.

Lemma refines_scale_and_mask {A B} (rel : state → A → B → Prop) s w qk tqk
  mask tm (K : handle → M A) (G : tensor → result B) :
  deref s qk = Ok tqk → opt_denotes s mask tm →
  (∀ s1 sc tsc, ext s s1 → deref s1 sc = Ok tsc →
                refines rel s1 (K sc) (G tsc)) →
  refines rel s (scale_and_mask w qk mask K)
    (sc <~ masked_scores_v (t_map (fun a => fdiv a (fsqrt (fofnat w))) tqk) tm ;;
     G sc).
Proof.
  intros D O HK. unfold refines, scale_and_mask.
  eapply refines_from_run; [by apply tensor_map_run|].
  pose proof (ext_new s (t_map (fun a => fdiv a (fsqrt (fofnat w))) tqk)) as E1.
  pose proof (deref_new s (t_map (fun a => fdiv a (fsqrt (fofnat w))) tqk)) as D1.
  destruct mask as [m|], tm as [tmv|]; simpl in O; try done.
  - eapply refines_from_bind.
    + fwd E1. unfold masked_scores_v. cbv zeta.
      fstep ltac:(by apply refines_mk_view).
      fstep_ok ltac:(by apply refines_float).
      fstep_ok ltac:(by apply refines_tensor_map).
      fstep_ok ltac:(by apply refines_tensor_map).
      apply isub_fresh; [ext_chain|done].
    + intros s2 [] t' _ E2 R. apply refines_from_weaken; [done|].
      by apply HK.
  - simpl. eapply refines_from_run; [reflexivity|].
    apply refines_from_weaken; [done|]. by apply HK.
Qed.

Lemma refines_split_heads s heads x t :
  deref s x = Ok t →
  refines denotes s (a <- split_last x heads ;; tensor_transpose a (-2) (-3))
          (split_heads_v heads t).
Proof.
  intros D. unfold split_heads_v.
  step ltac:(by apply refines_mk_view).
  by apply refines_mk_view.
Qed.

Lemma refines_attend_with {A B} (rel : state → A → B → Prop) s heads q k v
  mask tq tk tv tm (K : handle → handle → M A)
  (G : tensor → tensor → result B) :
  deref s q = Ok tq → deref s k = Ok tk → deref s v = Ok tv →
  opt_denotes s mask tm →
  (∀ s1 h sc th tsc, ext s s1 → deref s1 h = Ok th → deref s1 sc = Ok tsc →
                     refines rel s1 (K h sc) (G th tsc)) →
  refines rel s (attend_with heads q k v mask K)
          (r <~ attend_v heads tq tk tv tm ;; G (fst r) (snd r)).
Proof.
  intros Dq Dk Dv O HK. unfold attend_with, attend_v, scaled_scores_v.
  step ltac:(by apply refines_split_heads).
  step ltac:(by apply refines_split_heads).
  step ltac:(by apply refines_split_heads).
  step ltac:(by apply refines_mk_view).
  step ltac:(by apply refines_op2).
  step ltac:(by apply refines_tensor_size).
  simpl. rewrite ?rbind_assoc.
  eapply refines_scale_and_mask; [done|done|].
  intros s6 sc tsc E6 Dsc. fwd E6.
  step ltac:(by apply refines_op1).
  step ltac:(by apply refines_op2).
  step ltac:(by apply refines_mk_view).
  step_ok ltac:(by apply refines_contiguous).
  step ltac:(by apply refines_mk_view).
  simpl. apply HK; [ext_chain|done|done].
Qed.

Lemma rbind_pair_eta {A B} (v : result (A * B)) :
  v = (r <~ v ;; Ok (fst r, snd r)).
Proof. by destruct v as [[]|]. Qed.

Lemma refines_cross s cfg m x latent mask tx tl tm :
  agree ρ s → QKVAttention_cross_ok ρ cfg m = true →
  deref s x = Ok tx → deref s latent = Ok tl → opt_denotes s mask tm →
  refines (fun s' h (r : tensor * tensor) =>
             deref s' h = Ok (fst r) ∧
             ∃ sc, cross_attn_scores s' = Some sc ∧ deref s' sc = Ok (snd r))
          s (QKVAttention_cross_forward m x latent mask)
          (QKVAttention_cross_v ρ m tx tl tm).
Proof.
  intros A Ok1 Dx Dl O. unfold QKVAttention_cross_ok in Ok1.
  apply andb_prop in Ok1 as [Ok1 Hv]. apply andb_prop in Ok1 as [Hq Hk].
  rewrite QKVAttention_cross_forward_eq. unfold QKVAttention_cross_v.
  step ltac:(by eapply refines_Linear).
  step ltac:(by eapply refines_Linear).
  step ltac:(by eapply refines_Linear).
  rewrite (rbind_pair_eta (attend_v _ _ _ _ _)).
  eapply refines_attend_with with (G := fun th tsc => Ok (th, tsc)); try done.
  intros s3 h sc th tsc E3 Dh Dsc.
  split; [split; [apply prefix_reflexive || reflexivity|done]|].
  exists h. split; [done|]. split; [exact Dh|]. by exists sc.
Qed.

Lemma refines_self s cfg m x mask tx tm :
  agree ρ s → QKVAttention_self_ok ρ cfg m = true →
  deref s x = Ok tx → opt_denotes s mask tm →
  refines (fun s' h (r : tensor * tensor) =>
             deref s' h = Ok (fst r) ∧
             ∃ sc, self_attn_scores s' = Some sc ∧ deref s' sc = Ok (snd r))
          s (QKVAttention_self_forward m x mask)
          (QKVAttention_self_v ρ m tx tm).
Proof.
  intros A Ok1 Dx O. unfold QKVAttention_self_ok in Ok1.
  apply andb_prop in Ok1 as [Ok1 Hv]. apply andb_prop in Ok1 as [Hq Hk].
  rewrite QKVAttention_self_forward_eq. unfold QKVAttention_self_v.
  step ltac:(by eapply refines_Linear).
  step ltac:(by eapply refines_Linear).
  step ltac:(by eapply refines_Linear).
  rewrite (rbind_pair_eta (attend_v _ _ _ _ _)).
  eapply refines_attend_with with (G := fun th tsc => Ok (th, tsc)); try done.
  intros s3 h sc th tsc E3 Dh Dsc.
  split; [split; [apply prefix_reflexive || reflexivity|done]|].
  exists h. split; [done|]. split; [exact Dh|]. by exists sc.
Qed.

Lemma refines_residual s norm n fx r tfx tr :
  agree ρ s → nn_LayerNorm_ok ρ norm n = true →
  deref s fx = Ok tfx → deref s r = Ok tr →
  refines denotes s (y <- tensor_add fx r ;; nn_LayerNorm_forward norm y)
          (residual_v ρ norm tfx tr).
Proof.
  intros A Ok1 Dfx Dr. unfold residual_v.
  step ltac:(by apply refines_op2).
  by eapply refines_LayerNorm.
Qed.

Lemma Transformer_ok_inv cfg self :
  Transformer_ok ρ cfg self = true →
  (Embeddings_ok ρ cfg (embed self) = true
   ∧ has_shape ρ (latents self) [cfg_N cfg; cfg_D cfg] = true
   ∧ QKVAttention_cross_ok ρ cfg (fst (cross_attend_blocks self)) = true
   ∧ n_heads (fst (cross_attend_blocks self)) = cross_heads cfg
   ∧ FeedForward_ok ρ cfg (snd (cross_attend_blocks self)) = true)
  ∧ (QKVAttention_self_ok ρ cfg (fst (layers self)) = true
     ∧ n_heads (fst (layers self)) = latent_heads cfg
     ∧ FeedForward_ok ρ cfg (snd (layers self)) = true)
  ∧ nn_LayerNorm_ok ρ (norm1 self) (cfg_D cfg) = true
  ∧ nn_LayerNorm_ok ρ (norm2 self) (cfg_D cfg) = true
  ∧ nn_LayerNorm_ok ρ (norm3 self) (cfg_D cfg) = true
  ∧ nn_LayerNorm_ok ρ (norm4 self) (cfg_D cfg) = true.
Proof.
  unfold Transformer_ok. intros Ok1.
  repeat match type of Ok1 with
         | (_ && _) = true =>
             let H := fresh "H" in apply andb_prop in Ok1 as [Ok1 H]
         end.
  repeat match goal with
         | H : (_ =? _) = true |- _ => apply Nat.eqb_eq in H
         end.
  by repeat split.
Qed.

Lemma refines_process_round s cfg self x tx :
  agree ρ s → Transformer_ok ρ cfg self = true → deref s x = Ok tx →
  refines denotes s (process_round self x) (process_round_v ρ self tx).
Proof.
  intros A Ok1 D.
  destruct (Transformer_ok_inv _ _ Ok1)
    as (_ & (Hsa & _ & Hsf) & _ & _ & Hn3 & Hn4).
  unfold process_round, process_round_v.
  destruct (layers self) as [sa sf]. simpl in *.
  apply refines_assoc.
  step ltac:(by eapply refines_self). keep_output.
  step ltac:(by eapply refines_residual).
  step ltac:(by eapply refines_FeedForward).
  by eapply refines_residual.
Qed.

Lemma refines_rounds s cfg self n k x tx :
  agree ρ s → Transformer_ok ρ cfg self = true → deref s x = Ok tx →
  refines denotes s (for_in (seq k n) (fun _ x => process_round self x) x)
          (iterate n (process_round_v ρ self) tx).
Proof.
  revert s k x tx. induction n as [|n IH]; intros s k x tx A Ok1 D; simpl.
  - by apply refines_ret.
  - step ltac:(by eapply refines_process_round).
    by apply IH.
Qed.

Lemma refines_encode s cfg self ids seg mask tids tseg tmask :
  agree ρ s → Transformer_ok ρ cfg self = true →
  deref s ids = Ok tids → opt_denotes s seg tseg → opt_denotes s mask tmask →
  refines denotes s (encode self ids seg mask)
          (encode_v ρ self tids tseg tmask).
Proof.
  intros A Ok1 D Os Om.
  destruct (Transformer_ok_inv _ _ Ok1)
    as ((He & Hl & Hca & _ & Hcf) & _ & Hn1 & Hn2 & _ & _).
  destruct (has_shape_inv _ _ Hl) as (l & Hlat & _).
  pose proof (A _ _ Hlat) as Dl.
  unfold encode, encode_v. rewrite Hlat. simpl rbind.
  destruct (cross_attend_blocks self) as [ca cf]. simpl in *.
  step ltac:(by eapply refines_Embeddings).
  apply refines_assoc.
  step_ok ltac:(by apply refines_clone).
  step_ok ltac:(by apply refines_detach).
  apply refines_assoc.
  step ltac:(by eapply refines_cross). keep_output.
  step ltac:(by eapply refines_residual).
  step ltac:(by eapply refines_FeedForward).
  by eapply refines_residual.
Qed.

Lemma refines_global_cfg s :
  refines same s global_cfg (global_cfg_v (models_cfg s)).
Proof.
  unfold refines, refines_from, global_cfg, global_cfg_v.
  destruct (models_cfg s); simpl; (split; [apply ext_refl|]); [|done].
  by eexists.
Qed.

(** [Transformer.forward] computes [Transformer_forward_v] at the binding
    the global name [cfg] has in the state it is called in. *)
Lemma refines_forward s cfg self ids seg mask tids tseg tmask :
  agree ρ s → Transformer_ok ρ cfg self = true →
  deref s ids = Ok tids → opt_denotes s seg tseg → opt_denotes s mask tmask →
  refines denotes s (Transformer_forward self ids seg mask)
          (Transformer_forward_v ρ (models_cfg s) self tids tseg tmask).
Proof.
  intros A Ok1 D Os Om.
  unfold refines, refines_from. rewrite Transformer_forward_eq.
  change (refines denotes s
            (x <- encode self ids seg mask ;;
             cfg <- global_cfg ;;
             x <- for_in (range (process_layers cfg))
                    (fun _ x => process_round self x) x ;;
             ret x)
            (Transformer_forward_v ρ (models_cfg s) self tids tseg tmask)).
  unfold Transformer_forward_v.
  step ltac:(by eapply refines_encode).
  replace (models_cfg s) with (models_cfg s0) by (by destruct E).
  step ltac:(apply refines_global_cfg).
  apply refines_bind_ret. by eapply refines_rounds.
Qed.

End Refinement.

(** ** Shapes, positions and broadcasting *)

Lemma lastn_app pre n : lastn (pre ++ [n]) = n.
Proof.
  unfold lastn. rewrite length_app. simpl.
  replace (length pre + 1 - 1) with (length pre) by lia.
  rewrite app_nth2 by lia. by rewrite Nat.sub_diag.
Qed.

Lemma initn_app pre n : initn (pre ++ [n]) = pre.
Proof.
  unfold initn. rewrite length_app. simpl.
  replace (length pre + 1 - 1) with (length pre) by lia.
  by rewrite take_app_length.
Qed.

Lemma in_indices sh i : In i (indices sh) ↔ valid_index sh i.
Proof.
  unfold valid_index. revert i. induction sh as [|n sh IH]; intros i; simpl.
  - split.
    + intros [<-|[]]. constructor.
    + intros Hf. inversion Hf. by left.
  - rewrite in_flat_map. split.
    + intros (k & Hk & Hi). apply in_map_iff in Hi as (i' & <- & Hi').
      apply in_seq in Hk. constructor; [lia|]. by apply IH.
    + intros Hf. inversion Hf as [|k n' i' sh' Hk Hi']; subst.
      exists k. split; [apply in_seq; lia|].
      apply in_map_iff. exists i'. split; [done|]. by apply IH.
Qed.

Lemma forallb_indices (P : list nat → bool) sh :
  forallb P (indices sh) = true ↔ ∀ i, valid_index sh i → P i = true.
Proof.
  rewrite forallb_forall. split; intros Hal i Hi; apply Hal; by apply in_indices.
Qed.

Lemma valid_index2 B S b j : valid_index [B; S] [b; j] ↔ b < B ∧ j < S.
Proof.
  unfold valid_index. split.
  - intros Hf. inversion Hf as [|? ? ? ? Hb Hf']; subst.
    inversion Hf' as [|? ? ? ? Hj _]; subst. done.
  - intros [Hb Hj]. repeat constructor; done.
Qed.

Lemma bc_dim_refl x : bc_dim x x = Ok x.
Proof. unfold bc_dim. by rewrite Nat.eqb_refl. Qed.

Lemma bc_dim_1_r x : bc_dim x 1 = Ok x.
Proof.
  unfold bc_dim. destruct (x =? 1) eqn:E; [|done].
  apply Nat.eqb_eq in E. by subst.
Qed.

Lemma bc_dim_1_l y : bc_dim 1 y = Ok y.
Proof.
  unfold bc_dim. destruct (1 =? y) eqn:E; [|done].
  apply Nat.eqb_eq in E. by subst.
Qed.

Lemma bc_rev_refl l : bc_rev l l = Ok l.
Proof. induction l as [|x l IH]; simpl; [done|]. by rewrite bc_dim_refl, IH. Qed.

Lemma bc_rev_app_l l p : bc_rev (l ++ p) l = Ok (l ++ p).
Proof.
  induction l as [|x l IH]; simpl; [by destruct p|].
  by rewrite bc_dim_refl, IH.
Qed.

Lemma bc_rev_app_r l p : bc_rev l (l ++ p) = Ok (l ++ p).
Proof.
  induction l as [|x l IH]; simpl; [done|].
  by rewrite bc_dim_refl, IH.
Qed.

Lemma broadcast_shapes_refl sh : broadcast_shapes sh sh = Ok sh.
Proof. unfold broadcast_shapes. by rewrite bc_rev_refl; simpl; rewrite rev_involutive. Qed.

Lemma broadcast_shapes_suffix_l pre sh :
  broadcast_shapes (pre ++ sh) sh = Ok (pre ++ sh).
Proof.
  unfold broadcast_shapes. rewrite rev_app_distr, bc_rev_app_l. simpl.
  by rewrite <- rev_app_distr, rev_involutive.
Qed.

Lemma broadcast_shapes_suffix_r pre sh :
  broadcast_shapes sh (pre ++ sh) = Ok (pre ++ sh).
Proof.
  unfold broadcast_shapes. rewrite rev_app_distr, bc_rev_app_r. simpl.
  by rewrite <- rev_app_distr, rev_involutive.
Qed.

(** Reading a broadcast operand at a position of the result. *)
Lemma bsel d k : k < d → (if d =? 1 then 0 else k) = k.
Proof. intros Hk. destruct (d =? 1) eqn:E; [|done]. apply Nat.eqb_eq in E. lia. Qed.

(** ** The values of the modules: shapes and elements *)

Section PureModules.
Context {F : Type} `{Scalar F}.
#[local] Abbreviation tensor := (tensor (F:=F)).
Variable ρ : handle → result tensor.

Lemma linear_eq (x w b : arr F) pre n o :
  shape x = pre ++ [n] → shape w = [o; n] → shape b = [o] →
  linear x w b
  = Ok (Arr (pre ++ [o])
            (fun i => fadd (fsum n (fun l => fmul (data x (initn i ++ [l]))
                                                  (data w [lastn i; l])))
                           (data b [lastn i]))).
Proof.
  intros Hx Hw Hb. unfold linear. rewrite Hw, Hb, Hx.
  rewrite lastn_app, initn_app, !Nat.eqb_refl. simpl.
  by destruct pre.
Qed.

Lemma linear_mismatch (x w b : arr F) n o :
  shape w = [o; n] → shape b = [o] → lastn (shape x) ≠ n →
  linear x w b = Err RuntimeError.
Proof.
  intros Hw Hb Hx. unfold linear. rewrite Hw, Hb.
  destruct (shape x) as [|d sh]; [done|].
  apply Nat.eqb_neq in Hx. by rewrite Hx.
Qed.

Lemma Linear_v_eq m (x : arr F) pre n o :
  nn_Linear_ok ρ m n o = true → shape x = pre ++ [n] →
  ∃ w b, ρ (lin_weight m) = Ok (TFloat w) ∧ ρ (lin_bias m) = Ok (TFloat b) ∧
  Linear_v ρ m (TFloat x)
  = Ok (TFloat (Arr (pre ++ [o])
            (fun i => fadd (fsum n (fun l => fmul (data x (initn i ++ [l]))
                                                  (data w [lastn i; l])))
                           (data b [lastn i])))).
Proof.
  intros Ok1 Hx. apply andb_prop in Ok1 as [Hw Hb].
  apply has_shape_inv in Hw as (w & Hw & Sw).
  apply has_shape_inv in Hb as (b & Hb & Sb).
  exists w, b. split; [done|]. split; [done|].
  unfold Linear_v, t_linear. rewrite Hw, Hb. simpl.
  by rewrite (linear_eq x w b pre n o).
Qed.

Lemma Linear_v_shape m (x : arr F) pre n o :
  nn_Linear_ok ρ m n o = true → shape x = pre ++ [n] →
  ∃ y, Linear_v ρ m (TFloat x) = Ok (TFloat y) ∧ shape y = pre ++ [o].
Proof.
  intros Ok1 Hx. destruct (Linear_v_eq m x pre n o Ok1 Hx) as (w & b & _ & _ & E).
  eexists. split; [exact E|done].
Qed.

Lemma Linear_v_mismatch m (x : tensor) n o :
  nn_Linear_ok ρ m n o = true → lastn (tshape x) ≠ n →
  Linear_v ρ m x = Err RuntimeError.
Proof.
  intros Ok1 Hx. apply andb_prop in Ok1 as [Hw Hb].
  apply has_shape_inv in Hw as (w & Hw & Sw).
  apply has_shape_inv in Hb as (b & Hb & Sb).
  unfold Linear_v, t_linear. rewrite Hw, Hb. simpl.
  destruct x as [a|a]; simpl; [|done].
  by rewrite (linear_mismatch a w b n o).
Qed.


Lemma layer_norm_eq n (w b : arr F) eps (x : arr F) pre :
  shape x = pre ++ [n] →
  layer_norm n w b eps x
  = Ok (Arr (shape x)
          (fun i => fadd (fmul (fdiv (fsub (data x i) (row_mean n x i))
                                     (fsqrt (fadd (row_var n x i) (fconst eps))))
                               (data w [lastn i]))
                         (data b [lastn i]))).
Proof.
  intros Hx. unfold layer_norm. rewrite Hx, lastn_app, Nat.eqb_refl.
  by destruct pre.
Qed.

Lemma layer_norm_inv n (w b : arr F) eps (x y : arr F) :
  layer_norm n w b eps x = Ok y →
  shape x ≠ [] ∧ lastn (shape x) = n ∧ shape y = shape x.
Proof.
  unfold layer_norm. destruct (shape x) as [|d sh] eqn:E; [done|].
  destruct (lastn (d :: sh) =? n) eqn:E1; [|done].
  intros [= <-]. apply Nat.eqb_eq in E1. done.
Qed.

Lemma nn_LayerNorm_v_eq m (x : arr F) pre n :
  nn_LayerNorm_ok ρ m n = true → shape x = pre ++ [n] →
  ∃ w b, ρ (ln_weight m) = Ok (TFloat w) ∧ ρ (ln_bias m) = Ok (TFloat b) ∧
  nn_LayerNorm_v ρ m (TFloat x)
  = Ok (TFloat (Arr (shape x)
          (fun i => fadd (fmul (fdiv (fsub (data x i) (row_mean n x i))
                                     (fsqrt (fadd (row_var n x i)
                                                  (fconst (ln_eps m)))))
                               (data w [lastn i]))
                         (data b [lastn i])))).
Proof.
  intros Ok1 Hx. apply andb_prop in Ok1 as [Ok1 Hb].
  apply andb_prop in Ok1 as [Hn Hw]. apply Nat.eqb_eq in Hn.
  apply has_shape_inv in Hw as (w & Hw & Sw).
  apply has_shape_inv in Hb as (b & Hb & Sb).
  exists w, b. split; [done|]. split; [done|].
  unfold nn_LayerNorm_v, t_layer_norm. rewrite Hw, Hb, Hn. simpl.
  by rewrite (layer_norm_eq n w b _ x pre).
Qed.

Lemma nn_LayerNorm_v_shape m (x : arr F) pre n :
  nn_LayerNorm_ok ρ m n = true → shape x = pre ++ [n] →
  ∃ y, nn_LayerNorm_v ρ m (TFloat x) = Ok (TFloat y) ∧ shape y = pre ++ [n].
Proof.
  intros Ok1 Hx.
  destruct (nn_LayerNorm_v_eq m x pre n Ok1 Hx) as (w & b & _ & _ & E).
  eexists. split; [exact E|done].
Qed.

Lemma nn_LayerNorm_v_inv m (x y : tensor) n :
  nn_LayerNorm_ok ρ m n = true → nn_LayerNorm_v ρ m x = Ok y →
  ∃ a, y = TFloat a ∧ shape a ≠ [] ∧ lastn (shape a) = n.
Proof.
  intros Ok1. apply andb_prop in Ok1 as [Ok1 Hb].
  apply andb_prop in Ok1 as [Hn Hw]. apply Nat.eqb_eq in Hn.
  apply has_shape_inv in Hw as (w & Hw & Sw).
  apply has_shape_inv in Hb as (b & Hb & Sb).
  unfold nn_LayerNorm_v, t_layer_norm. rewrite Hw, Hb, Hn. simpl.
  destruct x as [a|a]; simpl; [|done].
  destruct (layer_norm n w b (ln_eps m) a) as [y'|] eqn:E; simpl; [|done].
  intros [= <-]. apply layer_norm_inv in E as (E1 & E2 & E3).
  exists y'. rewrite E3. done.
Qed.

Lemma t_add_same (a b : arr F) sh :
  shape a = sh → shape b = sh →
  t_add (TFloat a) (TFloat b)
  = Ok (TFloat (Arr sh (fun i => fadd (data a (bidx sh i)) (data b (bidx sh i))))).
Proof.
  intros Ha Hb. unfold t_add, t_zip, zip_bc. simpl.
  by rewrite Ha, Hb, broadcast_shapes_refl.
Qed.

Lemma t_add_suffix (a b : arr F) pre sh :
  shape a = pre ++ sh → shape b = sh →
  t_add (TFloat a) (TFloat b)
  = Ok (TFloat (Arr (pre ++ sh)
         (fun i => fadd (data a (bidx (pre ++ sh) i)) (data b (bidx sh i))))).
Proof.
  intros Ha Hb. unfold t_add, t_zip, zip_bc. simpl.
  by rewrite Ha, Hb, broadcast_shapes_suffix_l.
Qed.

Lemma residual_v_shape norm (fx r : arr F) pre sh n :
  nn_LayerNorm_ok ρ norm n = true →
  shape fx = pre ++ sh ++ [n] → shape r = sh ++ [n] →
  ∃ y, residual_v ρ norm (TFloat fx) (TFloat r) = Ok (TFloat y)
       ∧ shape y = pre ++ sh ++ [n].
Proof.
  intros Ok1 Hfx Hr. unfold residual_v.
  rewrite (t_add_suffix fx r pre (sh ++ [n])) by done. simpl.
  destruct (nn_LayerNorm_v_shape norm
              (Arr (pre ++ sh ++ [n])
                 (fun i => fadd (data fx (bidx (pre ++ sh ++ [n]) i))
                                (data r (bidx (sh ++ [n]) i))))
              (pre ++ sh) n Ok1) as (y & E & Sy).
  { simpl. by rewrite <- app_assoc. }
  exists y. split; [exact E|]. by rewrite Sy, <- app_assoc.
Qed.

Lemma gelu_v_shape (x : arr F) :
  ∃ y, gelu_v (TFloat x) = Ok (TFloat y) ∧ shape y = shape x.
Proof.
  unfold gelu_v, t_mul, t_zip, t_map, zip_bc. simpl.
  rewrite broadcast_shapes_refl. simpl. eexists. split; [reflexivity|done].
Qed.

Lemma FeedForward_v_shape cfg m (x : arr F) pre :
  FeedForward_ok ρ cfg m = true → shape x = pre ++ [cfg_D cfg] →
  ∃ y, FeedForward_v ρ m (TFloat x) = Ok (TFloat y)
       ∧ shape y = pre ++ [cfg_D cfg].
Proof.
  intros Ok1 Hx. apply andb_prop in Ok1 as [O1 O2]. unfold FeedForward_v.
  destruct (Linear_v_shape (fc1 m) x pre _ _ O1 Hx) as (a & -> & Sa). simpl.
  destruct (gelu_v_shape a) as (g & -> & Sg). simpl.
  apply (Linear_v_shape (fc2 m) g pre _ _ O2). by rewrite Sg.
Qed.

End PureModules.

(** Reading an element: positions are lists of known length; a broadcast
    dimension is read where the position says. *)
Ltac bsel_tac :=
  repeat match goal with
    | Hk : ?k < ?d |- context [if ?d =? 1 then 0 else ?k] =>
        rewrite (bsel d k Hk)
    end.

Ltac idx_simpl :=
  repeat (progress (cbn; unfold bidx, initn, lastn, swap; cbn; bsel_tac)).

Section PureEmbeddings.
Context {F : Type} `{Scalar F}.
#[local] Abbreviation tensor := (tensor (F:=F)).
Variable ρ : handle → result tensor.

Lemma Embedding_v_eq m (idx : arr Z) num dim :
  nn_Embedding_ok ρ m num dim = true →
  forallb (fun i => in_table num (data idx i)) (indices (shape idx)) = true →
  ∃ w, ρ (emb_weight m) = Ok (TFloat w) ∧ shape w = [num; dim] ∧
  Embedding_v ρ m (Some (TLong idx))
  = Ok (TFloat (Arr (shape idx ++ [dim])
         (fun i => data w [Z.to_nat (data idx (initn i)); lastn i]))).
Proof.
  intros Ok1 Hin. apply has_shape_inv in Ok1 as (w & Hw & Sw).
  exists w. split; [done|]. split; [done|].
  unfold Embedding_v, t_embedding, embedding. rewrite Hw. simpl.
  by rewrite Sw, Hin.
Qed.

Lemma Embedding_v_err m (idx : arr Z) num dim :
  nn_Embedding_ok ρ m num dim = true →
  forallb (fun i => in_table num (data idx i)) (indices (shape idx)) = false →
  Embedding_v ρ m (Some (TLong idx)) = Err IndexError.
Proof.
  intros Ok1 Hin. apply has_shape_inv in Ok1 as (w & Hw & Sw).
  unfold Embedding_v, t_embedding, embedding. rewrite Hw. simpl.
  by rewrite Sw, Hin.
Qed.

Lemma positions_v_eq (ids : arr Z) B S :
  shape ids = [B; S] →
  positions_v (F:=F) (TLong ids) = Ok (TLong (positions_arr B S)).
Proof.
  intros Hs. unfold positions_v, t_size, apply_views, chk_expand. simpl.
  rewrite Hs. simpl. unfold expandable. simpl.
  by rewrite Nat.eqb_refl, orb_true_r.
Qed.

Lemma positions_arr_at B S b j :
  j < S → data (positions_arr B S) [b; j] = Z.of_nat j.
Proof. intros Hj. simpl. unfold bidx. simpl. by rewrite bsel. Qed.

Lemma positions_all_in_table cfg B S :
  forallb (fun i => in_table (max_len cfg) (data (positions_arr B S) i))
          (indices (shape (positions_arr B S)))
  = positions_in_table cfg B S.
Proof.
  apply eq_true_iff_eq. rewrite forallb_indices. unfold positions_in_table.
  rewrite orb_true_iff, Nat.eqb_eq, Nat.leb_le. simpl shape. split.
  - intros Hal. destruct B as [|B]; [by left|right].
    destruct S as [|S]; [lia|].
    specialize (Hal [0; S]). rewrite positions_arr_at in Hal by lia.
    unfold in_table in Hal.
    assert (Hv : valid_index [Datatypes.S B; Datatypes.S S] [0; S])
      by (apply valid_index2; lia).
    apply Hal in Hv. apply andb_prop in Hv as [_ Hv]. lia.
  - intros Hc i Hi. unfold valid_index in Hi.
    inversion Hi as [|b B' i' sh' Hb Hi']; subst.
    inversion Hi' as [|j S' i'' sh'' Hj Hi'']; subst.
    inversion Hi''; subst.
    rewrite positions_arr_at by done. unfold in_table.
    apply andb_true_intro. split; lia.
Qed.


Lemma bidx3 B S D b j k :
  b < B → j < S → k < D → bidx [B; S; D] [b; j; k] = [b; j; k].
Proof. intros. unfold bidx. simpl. by rewrite !bsel. Qed.

(** The sum the embedding module normalises, element by element. *)
Lemma Embeddings_sum_v_eq cfg m (ids seg : arr Z) B S :
  Embeddings_ok ρ cfg m = true →
  shape ids = [B; S] → shape seg = [B; S] →
  tokens_in_table cfg ids = true →
  positions_in_table cfg B S = true →
  segments_in_table cfg seg = true →
  ∃ w1 w2 b2 wp ws e,
    ρ (emb_weight (tok_embed1 m)) = Ok (TFloat w1) ∧
    ρ (lin_weight (tok_embed2 m)) = Ok (TFloat w2) ∧
    ρ (lin_bias (tok_embed2 m)) = Ok (TFloat b2) ∧
    ρ (emb_weight (pos_embed m)) = Ok (TFloat wp) ∧
    ρ (emb_weight (seg_embed m)) = Ok (TFloat ws) ∧
    Embeddings_sum_v ρ m (TLong ids) (Some (TLong seg)) = Ok (TFloat e) ∧
    shape e = [B; S; hidden cfg] ∧
    ∀ b j k, b < B → j < S → k < hidden cfg →
      data e [b; j; k]
      = fadd (fadd (fadd (fsum (embedding_dim cfg)
                            (fun l => fmul (data w1 [Z.to_nat (data ids [b; j]); l])
                                           (data w2 [k; l])))
                         (data b2 [k]))
                   (data wp [j; k]))
             (data ws [Z.to_nat (data seg [b; j]); k]).
Proof.
  intros Ok1 Hi Hs Ht Hp Hg. unfold Embeddings_ok in Ok1.
  apply andb_prop in Ok1 as [Ok1 On]. apply andb_prop in Ok1 as [Ok1 Os].
  apply andb_prop in Ok1 as [Ok1 Op]. apply andb_prop in Ok1 as [O1 O2].
  destruct (Embedding_v_eq (tok_embed1 m) ids _ _ O1 Ht) as (w1 & Hw1 & _ & E1).
  destruct (Embedding_v_eq (pos_embed m) (positions_arr B S) _ _ Op)
    as (wp & Hwp & _ & Ep); [by rewrite positions_all_in_table|].
  destruct (Embedding_v_eq (seg_embed m) seg _ _ Os Hg) as (ws & Hws & _ & Es).
  rewrite Hi in E1. rewrite Hs in Es.
  destruct (Linear_v_eq ρ (tok_embed2 m)
              (Arr ([B; S] ++ [embedding_dim cfg])
                 (fun i => data w1 [Z.to_nat (data ids (initn i)); lastn i]))
              [B; S] _ _ O2 eq_refl) as (w2 & b2 & Hw2 & Hb2 & E2).
  exists w1, w2, b2, wp, ws. eexists.
  do 5 (split; [done|]).
  unfold Embeddings_sum_v. rewrite (positions_v_eq ids B S Hi). cbn [rbind].
  rewrite E1. cbn [rbind]. rewrite E2. cbn [rbind]. rewrite Ep. cbn [rbind].
  rewrite (t_add_same _ _ [B; S; hidden cfg]) by done. cbn [rbind].
  rewrite Es. cbn [rbind].
  rewrite (t_add_same _ _ [B; S; hidden cfg]) by done.
  split; [reflexivity|]. split; [done|].
  intros b j k Hb Hj Hk. idx_simpl. by rewrite Nat2Z.id.
Qed.

Lemma Embeddings_v_ok cfg m (ids seg : arr Z) B S :
  Embeddings_ok ρ cfg m = true →
  shape ids = [B; S] → shape seg = [B; S] →
  tokens_in_table cfg ids = true →
  positions_in_table cfg B S = true →
  segments_in_table cfg seg = true →
  ∃ y, Embeddings_v ρ m (TLong ids) (Some (TLong seg)) = Ok (TFloat y)
       ∧ shape y = [B; S; hidden cfg].
Proof.
  intros Ok1 Hi Hs Ht Hp Hg.
  destruct (Embeddings_sum_v_eq cfg m ids seg B S Ok1 Hi Hs Ht Hp Hg)
    as (w1 & w2 & b2 & wp & ws & e & _ & _ & _ & _ & _ & E & Se & _).
  unfold Embeddings_v. rewrite E. simpl.
  unfold Embeddings_ok in Ok1. apply andb_prop in Ok1 as [_ On].
  apply (nn_LayerNorm_v_shape ρ (norm m) e [B; S] _ On Se).
Qed.

(** An index outside its table makes the embedding module raise
    [IndexError]. *)
Lemma Embeddings_v_err cfg m (ids seg : arr Z) B S :
  Embeddings_ok ρ cfg m = true →
  shape ids = [B; S] → shape seg = [B; S] →
  tokens_in_table cfg ids && positions_in_table cfg B S
    && segments_in_table cfg seg = false →
  Embeddings_v ρ m (TLong ids) (Some (TLong seg)) = Err IndexError.
Proof.
  intros Ok1 Hi Hs Hc. unfold Embeddings_ok in Ok1.
  apply andb_prop in Ok1 as [Ok1 On]. apply andb_prop in Ok1 as [Ok1 Os].
  apply andb_prop in Ok1 as [Ok1 Op]. apply andb_prop in Ok1 as [O1 O2].
  unfold Embeddings_v, Embeddings_sum_v.
  rewrite (positions_v_eq ids B S Hi). cbn [rbind].
  destruct (tokens_in_table cfg ids) eqn:Ht;
    [|by rewrite (Embedding_v_err (tok_embed1 m) ids _ _ O1 Ht)].
  destruct (Embedding_v_eq (tok_embed1 m) ids _ _ O1 Ht) as (w1 & Hw1 & _ & E1).
  rewrite E1. cbn [rbind]. rewrite Hi.
  destruct (Linear_v_eq ρ (tok_embed2 m)
              (Arr ([B; S] ++ [embedding_dim cfg])
                 (fun i => data w1 [Z.to_nat (data ids (initn i)); lastn i]))
              [B; S] _ _ O2 eq_refl) as (w2 & b2 & Hw2 & Hb2 & E2).
  rewrite E2. cbn [rbind].
  destruct (positions_in_table cfg B S) eqn:Hp.
  2:{ rewrite (Embedding_v_err (pos_embed m) (positions_arr B S) _ _ Op); [done|].
      by rewrite positions_all_in_table. }
  destruct (Embedding_v_eq (pos_embed m) (positions_arr B S) _ _ Op)
    as (wp & Hwp & _ & Ep); [by rewrite positions_all_in_table|].
  rewrite Ep. cbn [rbind].
  rewrite (t_add_same _ _ [B; S; hidden cfg]) by done. cbn [rbind].
  simpl in Hc. by rewrite (Embedding_v_err (seg_embed m) seg _ _ Os Hc).
Qed.

End PureEmbeddings.

(** Dimensions given as literals are normalised by computation. *)
Ltac wrap_dims :=
  repeat match goal with
    | |- context [wrap_dim ?n ?d] =>
        let r := eval vm_compute in (wrap_dim n d) in
        change (wrap_dim n d) with r
    end.

Section PureAttention.
Context {F : Type} {SF : Scalar F}.
#[local] Abbreviation tensor := (tensor (F:=F)).

Lemma split_heads_v_2 heads N D (f : list nat → F) :
  heads ≠ 0 → D mod heads = 0 →
  split_heads_v heads (TFloat (Arr [N; D] f))
  = Ok (TFloat (transpose_nat 1 0 (split_arr heads (D / heads) (Arr [N; D] f)))).
Proof.
  intros Hh Hm. unfold split_heads_v, apply_views, chk_split_last.
  cbn [tshape shape]. unfold lastn. cbn [length Nat.sub nth].
  apply Nat.eqb_neq in Hh. rewrite Hh, Hm. reflexivity.
Qed.

Lemma split_heads_v_3 heads B N D (f : list nat → F) :
  heads ≠ 0 → D mod heads = 0 →
  split_heads_v heads (TFloat (Arr [B; N; D] f))
  = Ok (TFloat (transpose_nat 2 1 (split_arr heads (D / heads) (Arr [B; N; D] f)))).
Proof.
  intros Hh Hm. unfold split_heads_v, apply_views, chk_split_last.
  cbn [tshape shape]. unfold lastn. cbn [length Nat.sub nth].
  apply Nat.eqb_neq in Hh. rewrite Hh, Hm. reflexivity.
Qed.

Lemma split_heads_v_err heads (a : arr F) :
  shape a ≠ [] → ¬ (heads ≠ 0 ∧ lastn (shape a) mod heads = 0) →
  split_heads_v heads (TFloat a) = Err RuntimeError.
Proof.
  intros Hs Hn. unfold split_heads_v, apply_views, chk_split_last. simpl.
  destruct (shape a) as [|d sh]; [done|].
  destruct (heads =? 0) eqn:E0; [done|]. apply Nat.eqb_neq in E0.
  destruct (lastn (d :: sh) mod heads =? 0) eqn:E1; [|done].
  apply Nat.eqb_eq in E1. tauto.
Qed.


Lemma broadcast_shapes_1_2 B H : broadcast_shapes [H] [B; H] = Ok [B; H].
Proof. apply (broadcast_shapes_suffix_r [B] [H]). Qed.

Lemma scaled_scores_v_shape_cross (q k : arr F) B H N S W :
  shape q = [H; N; W] → shape k = [B; H; S; W] →
  ∃ sc, scaled_scores_v (TFloat q) (TFloat k) = Ok (TFloat sc)
        ∧ shape sc = [B; H; N; S]
        ∧ t_size (-1) (TFloat k) = Ok W.
Proof.
  destruct q as [shq fq], k as [shk fk]. simpl. intros -> ->.
  unfold scaled_scores_v, apply_views, chk_transpose, t_size.
  cbn [tshape shape length]. wrap_dims. cbn.
  unfold t_matmul, matmul, mm. cbn. rewrite Nat.eqb_refl.
  rewrite broadcast_shapes_1_2. cbn.
  eexists. split; [reflexivity|]. split; reflexivity.
Qed.

Lemma scaled_scores_v_shape_self (q k : arr F) B H N S W :
  shape q = [B; H; N; W] → shape k = [B; H; S; W] →
  ∃ sc, scaled_scores_v (TFloat q) (TFloat k) = Ok (TFloat sc)
        ∧ shape sc = [B; H; N; S]
        ∧ t_size (-1) (TFloat k) = Ok W.
Proof.
  destruct q as [shq fq], k as [shk fk]. simpl. intros -> ->.
  unfold scaled_scores_v, apply_views, chk_transpose, t_size.
  cbn [tshape shape length]. wrap_dims. cbn.
  unfold t_matmul, matmul, mm. cbn. rewrite Nat.eqb_refl.
  rewrite broadcast_shapes_refl. cbn.
  eexists. split; [reflexivity|]. split; reflexivity.
Qed.

Lemma broadcast_shapes_mask B H N S :
  broadcast_shapes [B; H; N; S] [B; 1; 1; S] = Ok [B; H; N; S].
Proof.
  unfold broadcast_shapes. cbn.
  by rewrite !bc_dim_refl, !bc_dim_1_r.
Qed.

(** The scores the softmax receives when a mask is given. *)
Lemma masked_scores_v_eq (sc : arr F) (tm : tensor) B H N S :
  shape sc = [B; H; N; S] → tshape tm = [B; S] →
  ∃ pre, masked_scores_v (TFloat sc) (Some tm) = Ok (TFloat pre)
         ∧ shape pre = [B; H; N; S]
         ∧ ∀ b h i j, b < B → h < H → i < N → j < S →
             data pre [b; h; i; j]
             = fsub (data sc [b; h; i; j])
                    (fmul (fconst 10000)
                          (fsub (fconst 1) (data (promote tm) [b; j]))).
Proof.
  destruct sc as [shs fs]. simpl. intros -> Hm.
  unfold masked_scores_v, apply_views, chk_index_s_n_n_s. rewrite Hm. cbn.
  unfold t_isub, t_sub, t_zip, zip_bc.
  destruct tm as [[shm fm]|[shm fm]]; simpl in Hm; subst shm; cbn;
    rewrite broadcast_shapes_mask; cbn; rewrite decide_True by done;
    (eexists; split; [reflexivity|]; split; [done|]);
    intros b h i j Hb Hh Hi Hj; idx_simpl; reflexivity.
Qed.

Lemma attend_tail_shape (pre v : arr F) B H N S W :
  shape pre = [B; H; N; S] → shape v = [B; H; S; W] →
  ∃ h, (scores <~ t_softmax (TFloat pre) ;;
        sv <~ t_matmul scores (TFloat v) ;;
        h <~ apply_views (chk_transpose 1 2) sv ;;
        h <~ apply_views chk_merge_last h ;;
        Ok (h, scores))
       = Ok (TFloat h, TFloat (softmax pre))
       ∧ shape h = [B; N; H * W].
Proof.
  destruct pre as [shp fp], v as [shv fv]. simpl. intros -> ->.
  unfold t_softmax. cbn [rbind].
  unfold t_matmul, matmul, mm. cbn. rewrite Nat.eqb_refl.
  rewrite broadcast_shapes_refl. cbn [rbind rmap].
  unfold apply_views, chk_transpose, chk_merge_last.
  cbn [tshape shape length app]. wrap_dims. cbn.
  eexists. split; [reflexivity|]. reflexivity.
Qed.


Lemma masked_scores_v_shape (sc : arr F) mask B Hd N S :
  shape sc = [B; Hd; N; S] → mask_ok mask B S →
  ∃ pre, masked_scores_v (TFloat sc) mask = Ok (TFloat pre)
         ∧ shape pre = [B; Hd; N; S].
Proof.
  intros Hs Hm. destruct mask as [tm|]; simpl in Hm.
  - destruct (masked_scores_v_eq sc tm B Hd N S Hs Hm) as (pre & E & Sp & _).
    by exists pre.
  - by exists sc.
Qed.

(** Cross-attention: the query has no batch axis. *)
Lemma attend_v_cross heads (q k v : arr F) mask B S N D :
  shape q = [N; D] → shape k = [B; S; D] → shape v = [B; S; D] →
  heads ≠ 0 → D mod heads = 0 → mask_ok mask B S →
  ∃ q' k' scaled pre h,
    split_heads_v heads (TFloat q) = Ok (TFloat q') ∧
    split_heads_v heads (TFloat k) = Ok (TFloat k') ∧
    shape q' = [heads; N; D / heads] ∧
    shape k' = [B; heads; S; D / heads] ∧
    scaled_scores_v (TFloat q') (TFloat k') = Ok (TFloat scaled) ∧
    shape scaled = [B; heads; N; S] ∧
    masked_scores_v (TFloat scaled) mask = Ok (TFloat pre) ∧
    shape pre = [B; heads; N; S] ∧
    attend_v heads (TFloat q) (TFloat k) (TFloat v) mask
    = Ok (TFloat h, TFloat (softmax pre)) ∧
    shape h = [B; N; D].
Proof.
  destruct q as [sq fq], k as [sk fk], v as [sv fv]. simpl.
  intros -> -> -> Hh Hm Hmask. unfold attend_v.
  rewrite (split_heads_v_2 heads N D fq Hh Hm).
  rewrite !(split_heads_v_3 heads B S D _ Hh Hm). cbn [rbind].
  destruct (scaled_scores_v_shape_cross
              (transpose_nat 1 0 (split_arr heads (D / heads) (Arr [N; D] fq)))
              (transpose_nat 2 1 (split_arr heads (D / heads) (Arr [B; S; D] fk)))
              B heads N S (D / heads) eq_refl eq_refl) as (sc & Esc & Ssc & _).
  destruct (masked_scores_v_shape sc mask B heads N S Ssc Hmask)
    as (pre & Epre & Spre).
  destruct (attend_tail_shape pre
              (transpose_nat 2 1 (split_arr heads (D / heads) (Arr [B; S; D] fv)))
              B heads N S (D / heads) Spre eq_refl) as (h & Eh & Sh).
  eexists _, _, sc, pre, h. rewrite Esc. cbn [rbind]. rewrite Epre. cbn [rbind].
  rewrite Eh. repeat (split; [reflexivity || assumption|]).
  rewrite Sh. by rewrite <- (proj2 (Nat.Div0.div_exact D heads) Hm).
Qed.

(** Self-attention: query, key and value have the same shape. *)
Lemma attend_v_self heads (q k v : arr F) mask B N D :
  shape q = [B; N; D] → shape k = [B; N; D] → shape v = [B; N; D] →
  heads ≠ 0 → D mod heads = 0 → mask_ok mask B N →
  ∃ h sc,
    attend_v heads (TFloat q) (TFloat k) (TFloat v) mask
    = Ok (TFloat h, TFloat sc) ∧
    shape h = [B; N; D] ∧ shape sc = [B; heads; N; N].
Proof.
  destruct q as [sq fq], k as [sk fk], v as [sv fv]. simpl.
  intros -> -> -> Hh Hm Hmask. unfold attend_v.
  rewrite !(split_heads_v_3 heads B N D _ Hh Hm). cbn [rbind].
  destruct (scaled_scores_v_shape_self
              (transpose_nat 2 1 (split_arr heads (D / heads) (Arr [B; N; D] fq)))
              (transpose_nat 2 1 (split_arr heads (D / heads) (Arr [B; N; D] fk)))
              B heads N N (D / heads) eq_refl eq_refl) as (sc & Esc & Ssc & _).
  destruct (masked_scores_v_shape sc mask B heads N N Ssc Hmask)
    as (pre & Epre & Spre).
  destruct (attend_tail_shape pre
              (transpose_nat 2 1 (split_arr heads (D / heads) (Arr [B; N; D] fv)))
              B heads N N (D / heads) Spre eq_refl) as (h & Eh & Sh).
  exists h, (softmax pre). rewrite Esc. cbn [rbind]. rewrite Epre. cbn [rbind].
  rewrite Eh. split; [done|]. split.
  - rewrite Sh. by rewrite <- (proj2 (Nat.Div0.div_exact D heads) Hm).
  - unfold softmax. by rewrite Spre.
Qed.

(** A head count that does not divide the width makes the split raise. *)
Lemma attend_v_err heads (q : arr F) (k v : tensor) mask :
  shape q ≠ [] → ¬ (heads ≠ 0 ∧ lastn (shape q) mod heads = 0) →
  attend_v heads (TFloat q) k v mask = Err RuntimeError.
Proof.
  intros Hs Hn. unfold attend_v. by rewrite split_heads_v_err.
Qed.

End PureAttention.

Section PureTransformer.
Context {F : Type} {SF : Scalar F}.
#[local] Abbreviation tensor := (tensor (F:=F)).
Variable ρ : handle → result tensor.

Lemma QKVAttention_cross_v_eq cfg m (x l : arr F) mask B S N :
  QKVAttention_cross_ok ρ cfg m = true →
  shape x = [B; S; cfg_C cfg] → shape l = [N; cfg_D cfg] →
  heads_divide (n_heads m) (cfg_D cfg) → mask_ok mask B S →
  ∃ q k q' k' scaled pre h,
    Linear_v ρ (proj_q m) (TFloat l) = Ok (TFloat q) ∧
    Linear_v ρ (proj_k m) (TFloat x) = Ok (TFloat k) ∧
    split_heads_v (n_heads m) (TFloat q) = Ok (TFloat q') ∧
    split_heads_v (n_heads m) (TFloat k) = Ok (TFloat k') ∧
    shape q' = [n_heads m; N; cfg_D cfg / n_heads m] ∧
    shape k' = [B; n_heads m; S; cfg_D cfg / n_heads m] ∧
    scaled_scores_v (TFloat q') (TFloat k') = Ok (TFloat scaled) ∧
    shape scaled = [B; n_heads m; N; S] ∧
    masked_scores_v (TFloat scaled) mask = Ok (TFloat pre) ∧
    shape pre = [B; n_heads m; N; S] ∧
    QKVAttention_cross_v ρ m (TFloat x) (TFloat l) mask
    = Ok (TFloat h, TFloat (softmax pre)) ∧
    shape h = [B; N; cfg_D cfg].
Proof.
  intros Ok1 Hx Hl [Hh Hm] Hmask. unfold QKVAttention_cross_ok in Ok1.
  apply andb_prop in Ok1 as [Ok1 Ov]. apply andb_prop in Ok1 as [Oq Ok1].
  destruct (Linear_v_shape ρ (proj_q m) l [N] _ _ Oq Hl) as (q & Eq & Sq).
  destruct (Linear_v_shape ρ (proj_k m) x [B; S] _ _ Ok1 Hx) as (k & Ek & Sk).
  destruct (Linear_v_shape ρ (proj_v m) x [B; S] _ _ Ov Hx) as (v & Ev & Sv).
  destruct (attend_v_cross (n_heads m) q k v mask B S N (cfg_D cfg)
              Sq Sk Sv Hh Hm Hmask)
    as (q' & k' & scaled & pre & h & E1 & E2 & S1 & S2 & E3 & S3 & E4 & S4 & E5 & S5).
  exists q, k, q', k', scaled, pre, h.
  unfold QKVAttention_cross_v. rewrite Eq, Ek, Ev. cbn [rbind].
  repeat (split; [reflexivity || assumption|]). assumption.
Qed.

Lemma QKVAttention_cross_v_ok cfg m (x l : arr F) mask B S N :
  QKVAttention_cross_ok ρ cfg m = true →
  shape x = [B; S; cfg_C cfg] → shape l = [N; cfg_D cfg] →
  heads_divide (n_heads m) (cfg_D cfg) → mask_ok mask B S →
  ∃ h sc, QKVAttention_cross_v ρ m (TFloat x) (TFloat l) mask
          = Ok (TFloat h, TFloat sc)
          ∧ shape h = [B; N; cfg_D cfg]
          ∧ shape sc = [B; n_heads m; N; S].
Proof.
  intros Ok1 Hx Hl Hd Hmask.
  destruct (QKVAttention_cross_v_eq cfg m x l mask B S N Ok1 Hx Hl Hd Hmask)
    as (q & k & q' & k' & scaled & pre & h & _ & _ & _ & _ & _ & _ & _ & _ & _
        & Sp & E & Sh).
  exists h, (softmax pre). split; [done|]. split; [done|].
  unfold softmax. by rewrite Sp.
Qed.

(** The head count does not divide [D]: the first split raises. *)
Lemma QKVAttention_cross_v_err_heads cfg m (x l : arr F) mask B S N :
  QKVAttention_cross_ok ρ cfg m = true →
  shape x = [B; S; cfg_C cfg] → shape l = [N; cfg_D cfg] →
  ¬ heads_divide (n_heads m) (cfg_D cfg) →
  QKVAttention_cross_v ρ m (TFloat x) (TFloat l) mask = Err RuntimeError.
Proof.
  intros Ok1 Hx Hl Hd. unfold QKVAttention_cross_ok in Ok1.
  apply andb_prop in Ok1 as [Ok1 Ov]. apply andb_prop in Ok1 as [Oq Ok1].
  destruct (Linear_v_shape ρ (proj_q m) l [N] _ _ Oq Hl) as (q & Eq & Sq).
  destruct (Linear_v_shape ρ (proj_k m) x [B; S] _ _ Ok1 Hx) as (k & Ek & Sk).
  destruct (Linear_v_shape ρ (proj_v m) x [B; S] _ _ Ov Hx) as (v & Ev & Sv).
  unfold QKVAttention_cross_v. rewrite Eq, Ek, Ev. cbn [rbind].
  apply attend_v_err; rewrite Sq; [done|]. exact Hd.
Qed.

(** The embedded sequence is not [C] wide: the key projection raises. *)
Lemma QKVAttention_cross_v_err_width cfg m (x : tensor) (l : arr F) mask N :
  QKVAttention_cross_ok ρ cfg m = true →
  shape l = [N; cfg_D cfg] → lastn (tshape x) ≠ cfg_C cfg →
  QKVAttention_cross_v ρ m x (TFloat l) mask = Err RuntimeError.
Proof.
  intros Ok1 Hl Hx. unfold QKVAttention_cross_ok in Ok1.
  apply andb_prop in Ok1 as [Ok1 Ov]. apply andb_prop in Ok1 as [Oq Ok1].
  destruct (Linear_v_shape ρ (proj_q m) l [N] _ _ Oq Hl) as (q & Eq & Sq).
  unfold QKVAttention_cross_v. rewrite Eq. cbn [rbind].
  by rewrite (Linear_v_mismatch ρ (proj_k m) x _ _ Ok1 Hx).
Qed.

Lemma QKVAttention_self_v_ok cfg m (x : arr F) B N :
  QKVAttention_self_ok ρ cfg m = true →
  shape x = [B; N; cfg_D cfg] → heads_divide (n_heads m) (cfg_D cfg) →
  ∃ h sc, QKVAttention_self_v ρ m (TFloat x) None = Ok (TFloat h, TFloat sc)
          ∧ shape h = [B; N; cfg_D cfg]
          ∧ shape sc = [B; n_heads m; N; N].
Proof.
  intros Ok1 Hx [Hh Hm]. unfold QKVAttention_self_ok in Ok1.
  apply andb_prop in Ok1 as [Ok1 Ov]. apply andb_prop in Ok1 as [Oq Ok1].
  destruct (Linear_v_shape ρ (proj_q m) x [B; N] _ _ Oq Hx) as (q & Eq & Sq).
  destruct (Linear_v_shape ρ (proj_k m) x [B; N] _ _ Ok1 Hx) as (k & Ek & Sk).
  destruct (Linear_v_shape ρ (proj_v m) x [B; N] _ _ Ov Hx) as (v & Ev & Sv).
  unfold QKVAttention_self_v. rewrite Eq, Ek, Ev. cbn [rbind].
  by apply attend_v_self.
Qed.

Lemma QKVAttention_self_v_err_heads cfg m (x : arr F) B N :
  QKVAttention_self_ok ρ cfg m = true →
  shape x = [B; N; cfg_D cfg] → ¬ heads_divide (n_heads m) (cfg_D cfg) →
  QKVAttention_self_v ρ m (TFloat x) None = Err RuntimeError.
Proof.
  intros Ok1 Hx Hd. unfold QKVAttention_self_ok in Ok1.
  apply andb_prop in Ok1 as [Ok1 Ov]. apply andb_prop in Ok1 as [Oq Ok1].
  destruct (Linear_v_shape ρ (proj_q m) x [B; N] _ _ Oq Hx) as (q & Eq & Sq).
  destruct (Linear_v_shape ρ (proj_k m) x [B; N] _ _ Ok1 Hx) as (k & Ek & Sk).
  destruct (Linear_v_shape ρ (proj_v m) x [B; N] _ _ Ov Hx) as (v & Ev & Sv).
  unfold QKVAttention_self_v. rewrite Eq, Ek, Ev. cbn [rbind].
  apply attend_v_err; rewrite Sq; [done|]. exact Hd.
Qed.

(** One round keeps the shape of the latent array. *)
Lemma process_round_v_shape cfg self (x : arr F) B N :
  Transformer_ok ρ cfg self = true →
  heads_divide (latent_heads cfg) (cfg_D cfg) →
  shape x = [B; N; cfg_D cfg] →
  ∃ y, process_round_v ρ self (TFloat x) = Ok (TFloat y)
       ∧ shape y = [B; N; cfg_D cfg].
Proof.
  intros Ok1 Hd Hx.
  destruct (Transformer_ok_inv ρ _ _ Ok1)
    as (_ & (Hsa & Hn & Hsf) & _ & _ & Hn3 & Hn4).
  rewrite <- Hn in Hd. unfold process_round_v.
  destruct (QKVAttention_self_v_ok cfg _ x B N Hsa Hx Hd)
    as (h & sc & -> & Sh & _). cbn [rbind fst].
  destruct (residual_v_shape ρ (norm3 self) h x [] [B; N] _ Hn3 Sh Hx)
    as (y & -> & Sy). cbn [rbind].
  destruct (FeedForward_v_shape ρ cfg _ y [B; N] Hsf Sy) as (f & -> & Sf).
  cbn [rbind].
  apply (residual_v_shape ρ (norm4 self) f y [] [B; N] _ Hn4 Sf Sy).
Qed.

Lemma iterate_shape cfg self n (x : arr F) B N :
  Transformer_ok ρ cfg self = true →
  heads_divide (latent_heads cfg) (cfg_D cfg) →
  shape x = [B; N; cfg_D cfg] →
  ∃ y, iterate n (process_round_v ρ self) (TFloat x) = Ok (TFloat y)
       ∧ shape y = [B; N; cfg_D cfg].
Proof.
  intros Ok1 Hd. revert x. induction n as [|n IH]; intros x Hx; simpl.
  - by exists x.
  - destruct (process_round_v_shape cfg self x B N Ok1 Hd Hx) as (y & -> & Sy).
    simpl. by apply IH.
Qed.

(** Steps 1 to 3 on valid input: a latent array per batch element. *)
Lemma encode_v_shape cfg self (ids seg : arr Z) mask B S :
  Transformer_ok ρ cfg self = true → Config_ok cfg →
  shape ids = [B; S] → shape seg = [B; S] →
  tokens_in_table cfg ids = true →
  positions_in_table cfg B S = true →
  segments_in_table cfg seg = true →
  mask_ok mask B S →
  ∃ y, encode_v ρ self (TLong ids) (Some (TLong seg)) mask = Ok (TFloat y)
       ∧ shape y = [B; cfg_N cfg; cfg_D cfg].
Proof.
  intros Ok1 (Hc & Hd & _) Hi Hs Ht Hp Hg Hm.
  destruct (Transformer_ok_inv ρ _ _ Ok1)
    as ((He & Hl & Hca & Hn & Hcf) & _ & Hn1 & Hn2 & _ & _).
  destruct (has_shape_inv ρ _ _ Hl) as (l & Hlat & Sl).
  rewrite <- Hn in Hd. unfold encode_v.
  destruct (Embeddings_v_ok ρ cfg _ ids seg B S He Hi Hs Ht Hp Hg)
    as (h & -> & Sh). cbn [rbind]. rewrite Hlat. cbn [rbind].
  rewrite Hc in Sh.
  destruct (QKVAttention_cross_v_ok cfg _ h l mask B S _ Hca Sh Sl Hd Hm)
    as (a & sc & -> & Sa & _). cbn [rbind fst].
  destruct (residual_v_shape ρ (norm1 self) a l [B] [cfg_N cfg] _ Hn1 Sa Sl)
    as (y & -> & Sy). cbn [rbind].
  destruct (FeedForward_v_shape ρ cfg _ y [B; cfg_N cfg] Hcf Sy) as (f & -> & Sf).
  cbn [rbind].
  apply (residual_v_shape ρ (norm2 self) f y [] [B; cfg_N cfg] _ Hn2 Sf Sy).
Qed.

(** With the global name bound, the value of the forward pass on valid
    input has shape [[B; N; D]]. *)
Lemma Transformer_forward_v_shape cfg g self (ids seg : arr Z) mask B S :
  Transformer_ok ρ cfg self = true → Config_ok cfg →
  shape ids = [B; S] → shape seg = [B; S] →
  tokens_in_table cfg ids = true →
  positions_in_table cfg B S = true →
  segments_in_table cfg seg = true →
  mask_ok mask B S →
  ∃ y, Transformer_forward_v ρ (Some g) self (TLong ids) (Some (TLong seg)) mask
       = Ok (TFloat y)
       ∧ shape y = [B; cfg_N cfg; cfg_D cfg].
Proof.
  intros Ok1 Hc Hi Hs Ht Hp Hg Hm.
  destruct (encode_v_shape cfg self ids seg mask B S Ok1 Hc Hi Hs Ht Hp Hg Hm)
    as (x & E & Sx).
  unfold Transformer_forward_v. rewrite E. cbn [rbind global_cfg_v].
  destruct Hc as (_ & _ & Hd). by eapply iterate_shape.
Qed.

(** Without the binding, it is [NameError] as soon as the loop is reached. *)
Lemma Transformer_forward_v_unbound cfg self (ids seg : arr Z) mask B S :
  Transformer_ok ρ cfg self = true → Config_ok cfg →
  shape ids = [B; S] → shape seg = [B; S] →
  tokens_in_table cfg ids = true →
  positions_in_table cfg B S = true →
  segments_in_table cfg seg = true →
  mask_ok mask B S →
  Transformer_forward_v ρ None self (TLong ids) (Some (TLong seg)) mask
  = Err NameError.
Proof.
  intros Ok1 Hc Hi Hs Ht Hp Hg Hm.
  destruct (encode_v_shape cfg self ids seg mask B S Ok1 Hc Hi Hs Ht Hp Hg Hm)
    as (x & E & Sx).
  unfold Transformer_forward_v. by rewrite E.
Qed.

(** On no input is there a value without the binding. *)
Lemma Transformer_forward_v_unbound_err self ids seg mask :
  ∃ e, Transformer_forward_v ρ None self ids seg mask = Err e.
Proof.
  unfold Transformer_forward_v.
  destruct (encode_v ρ self ids seg mask) as [x|e]; simpl; by eexists.
Qed.

(** [hidden ≠ C]: the cross-attention block raises on every input the
    embedding module accepts. *)
Lemma encode_v_err_width cfg self ids seg mask :
  Transformer_ok ρ cfg self = true → hidden cfg ≠ cfg_C cfg →
  ∃ e, encode_v ρ self ids seg mask = Err e.
Proof.
  intros Ok1 Hne.
  destruct (Transformer_ok_inv ρ _ _ Ok1)
    as ((He & Hl & Hca & Hn & Hcf) & _ & Hn1 & Hn2 & _ & _).
  destruct (has_shape_inv ρ _ _ Hl) as (l & Hlat & Sl).
  unfold encode_v, Embeddings_v.
  destruct (Embeddings_sum_v ρ (embed self) ids seg) as [e|e]; cbn [rbind];
    [|by eexists].
  unfold Embeddings_ok in He. apply andb_prop in He as [_ On].
  destruct (nn_LayerNorm_v ρ (norm (embed self)) e) as [h|e'] eqn:E;
    cbn [rbind]; [|by eexists].
  destruct (nn_LayerNorm_v_inv ρ _ _ _ _ On E) as (a & -> & Sa & La).
  rewrite Hlat. cbn [rbind].
  rewrite (QKVAttention_cross_v_err_width cfg _ (TFloat a) l mask _ Hca Sl);
    [by eexists|].
  simpl. by rewrite La.
Qed.

Lemma Transformer_forward_v_err_width cfg g self ids seg mask :
  Transformer_ok ρ cfg self = true → hidden cfg ≠ cfg_C cfg →
  ∃ e, Transformer_forward_v ρ g self ids seg mask = Err e.
Proof.
  intros Ok1 Hne.
  destruct (encode_v_err_width cfg self ids seg mask Ok1 Hne) as (e & E).
  unfold Transformer_forward_v. rewrite E. by eexists.
Qed.

End PureTransformer.

(** ** What a call writes *)

Section Frames.
Context {F : Type} {SF : Scalar F}.
#[local] Abbreviation tensor := (tensor (F:=F)).
#[local] Abbreviation state := (state (F:=F)).
#[local] Abbreviation M := (M (F:=F)).
Implicit Types (s : state) (t : tensor) (h x y : handle).

Lemma frames_ret {A} n (a : A) : frames n (ret (F:=F) a).
Proof. by intros s Hn. Qed.

Lemma frames_raise {A} n e : frames n (raise (F:=F) (A:=A) e).
Proof. by intros s Hn. Qed.

Lemma frames_lift {A} n (r : result A) : frames n (lift (F:=F) r).
Proof. by intros s Hn. Qed.

Lemma frames_get n h : frames n (get (F:=F) h).
Proof. by intros s Hn. Qed.

Lemma frames_global_cfg n : frames n (global_cfg (F:=F)).
Proof.
  intros s Hn. unfold global_cfg. by destruct (models_cfg s) eqn:E.
Qed.

Lemma frames_set_cross_scores n h : frames n (set_cross_scores (F:=F) h).
Proof. by intros s Hn. Qed.

Lemma frames_set_self_scores n h : frames n (set_self_scores (F:=F) h).
Proof. by intros s Hn. Qed.

Lemma frames_new n t : frames n (new t).
Proof.
  intros s Hn. simpl. rewrite length_app. simpl.
  split; [lia|]. split; [|done]. by rewrite take_app_le.
Qed.

Lemma frames_put n h t : n ≤ cell h → frames n (put h t).
Proof.
  intros Hc s Hn. unfold put.
  destruct (heap s !! cell h) as [b|]; [|done].
  destruct (write_back (views h) b t) as [b'|]; [|done]. simpl.
  rewrite length_insert. split; [done|]. split; [|done].
  by rewrite take_insert_ge.
Qed.

Lemma frames_bind {A B} n (m : M A) (f : A → M B) :
  frames n m → (∀ a, frames n (f a)) → frames n (bind m f).
Proof.
  intros Hm Hf s Hn. destruct (Hm s Hn) as (L1 & T1 & G1).
  unfold bind. destruct (m s) as [[a|e] s1]; simpl in *; [|done].
  destruct (Hf a s1) as (L2 & T2 & G2); [lia|].
  split; [lia|]. split; congruence.
Qed.

Lemma frames_bind_fresh {B} n (m : M handle) (f : handle → M B) :
  frames n m → fresh n m → (∀ h, n ≤ cell h → frames n (f h)) →
  frames n (bind m f).
Proof.
  intros Hm Hfr Hf s Hn. destruct (Hm s Hn) as (L1 & T1 & G1).
  specialize (Hfr s). unfold bind.
  destruct (m s) as [[a|e] s1]; simpl in *; [|done].
  destruct (Hf a (Hfr a Hn eq_refl) s1) as (L2 & T2 & G2); [lia|].
  split; [lia|]. split; congruence.
Qed.

Lemma frames_ext {A} n (m m' : M A) :
  (∀ s, m s = m' s) → frames n m' → frames n m.
Proof. intros E Hm s Hn. rewrite E. by apply Hm. Qed.

Lemma fresh_tensor_map n f x : fresh n (tensor_map (F:=F) f x).
Proof.
  intros s h Hn. unfold tensor_map, op1, bind, get, lift, new.
  destruct (deref s x); simpl; [|done]. by intros [= <-].
Qed.

End Frames.

(** A computation built from the primitives writes no cell below [n]
    provided its in-place writes go to cells at or above [n]. *)
Ltac frames_tac :=
  repeat first
    [ apply frames_ret | apply frames_raise | apply frames_lift
    | apply frames_get | apply frames_new | apply frames_global_cfg
    | apply frames_set_cross_scores | apply frames_set_self_scores
    | apply frames_put; assumption
    | apply frames_bind; [|intros ?]
    | match goal with
      | |- frames _ (match ?o with _ => _ end) => destruct o
      | |- frames _ (if ?b then _ else _) => destruct b
      end ].

Section FramesModules.
Context {F : Type} {SF : Scalar F}.
#[local] Abbreviation tensor := (tensor (F:=F)).
#[local] Abbreviation state := (state (F:=F)).
#[local] Abbreviation M := (M (F:=F)).
Implicit Types (s : state) (t : tensor) (h x y : handle).

Lemma frames_op1 n f x : frames n (op1 (F:=F) f x).
Proof. unfold op1. frames_tac. Qed.

Lemma frames_op2 n f x y : frames n (op2 (F:=F) f x y).
Proof. unfold op2. frames_tac. Qed.

Lemma frames_mk_view n c x : frames n (mk_view (F:=F) c x).
Proof. unfold mk_view. frames_tac. Qed.

Lemma frames_Linear n m x : frames n (nn_Linear_forward (F:=F) m x).
Proof. unfold nn_Linear_forward. frames_tac. Qed.

Lemma frames_LayerNorm n m x : frames n (nn_LayerNorm_forward (F:=F) m x).
Proof. unfold nn_LayerNorm_forward. frames_tac. Qed.

Lemma frames_Embedding n m o : frames n (nn_Embedding_forward (F:=F) m o).
Proof. unfold nn_Embedding_forward. destruct o; [apply frames_op2|apply frames_raise]. Qed.

Lemma frames_gelu n x : frames n (gelu (F:=F) x).
Proof.
  unfold gelu, torch_erf, tensor_map, tensor_mul.
  repeat first [apply frames_op1 | apply frames_op2 | apply frames_bind; [|intros ?]].
Qed.

Lemma frames_FeedForward n m x : frames n (FeedForward_forward (F:=F) m x).
Proof.
  unfold FeedForward_forward.
  repeat first [apply frames_Linear | apply frames_gelu | apply frames_bind; [|intros ?]].
Qed.

Lemma frames_Embeddings n m x o : frames n (Embeddings_forward (F:=F) m x o).
Proof.
  unfold Embeddings_forward, tensor_size, torch_arange, tensor_unsqueeze0,
    tensor_expand_as, tensor_add.
  repeat first [apply frames_Linear | apply frames_LayerNorm | apply frames_Embedding
               | apply frames_op2 | apply frames_mk_view | apply frames_bind; [|intros ?]
               | apply frames_get | apply frames_lift | apply frames_new].
Qed.

Lemma frames_scale_and_mask {A} n w qk mask (K : handle → M A) :
  (∀ sc, frames n (K sc)) → frames n (scale_and_mask w qk mask K).
Proof.
  intros HK. unfold scale_and_mask.
  apply frames_bind_fresh.
  - unfold tensor_map. apply frames_op1.
  - apply fresh_tensor_map.
  - intros sc Hsc. apply frames_bind; [|intros ?; apply HK].
    destruct mask as [m|]; [|apply frames_ret].
    unfold tensor_index_s_n_n_s, tensor_float, tensor_map, tensor_isub.
    repeat first [apply frames_op1 | apply frames_mk_view
                 | apply frames_bind; [|intros ?] | apply frames_get
                 | apply frames_lift | apply frames_new | apply frames_ret
                 | apply frames_put; assumption
                 | match goal with
                   | |- frames _ (match ?o with _ => _ end) => destruct o
                   end ].
Qed.

Lemma frames_attend_with {A} n heads q k v mask (K : handle → handle → M A) :
  (∀ h sc, frames n (K h sc)) → frames n (attend_with heads q k v mask K).
Proof.
  intros HK. unfold attend_with, split_last, merge_last, tensor_transpose,
    torch_matmul, tensor_size, F_softmax, tensor_contiguous.
  repeat first [apply frames_scale_and_mask; intros ?
               | apply HK
               | apply frames_op1 | apply frames_op2 | apply frames_mk_view
               | apply frames_bind; [|intros ?] | apply frames_get
               | apply frames_lift | apply frames_new | apply frames_ret
               | match goal with
                 | |- frames _ (if ?b then _ else _) => destruct b
                 end ].
Qed.

Lemma frames_cross n m x l mask :
  frames n (QKVAttention_cross_forward (F:=F) m x l mask).
Proof.
  rewrite QKVAttention_cross_forward_eq.
  repeat (apply frames_bind; [apply frames_Linear|intros ?]).
  apply frames_attend_with. intros h sc. frames_tac.
Qed.

Lemma frames_self n m x mask :
  frames n (QKVAttention_self_forward (F:=F) m x mask).
Proof.
  rewrite QKVAttention_self_forward_eq.
  repeat (apply frames_bind; [apply frames_Linear|intros ?]).
  apply frames_attend_with. intros h sc. frames_tac.
Qed.

Lemma frames_process_round n self x : frames n (process_round (F:=F) self x).
Proof.
  unfold process_round, tensor_add. destruct (layers self) as [sa sf].
  repeat first [apply frames_self | apply frames_FeedForward
               | apply frames_LayerNorm | apply frames_op2
               | apply frames_bind; [|intros ?]].
Qed.

Lemma frames_for_in {A} n (l : list A) (body : A → handle → M handle) x :
  (∀ a y, frames n (body a y)) → frames n (for_in l body x).
Proof.
  intros Hb. revert x. induction l as [|a l IH]; intros x; simpl.
  - apply frames_ret.
  - apply frames_bind; [apply Hb|]. intros y. apply IH.
Qed.

Lemma frames_encode n self ids seg mask :
  frames n (encode (F:=F) self ids seg mask).
Proof.
  unfold encode, tensor_add, tensor_clone, tensor_detach.
  destruct (cross_attend_blocks self) as [ca cf].
  repeat first [apply frames_cross | apply frames_FeedForward
               | apply frames_Embeddings
               | apply frames_LayerNorm | apply frames_op2
               | apply frames_bind; [|intros ?]
               | apply frames_get | apply frames_new | apply frames_ret].
Qed.

Lemma frames_forward n self ids seg mask :
  frames n (Transformer_forward (F:=F) self ids seg mask).
Proof.
  eapply frames_ext; [apply Transformer_forward_eq|].
  apply frames_bind; [apply frames_encode|]. intros x.
  apply frames_bind; [apply frames_global_cfg|]. intros g.
  apply frames_bind; [|intros ?; apply frames_ret].
  apply frames_for_in. intros _ y. apply frames_process_round.
Qed.

End FramesModules.

(** ** What a call reads of the retained scores *)

Section Blind.
Context {F : Type} {SF : Scalar F}.
#[local] Abbreviation tensor := (tensor (F:=F)).
#[local] Abbreviation state := (state (F:=F)).
#[local] Abbreviation M := (M (F:=F)).
Implicit Types (s : state) (t : tensor) (h x y : handle).

Lemma blind_ret {A} (a : A) : blind (ret (F:=F) a).
Proof. by intros s t E. Qed.

Lemma blind_raise {A} e : blind (raise (F:=F) (A:=A) e).
Proof. by intros s t E. Qed.

Lemma blind_lift {A} (r : result A) : blind (lift (F:=F) r).
Proof. by intros s t E. Qed.

Lemma blind_get h : blind (get (F:=F) h).
Proof. intros s t [E1 E2]. unfold get, deref. simpl. by rewrite E1. Qed.

Lemma blind_global_cfg : blind (global_cfg (F:=F)).
Proof.
  intros s t [E1 E2]. unfold global_cfg. rewrite E2.
  destruct (models_cfg t) eqn:E; simpl; (split; [done|]); split; congruence.
Qed.

Lemma blind_set_cross_scores h : blind (set_cross_scores (F:=F) h).
Proof. by intros s t E. Qed.

Lemma blind_set_self_scores h : blind (set_self_scores (F:=F) h).
Proof. by intros s t E. Qed.

Lemma blind_new t : blind (new t).
Proof.
  intros s s' [E1 E2]. unfold new. simpl. rewrite E1.
  split; [done|]. by split.
Qed.

Lemma blind_put h t : blind (put h t).
Proof.
  intros s s' [E1 E2]. unfold put. rewrite E1.
  destruct (heap s' !! cell h) as [b|]; [|done].
  destruct (write_back (views h) b t) as [b'|]; [|done]. simpl.
  split; [done|]. by split.
Qed.

Lemma blind_bind {A B} (m : M A) (f : A → M B) :
  blind m → (∀ a, blind (f a)) → blind (bind m f).
Proof.
  intros Hm Hf s t E. destruct (Hm s t E) as [R1 E1]. unfold bind.
  destruct (m s) as [[a|e] s1], (m t) as [[a'|e'] t1]; simpl in *;
    try discriminate.
  - injection R1 as <-. by apply Hf.
  - injection R1 as <-. by split.
Qed.

Lemma blind_ext {A} (m m' : M A) :
  (∀ s, m s = m' s) → blind m' → blind m.
Proof. intros E Hm s t Hst. rewrite !E. by apply Hm. Qed.

Lemma blind_for_in {A} (l : list A) (body : A → handle → M handle) x :
  (∀ a y, blind (body a y)) → blind (for_in l body x).
Proof.
  intros Hb. revert x. induction l as [|a l IH]; intros x; simpl.
  - apply blind_ret.
  - apply blind_bind; [apply Hb|]. intros y. apply IH.
Qed.

End Blind.

(** A computation built from the primitives does not read the retained
    scores. *)
Ltac blind_tac :=
  repeat first
    [ apply blind_ret | apply blind_raise | apply blind_lift
    | apply blind_get | apply blind_new | apply blind_global_cfg
    | apply blind_set_cross_scores | apply blind_set_self_scores
    | apply blind_put
    | apply blind_bind; [|intros ?]
    | match goal with
      | |- blind (match ?o with _ => _ end) => destruct o
      | |- blind (if ?b then _ else _) => destruct b
      end ].

Section BlindModules.
Context {F : Type} {SF : Scalar F}.
#[local] Abbreviation tensor := (tensor (F:=F)).
#[local] Abbreviation state := (state (F:=F)).
#[local] Abbreviation M := (M (F:=F)).

Lemma blind_op1 f x : blind (op1 (F:=F) f x).
Proof. unfold op1. blind_tac. Qed.

Lemma blind_op2 f x y : blind (op2 (F:=F) f x y).
Proof. unfold op2. blind_tac. Qed.

Lemma blind_mk_view c x : blind (mk_view (F:=F) c x).
Proof. unfold mk_view. blind_tac. Qed.

Lemma blind_Linear m x : blind (nn_Linear_forward (F:=F) m x).
Proof. unfold nn_Linear_forward. blind_tac. Qed.

Lemma blind_LayerNorm m x : blind (nn_LayerNorm_forward (F:=F) m x).
Proof. unfold nn_LayerNorm_forward. blind_tac. Qed.

Lemma blind_Embedding m o : blind (nn_Embedding_forward (F:=F) m o).
Proof.
  unfold nn_Embedding_forward. destruct o; [apply blind_op2|apply blind_raise].
Qed.

Lemma blind_gelu x : blind (gelu (F:=F) x).
Proof.
  unfold gelu, torch_erf, tensor_map, tensor_mul.
  repeat first [apply blind_op1 | apply blind_op2 | apply blind_bind; [|intros ?]].
Qed.

Lemma blind_FeedForward m x : blind (FeedForward_forward (F:=F) m x).
Proof.
  unfold FeedForward_forward.
  repeat first [apply blind_Linear | apply blind_gelu | apply blind_bind; [|intros ?]].
Qed.

Lemma blind_Embeddings m x o : blind (Embeddings_forward (F:=F) m x o).
Proof.
  unfold Embeddings_forward, tensor_size, torch_arange, tensor_unsqueeze0,
    tensor_expand_as, tensor_add.
  repeat first [apply blind_Linear | apply blind_LayerNorm | apply blind_Embedding
               | apply blind_op2 | apply blind_mk_view | apply blind_bind; [|intros ?]
               | apply blind_get | apply blind_lift | apply blind_new].
Qed.

Lemma blind_attend_with {A} heads q k v mask (K : handle → handle → M A) :
  (∀ h sc, blind (K h sc)) → blind (attend_with heads q k v mask K).
Proof.
  intros HK. unfold attend_with, scale_and_mask, split_last, merge_last,
    tensor_transpose, torch_matmul, tensor_size, F_softmax, tensor_contiguous,
    tensor_index_s_n_n_s, tensor_float, tensor_map, tensor_isub.
  repeat first [apply HK
               | apply blind_op1 | apply blind_op2 | apply blind_mk_view
               | apply blind_bind; [|intros ?] | apply blind_get
               | apply blind_lift | apply blind_new | apply blind_ret
               | apply blind_put
               | match goal with
                 | |- blind (match ?o with _ => _ end) => destruct o
                 | |- blind (if ?b then _ else _) => destruct b
                 end ].
Qed.

Lemma blind_cross m x l mask :
  blind (QKVAttention_cross_forward (F:=F) m x l mask).
Proof.
  rewrite QKVAttention_cross_forward_eq.
  repeat (apply blind_bind; [apply blind_Linear|intros ?]).
  apply blind_attend_with. intros h sc. blind_tac.
Qed.

Lemma blind_self m x mask :
  blind (QKVAttention_self_forward (F:=F) m x mask).
Proof.
  rewrite QKVAttention_self_forward_eq.
  repeat (apply blind_bind; [apply blind_Linear|intros ?]).
  apply blind_attend_with. intros h sc. blind_tac.
Qed.

Lemma blind_process_round self x : blind (process_round (F:=F) self x).
Proof.
  unfold process_round, tensor_add. destruct (layers self) as [sa sf].
  repeat first [apply blind_self | apply blind_FeedForward
               | apply blind_LayerNorm | apply blind_op2
               | apply blind_bind; [|intros ?]].
Qed.

Lemma blind_encode self ids seg mask :
  blind (encode (F:=F) self ids seg mask).
Proof.
  unfold encode, tensor_add, tensor_clone, tensor_detach.
  destruct (cross_attend_blocks self) as [ca cf].
  repeat first [apply blind_cross | apply blind_FeedForward
               | apply blind_Embeddings
               | apply blind_LayerNorm | apply blind_op2
               | apply blind_bind; [|intros ?]
               | apply blind_get | apply blind_new | apply blind_ret].
Qed.

Lemma blind_forward self ids seg mask :
  blind (Transformer_forward (F:=F) self ids seg mask).
Proof.
  eapply blind_ext; [apply Transformer_forward_eq|].
  apply blind_bind; [apply blind_encode|]. intros x.
  apply blind_bind; [apply blind_global_cfg|]. intros g.
  apply blind_bind; [|intros ?; apply blind_ret].
  apply blind_for_in. intros _ y. apply blind_process_round.
Qed.

End BlindModules.

(** ** Construction *)

Section WellFormed.
Context {F : Type} {SF : Scalar F}.
#[local] Abbreviation tensor := (tensor (F:=F)).
#[local] Abbreviation state := (state (F:=F)).
#[local] Abbreviation M := (M (F:=F)).
Implicit Types (s : state) (t : tensor) (h x y : handle).
Variable rnd : nat → list nat → F.

Lemma has_shape_ext s s' h sh :
  ext s s' → has_shape (deref s) h sh = true → has_shape (deref s') h sh = true.
Proof.
  intros E. unfold has_shape.
  destruct (deref s h) as [[a|a]|] eqn:D; try discriminate.
  by rewrite (deref_ext _ _ _ _ E D).
Qed.

Lemma has_shape_intro s h (a : arr F) sh :
  deref s h = Ok (TFloat a) → shape a = sh → has_shape (deref s) h sh = true.
Proof.
  intros D Hs. unfold has_shape. rewrite D. by apply bool_decide_eq_true.
Qed.

Lemma nn_Linear_ok_ext s s' m a b :
  ext s s' → nn_Linear_ok (deref s) m a b = true →
  nn_Linear_ok (deref s') m a b = true.
Proof.
  intros E. unfold nn_Linear_ok. rewrite !andb_true_iff.
  intros [? ?]. split; by eapply has_shape_ext.
Qed.

Lemma nn_Embedding_ok_ext s s' m a b :
  ext s s' → nn_Embedding_ok (deref s) m a b = true →
  nn_Embedding_ok (deref s') m a b = true.
Proof. intros E. by apply has_shape_ext. Qed.

Lemma nn_LayerNorm_ok_ext s s' m n :
  ext s s' → nn_LayerNorm_ok (deref s) m n = true →
  nn_LayerNorm_ok (deref s') m n = true.
Proof.
  intros E. unfold nn_LayerNorm_ok. rewrite !andb_true_iff.
  intros [[? ?] ?]. repeat split; [done|by eapply has_shape_ext..].
Qed.

Lemma Embeddings_ok_ext s s' cfg m :
  ext s s' → Embeddings_ok (deref s) cfg m = true →
  Embeddings_ok (deref s') cfg m = true.
Proof.
  intros E. unfold Embeddings_ok. rewrite !andb_true_iff.
  intros [[[[? ?] ?] ?] ?].
  repeat split; eauto using nn_Linear_ok_ext, nn_Embedding_ok_ext,
    nn_LayerNorm_ok_ext.
Qed.

Lemma QKVAttention_cross_ok_ext s s' cfg m :
  ext s s' → QKVAttention_cross_ok (deref s) cfg m = true →
  QKVAttention_cross_ok (deref s') cfg m = true.
Proof.
  intros E. unfold QKVAttention_cross_ok. rewrite !andb_true_iff.
  intros [[? ?] ?]. repeat split; eauto using nn_Linear_ok_ext.
Qed.

Lemma QKVAttention_self_ok_ext s s' cfg m :
  ext s s' → QKVAttention_self_ok (deref s) cfg m = true →
  QKVAttention_self_ok (deref s') cfg m = true.
Proof.
  intros E. unfold QKVAttention_self_ok. rewrite !andb_true_iff.
  intros [[? ?] ?]. repeat split; eauto using nn_Linear_ok_ext.
Qed.

Lemma FeedForward_ok_ext s s' cfg m :
  ext s s' → FeedForward_ok (deref s) cfg m = true →
  FeedForward_ok (deref s') cfg m = true.
Proof.
  intros E. unfold FeedForward_ok. rewrite !andb_true_iff.
  intros [? ?]. split; eauto using nn_Linear_ok_ext.
Qed.

(** Training and later calls only extend the state: a well-formed model
    stays well-formed. *)
Lemma Transformer_ok_ext s s' cfg self :
  ext s s' → Transformer_ok (deref s) cfg self = true →
  Transformer_ok (deref s') cfg self = true.
Proof.
  intros E. unfold Transformer_ok. rewrite !andb_true_iff.
  intros H. repeat match goal with H : _ ∧ _ |- _ => destruct H end.
  repeat split;
    eauto using nn_LayerNorm_ok_ext, FeedForward_ok_ext,
      QKVAttention_self_ok_ext, QKVAttention_cross_ok_ext, Embeddings_ok_ext,
      has_shape_ext.
Qed.

Lemma refines_randn s sh :
  refines denotes s (torch_randn rnd sh)
          (Ok (TFloat (Arr sh (rnd (length (heap s)))))).
Proof. apply refines_new. Qed.

Lemma refines_full s sh q :
  refines denotes s (torch_full (F:=F) sh q)
          (Ok (TFloat (Arr sh (fun _ => fconst q)))).
Proof. apply refines_new. Qed.

Lemma init_Linear s n_in n_out :
  refines (fun s' m (_ : unit) => nn_Linear_ok (deref s') m n_in n_out = true)
          s (nn_Linear_init rnd n_in n_out) (Ok tt).
Proof.
  unfold nn_Linear_init.
  step_ok ltac:(apply refines_randn).
  step_ok ltac:(apply refines_randn).
  apply refines_ret. unfold nn_Linear_ok. simpl.
  apply andb_true_intro. split; by eapply has_shape_intro.
Qed.

Lemma init_Embedding s num dim :
  refines (fun s' m (_ : unit) => nn_Embedding_ok (deref s') m num dim = true)
          s (nn_Embedding_init rnd num dim) (Ok tt).
Proof.
  unfold nn_Embedding_init.
  step_ok ltac:(apply refines_randn).
  apply refines_ret. unfold nn_Embedding_ok. simpl.
  by eapply has_shape_intro.
Qed.

Lemma init_LayerNorm s n :
  refines (fun s' m (_ : unit) =>
             nn_LayerNorm_ok (deref s') m n = true
             ∧ ln_eps m = nn_LayerNorm_default_eps)
          s (nn_LayerNorm_init (F:=F) n) (Ok tt).
Proof.
  unfold nn_LayerNorm_init.
  step_ok ltac:(apply refines_full).
  step_ok ltac:(apply refines_full).
  apply refines_ret. unfold nn_LayerNorm_ok. simpl.
  split; [|done]. rewrite Nat.eqb_refl. simpl.
  apply andb_true_intro. split; by eapply has_shape_intro.
Qed.


Lemma refines_clear_cross s :
  refines same s (fun s : state => (Ok tt, with_cross_scores None s)) (Ok tt).
Proof. split; [by split|]. by exists tt. Qed.

Lemma refines_clear_self s :
  refines same s (fun s : state => (Ok tt, with_self_scores None s)) (Ok tt).
Proof. split; [by split|]. by exists tt. Qed.

End WellFormed.

(** A module built in an earlier state is well-formed in a later one. *)
Ltac lift_ok :=
  match goal with
  | H : nn_Linear_ok (deref ?s) ?m ?a ?b = true
    |- nn_Linear_ok (deref ?s') ?m ?a ?b = true =>
      apply (nn_Linear_ok_ext s s'); [ext_chain|exact H]
  | H : nn_Embedding_ok (deref ?s) ?m ?a ?b = true
    |- nn_Embedding_ok (deref ?s') ?m ?a ?b = true =>
      apply (nn_Embedding_ok_ext s s'); [ext_chain|exact H]
  | H : nn_LayerNorm_ok (deref ?s) ?m ?a = true
    |- nn_LayerNorm_ok (deref ?s') ?m ?a = true =>
      apply (nn_LayerNorm_ok_ext s s'); [ext_chain|exact H]
  | H : Embeddings_ok (deref ?s) ?c ?m = true
    |- Embeddings_ok (deref ?s') ?c ?m = true =>
      apply (Embeddings_ok_ext s s'); [ext_chain|exact H]
  | H : QKVAttention_cross_ok (deref ?s) ?c ?m = true
    |- QKVAttention_cross_ok (deref ?s') ?c ?m = true =>
      apply (QKVAttention_cross_ok_ext s s'); [ext_chain|exact H]
  | H : QKVAttention_self_ok (deref ?s) ?c ?m = true
    |- QKVAttention_self_ok (deref ?s') ?c ?m = true =>
      apply (QKVAttention_self_ok_ext s s'); [ext_chain|exact H]
  | H : FeedForward_ok (deref ?s) ?c ?m = true
    |- FeedForward_ok (deref ?s') ?c ?m = true =>
      apply (FeedForward_ok_ext s s'); [ext_chain|exact H]
  end.

Section Construction.
Context {F : Type} {SF : Scalar F}.
#[local] Abbreviation tensor := (tensor (F:=F)).
#[local] Abbreviation state := (state (F:=F)).
#[local] Abbreviation M := (M (F:=F)).
Implicit Types (s : state) (t : tensor) (h x y : handle).
Variable rnd : nat → list nat → F.

Lemma init_Embeddings s cfg :
  refines (fun s' m (_ : unit) =>
             Embeddings_ok (deref s') cfg m = true
             ∧ ln_eps (norm m) = nn_LayerNorm_default_eps)
          s (Embeddings_init rnd cfg) (Ok tt).
Proof.
  unfold Embeddings_init.
  step_ok ltac:(apply init_Embedding).
  step_ok ltac:(apply init_Linear).
  step_ok ltac:(apply init_Embedding).
  step_ok ltac:(apply init_Embedding).
  step_ok ltac:(apply init_LayerNorm).
  destruct R3 as [R3 Re].
  apply refines_ret. split; [|done]. unfold Embeddings_ok.
  cbn [tok_embed1 tok_embed2 pos_embed seg_embed norm].
  rewrite !andb_true_iff. repeat split; lift_ok.
Qed.

Lemma init_cross s cfg heads :
  refines (fun s' m (_ : unit) =>
             QKVAttention_cross_ok (deref s') cfg m = true ∧ n_heads m = heads)
          s (QKVAttention_cross_init rnd cfg heads) (Ok tt).
Proof.
  unfold QKVAttention_cross_init.
  step_ok ltac:(apply init_Linear).
  step_ok ltac:(apply init_Linear).
  step_ok ltac:(apply init_Linear).
  step_ok ltac:(apply refines_clear_cross).
  apply refines_ret. split; [|done]. unfold QKVAttention_cross_ok.
  cbn [proj_q proj_k proj_v].
  rewrite !andb_true_iff. repeat split; lift_ok.
Qed.

Lemma init_self s cfg heads :
  refines (fun s' m (_ : unit) =>
             QKVAttention_self_ok (deref s') cfg m = true ∧ n_heads m = heads)
          s (QKVAttention_self_init rnd cfg heads) (Ok tt).
Proof.
  unfold QKVAttention_self_init.
  step_ok ltac:(apply init_Linear).
  step_ok ltac:(apply init_Linear).
  step_ok ltac:(apply init_Linear).
  step_ok ltac:(apply refines_clear_self).
  apply refines_ret. split; [|done]. unfold QKVAttention_self_ok.
  cbn [proj_q proj_k proj_v].
  rewrite !andb_true_iff. repeat split; lift_ok.
Qed.

Lemma init_FeedForward s cfg :
  refines (fun s' m (_ : unit) => FeedForward_ok (deref s') cfg m = true)
          s (FeedForward_init rnd cfg) (Ok tt).
Proof.
  unfold FeedForward_init.
  step_ok ltac:(apply init_Linear).
  step_ok ltac:(apply init_Linear).
  apply refines_ret. unfold FeedForward_ok. cbn [fc1 fc2].
  rewrite !andb_true_iff. repeat split; lift_ok.
Qed.

(** [Transformer.__init__(cfg)] never raises; the model it returns is
    well-formed for [cfg], and each of its normalisation modules carries
    the library's default [eps]. *)
Lemma init_Transformer s cfg :
  refines (fun s' self (_ : unit) =>
             Transformer_ok (deref s') cfg self = true
             ∧ ∀ m, m ∈ norms self → ln_eps m = nn_LayerNorm_default_eps)
          s (Transformer_init rnd cfg) (Ok tt).
Proof.
  unfold Transformer_init.
  step_ok ltac:(apply init_Embeddings). destruct R as [R Re].
  step_ok ltac:(apply refines_randn).
  step_ok ltac:(apply init_cross). destruct R1 as [R1 H1].
  step_ok ltac:(apply init_FeedForward).
  step_ok ltac:(apply init_self). destruct R3 as [R3 H3].
  step_ok ltac:(apply init_FeedForward).
  step_ok ltac:(apply init_LayerNorm). destruct R5 as [R5 Re1].
  step_ok ltac:(apply init_LayerNorm). destruct R6 as [R6 Re2].
  step_ok ltac:(apply init_LayerNorm). destruct R7 as [R7 Re3].
  step_ok ltac:(apply init_LayerNorm). destruct R8 as [R8 Re4].
  apply refines_ret. split.
  - unfold Transformer_ok.
    cbn [embed latents cross_attend_blocks layers norm1 norm2 norm3 norm4
         fst snd].
    rewrite H1, H3, !Nat.eqb_refl, !andb_true_iff.
    repeat split; try done; try lift_ok.
    by eapply has_shape_intro.
  - intros m Hm. unfold norms in Hm. simpl in Hm.
    repeat (apply elem_of_cons in Hm as [->|Hm]; [done|]).
    by apply elem_of_nil in Hm.
Qed.

End Construction.

(** ** The forward pass *)

Section ForwardPass.
Context {F : Type} {SF : Scalar F}.
#[local] Abbreviation tensor := (tensor (F:=F)).
#[local] Abbreviation state := (state (F:=F)).
#[local] Abbreviation M := (M (F:=F)).
Implicit Types (s : state) (t : tensor) (h x y : handle).

(** The outcome of [Transformer.forward] is the outcome of its value. *)
Lemma forward_outcome s cfg self ids seg mask tids tseg tmask :
  Transformer_ok (deref s) cfg self = true →
  deref s ids = Ok tids → opt_denotes s seg tseg → opt_denotes s mask tmask →
  match Transformer_forward_v (deref s) (models_cfg s) self tids tseg tmask with
  | Ok v => ∃ h, fst (Transformer_forward self ids seg mask s) = Ok h
                 ∧ deref (snd (Transformer_forward self ids seg mask s)) h = Ok v
  | Err e => fst (Transformer_forward self ids seg mask s) = Err e
  end.
Proof.
  intros Ok1 D Os Om.
  exact (proj2 (refines_forward (deref s) s cfg self ids seg mask tids tseg tmask
                  (agree_deref s) Ok1 D Os Om)).
Qed.

(** C10: for a configuration with [hidden ≠ C], [Transformer.forward]
    raises on every input: the embedded sequence is [hidden] wide and the
    key projection of the cross-attention accepts width [C]. *)
Theorem C10_forward_needs_hidden_eq_C s cfg self ids seg mask tids tseg tmask :
  Transformer_ok (deref s) cfg self = true →
  hidden cfg ≠ cfg_C cfg →
  deref s ids = Ok tids → opt_denotes s seg tseg → opt_denotes s mask tmask →
  ∃ e, fst (Transformer_forward self ids seg mask s) = Err e.
Proof.
  intros Ok1 Hne D Os Om.
  pose proof (forward_outcome s cfg self ids seg mask tids tseg tmask
                Ok1 D Os Om) as R.
  destruct (Transformer_forward_v_err_width (deref s) cfg (models_cfg s) self
              tids tseg tmask Ok1 Hne) as (e & E).
  rewrite E in R. by exists e.
Qed.

(** C9: a call of [Transformer.forward] keeps every tensor that existed
    before it (the inputs, the parameters, the latent array) and the global
    namespace; besides new tensors it writes only the retained scores, and
    its result and the tensors it leaves do not depend on the scores
    retained before the call. *)
Theorem C9_forward_frame s self ids seg mask :
  let r := Transformer_forward self ids seg mask s in
  heap s `prefix_of` heap (snd r)
  ∧ models_cfg (snd r) = models_cfg s
  ∧ (∀ h t, deref s h = Ok t → deref (snd r) h = Ok t)
  ∧ (∀ cs ss,
       let r' := Transformer_forward self ids seg mask
                   (with_cross_scores cs (with_self_scores ss s)) in
       fst r' = fst r ∧ heap (snd r') = heap (snd r)).
Proof.
  intros r. subst r.
  destruct (frames_forward (length (heap s)) self ids seg mask s (le_n _))
    as (L & T & G).
  assert (P : heap s `prefix_of`
              heap (snd (Transformer_forward self ids seg mask s))).
  { rewrite firstn_all in T. rewrite <- T. apply prefix_take. }
  split; [exact P|]. split; [exact G|]. split.
  - intros h t D. eapply deref_ext; [|exact D]. by split.
  - intros cs ss.
    destruct (blind_forward self ids seg mask
                (with_cross_scores cs (with_self_scores ss s)) s)
      as [R [Hh _]]; [by split|].
    by split.
Qed.

End ForwardPass.

(** C1: in the namespace of [models.py], where the name [cfg] is not
    bound, [Transformer.forward] on the end-to-end scenario raises
    [NameError] instead of returning a tensor of shape [[1; 4; 8]]. *)
Theorem C1_forward_raises_NameError :
  fst (Transformer_forward (model_of Config_small) (input 0) (Some (input 1))
         (Some (input 2)) (state_of Config_small None small_inputs))
  = Err NameError.
Proof. vm_compute. reflexivity. Qed.

(** C2: the number of rounds is read from the global name [cfg], not from
    the configuration the model was built with: a model built with
    [process_layers = 2] runs no round of self-attention when the global
    [cfg] has [process_layers = 0]. *)
Theorem C2_rounds_follow_global_cfg :
  let r := Transformer_forward (model_of Config_small) (input 0)
             (Some (input 1)) (Some (input 2))
             (state_of Config_small (Some Config_no_rounds) small_inputs) in
  process_layers Config_small = 2
  ∧ is_ok (fst r) = true
  ∧ self_attn_scores (snd r) = None.
Proof. vm_compute. repeat split; reflexivity. Qed.

Lemma C10_witness :
  ∃ e, fst (Transformer_forward (model_of Config_narrow) (input 0)
              (Some (input 1)) (Some (input 2))
              (state_of Config_narrow None small_inputs)) = Err e.
Proof.
  apply (C10_forward_needs_hidden_eq_C
           (state_of Config_narrow None small_inputs) Config_narrow
           (model_of Config_narrow) (input 0) (Some (input 1)) (Some (input 2))
           ids_123 (Some seg_000) (Some mask_111)).
  - vm_compute. reflexivity.
  - vm_compute. discriminate.
  - reflexivity.
  - reflexivity.
  - reflexivity.
Defined.

(** ** The rounds of self-processing *)

(** Membership in a list that is written out. *)
Ltac in_list :=
  unfold Linear_params, LayerNorm_params in *;
  repeat match goal with
    | H : _ ∈ _ |- _ => apply list_elem_of_In in H; simpl in H
    end;
  apply list_elem_of_In; simpl; tauto.

Section Rounds.
Context {F : Type} {SF : Scalar F}.
#[local] Abbreviation tensor := (tensor (F:=F)).
#[local] Abbreviation state := (state (F:=F)).
#[local] Abbreviation M := (M (F:=F)).
Implicit Types (s : state) (t : tensor) (h x y : handle).

Lemma rbind_ext {A B} (v : result A) (f g : A → result B) :
  (∀ a, f a = g a) → rbind v f = rbind v g.
Proof. intros E. destruct v; simpl; [apply E|done]. Qed.

Section SameParameters.
Variables ρ ρ' : handle → result tensor.

Lemma Linear_v_ext m t :
  (∀ h, h ∈ Linear_params m → ρ' h = ρ h) →
  Linear_v ρ' m t = Linear_v ρ m t.
Proof.
  intros E. unfold Linear_v, Linear_params in *.
  rewrite !E; [done|in_list..].
Qed.

Lemma nn_LayerNorm_v_ext m t :
  (∀ h, h ∈ LayerNorm_params m → ρ' h = ρ h) →
  nn_LayerNorm_v ρ' m t = nn_LayerNorm_v ρ m t.
Proof.
  intros E. unfold nn_LayerNorm_v, LayerNorm_params in *.
  rewrite !E; [done|in_list..].
Qed.

Lemma process_round_v_ext self t :
  (∀ h, h ∈ round_params self → ρ' h = ρ h) →
  process_round_v ρ' self t = process_round_v ρ self t.
Proof.
  intros E. unfold round_params in E.
  unfold process_round_v, QKVAttention_self_v, residual_v, FeedForward_v.
  repeat first
    [ reflexivity
    | progress rewrite rbind_assoc
    | rewrite (Linear_v_ext _ _) by (intros; apply E; in_list)
    | rewrite (nn_LayerNorm_v_ext _ _) by (intros; apply E; in_list)
    | apply rbind_ext; intros ? ].
Qed.

End SameParameters.

(** C3: the loop of [Transformer.forward], run [n] times, returns the [n]-fold
    iterate of one round function, [process_round_v] of the model: every
    round reads the parameters of the one attention module and the one
    feed-forward module of [self.layers] (and of [norm3], [norm4]), and the
    round function is the same for any two assignments of values to
    these parameters that agree. *)
Theorem C3_rounds_share_parameters s cfg self n x tx :
  Transformer_ok (deref s) cfg self = true → deref s x = Ok tx →
  let r := for_in (range n) (fun _ x => process_round self x) x s in
  match iterate n (process_round_v (deref s) self) tx with
  | Ok v => ∃ h, fst r = Ok h ∧ deref (snd r) h = Ok v
  | Err e => fst r = Err e
  end
  ∧ ∀ ρ', (∀ h, h ∈ round_params self → ρ' h = deref s h) →
          ∀ t, process_round_v ρ' self t = process_round_v (deref s) self t.
Proof.
  intros Ok1 D r. split.
  - exact (proj2 (refines_rounds (deref s) s cfg self n 0 x tx
                    (agree_deref s) Ok1 D)).
  - intros ρ' E t. by apply process_round_v_ext.
Qed.

End Rounds.

Lemma C3_witness :
  let s := state_of Config_small None [latent_input] in
  let r := for_in (range 2)
             (fun _ x => process_round (model_of Config_small) x) (input 0) s in
  match iterate 2 (process_round_v (deref s) (model_of Config_small))
          latent_input with
  | Ok v => ∃ h, fst r = Ok h ∧ deref (snd r) h = Ok v
  | Err e => fst r = Err e
  end
  ∧ ∀ ρ', (∀ h, h ∈ round_params (model_of Config_small) → ρ' h = deref s h) →
          ∀ t, process_round_v ρ' (model_of Config_small) t
               = process_round_v (deref s) (model_of Config_small) t.
Proof.
  intros s.
  apply (C3_rounds_share_parameters s Config_small (model_of Config_small) 2
           (input 0) latent_input).
  - vm_compute. reflexivity.
  - reflexivity.
Defined.

(** ** The embedding module *)

Section EmbeddingModule.
Context {F : Type} {SF : Scalar F}.
#[local] Abbreviation tensor := (tensor (F:=F)).
#[local] Abbreviation state := (state (F:=F)).
#[local] Abbreviation M := (M (F:=F)).
Implicit Types (s : state) (t : tensor) (h x : handle).

Lemma forallb_indices_false (P : list nat → bool) sh :
  forallb P (indices sh) = false ↔ ∃ i, valid_index sh i ∧ P i = false.
Proof.
  split.
  - intros Hf. destruct (forallb_forall P (indices sh)) as [_ Hall].
    destruct (existsb (fun i => negb (P i)) (indices sh)) eqn:Ex.
    + apply existsb_exists in Ex as (i & Hi & Hp).
      exists i. split; [by apply in_indices|]. by destruct (P i).
    + exfalso. assert (forallb P (indices sh) = true) as Ht; [|congruence].
      apply Hall. intros i Hi. destruct (P i) eqn:Hp; [done|].
      assert (existsb (fun i => negb (P i)) (indices sh) = true) as Hex;
        [|congruence].
      apply existsb_exists. exists i. by rewrite Hp.
  - intros (i & Hi & Hp). destruct (forallb P (indices sh)) eqn:Hf; [|done].
    rewrite forallb_indices in Hf. rewrite (Hf i Hi) in Hp. discriminate.
Qed.

Lemma tokens_out_of_table cfg (a : arr Z) :
  tokens_in_table cfg a = false ↔ out_of_table (vocab_size cfg) a.
Proof. apply forallb_indices_false. Qed.

Lemma segments_out_of_table cfg (a : arr Z) :
  segments_in_table cfg a = false ↔ out_of_table (n_segments cfg) a.
Proof. apply forallb_indices_false. Qed.

Lemma positions_out_of_table cfg B S :
  positions_in_table cfg B S = false ↔ 0 < B ∧ max_len cfg < S.
Proof.
  unfold positions_in_table. rewrite orb_false_iff, Nat.eqb_neq, Nat.leb_gt. lia.
Qed.

Lemma embed_outcome s cfg m x seg (ai asg : arr Z) :
  Embeddings_ok (deref s) cfg m = true →
  deref s x = Ok (TLong ai) → deref s seg = Ok (TLong asg) →
  match Embeddings_v (deref s) m (TLong ai) (Some (TLong asg)) with
  | Ok v => ∃ h, fst (Embeddings_forward m x (Some seg) s) = Ok h
                 ∧ deref (snd (Embeddings_forward m x (Some seg) s)) h = Ok v
  | Err e => fst (Embeddings_forward m x (Some seg) s) = Err e
  end.
Proof.
  intros Ok1 Dx Ds.
  exact (proj2 (refines_Embeddings (deref s) s cfg m x (TLong ai) (Some seg)
                  (Some (TLong asg)) (agree_deref s) Ok1 Dx Ds)).
Qed.

(** C8 (as amended): on token ids and segment ids of shape [[B; S]],
    [embed] raises exactly when a token id is outside the vocabulary table,
    a segment id is outside the segment table, or the batch is not empty
    and the sequence is longer than the position table; it then raises
    [IndexError]. *)
Theorem C8_embed_fails_iff s cfg m x seg (ai asg : arr Z) B S :
  Embeddings_ok (deref s) cfg m = true →
  deref s x = Ok (TLong ai) → shape ai = [B; S] →
  deref s seg = Ok (TLong asg) → shape asg = [B; S] →
  (embed_fails s m x seg ↔
     out_of_table (vocab_size cfg) ai
     ∨ out_of_table (n_segments cfg) asg
     ∨ (0 < B ∧ max_len cfg < S))
  ∧ (embed_fails s m x seg →
     fst (Embeddings_forward m x (Some seg) s) = Err IndexError).
Proof.
  intros Ok1 Dx Sx Ds Ss.
  pose proof (embed_outcome s cfg m x seg ai asg Ok1 Dx Ds) as R.
  rewrite <- tokens_out_of_table, <- segments_out_of_table,
          <- positions_out_of_table.
  destruct (tokens_in_table cfg ai && positions_in_table cfg B S
              && segments_in_table cfg asg) eqn:Hc.
  - apply andb_prop in Hc as [Hc Hg]. apply andb_prop in Hc as [Ht Hp].
    destruct (Embeddings_v_ok (deref s) cfg m ai asg B S Ok1 Sx Ss Ht Hp Hg)
      as (y & E & _).
    rewrite E in R. destruct R as (h & Rh & _).
    assert (Hnf : ¬ embed_fails s m x seg).
    { intros (e & He). rewrite Rh in He. discriminate. }
    split.
    + split; [done|]. rewrite Ht, Hp, Hg. intros [?|[?|?]]; discriminate.
    + done.
  - rewrite (Embeddings_v_err (deref s) cfg m ai asg B S Ok1 Sx Ss Hc) in R.
    split; [|done]. split.
    + intros _. destruct (tokens_in_table cfg ai); [|by left].
      destruct (positions_in_table cfg B S); [|by right; right].
      right. left. exact Hc.
    + intros _. by exists IndexError.
Qed.

(** C5: on in-table token ids and segment ids of shape [[B; S]], [embed]
    returns the layer normalisation of the tensor [e] of shape
    [[B; S; hidden]] with
    [e[b, j, k] = (Σ_l tok[x[b, j], l] * W[k, l] + bias[k]) + pos[j, k]
                  + seg[segment[b, j], k]]. *)
Theorem C5_embed_value s cfg m x seg (ai asg : arr Z) B S :
  Embeddings_ok (deref s) cfg m = true →
  deref s x = Ok (TLong ai) → shape ai = [B; S] →
  deref s seg = Ok (TLong asg) → shape asg = [B; S] →
  tokens_in_table cfg ai = true →
  positions_in_table cfg B S = true →
  segments_in_table cfg asg = true →
  ∃ w1 w2 b2 wp ws e y h,
    deref s (emb_weight (tok_embed1 m)) = Ok (TFloat w1) ∧
    deref s (lin_weight (tok_embed2 m)) = Ok (TFloat w2) ∧
    deref s (lin_bias (tok_embed2 m)) = Ok (TFloat b2) ∧
    deref s (emb_weight (pos_embed m)) = Ok (TFloat wp) ∧
    deref s (emb_weight (seg_embed m)) = Ok (TFloat ws) ∧
    shape e = [B; S; hidden cfg] ∧
    (∀ b j k, b < B → j < S → k < hidden cfg →
       data e [b; j; k]
       = fadd (fadd (fadd (fsum (embedding_dim cfg)
                             (fun l => fmul (data w1 [Z.to_nat (data ai [b; j]); l])
                                            (data w2 [k; l])))
                          (data b2 [k]))
                    (data wp [j; k]))
              (data ws [Z.to_nat (data asg [b; j]); k])) ∧
    nn_LayerNorm_v (deref s) (norm m) (TFloat e) = Ok (TFloat y) ∧
    shape y = [B; S; hidden cfg] ∧
    fst (Embeddings_forward m x (Some seg) s) = Ok h ∧
    deref (snd (Embeddings_forward m x (Some seg) s)) h = Ok (TFloat y).
Proof.
  intros Ok1 Dx Sx Ds Ss Ht Hp Hg.
  pose proof (embed_outcome s cfg m x seg ai asg Ok1 Dx Ds) as R.
  destruct (Embeddings_sum_v_eq (deref s) cfg m ai asg B S Ok1 Sx Ss Ht Hp Hg)
    as (w1 & w2 & b2 & wp & ws & e & H1 & H2 & H3 & H4 & H5 & E & Se & He).
  assert (On : nn_LayerNorm_ok (deref s) (norm m) (hidden cfg) = true).
  { unfold Embeddings_ok in Ok1. by apply andb_prop in Ok1 as [_ On]. }
  destruct (nn_LayerNorm_v_shape (deref s) (norm m) e [B; S] _ On Se)
    as (y & Ey & Sy).
  unfold Embeddings_v in R. rewrite E in R. cbn [rbind] in R. rewrite Ey in R.
  destruct R as (h & Rh & Dh).
  exists w1, w2, b2, wp, ws, e, y, h. repeat (split; [assumption|]).
  assumption.
Qed.

End EmbeddingModule.

Lemma C5_witness :
  let s := state_of Config_small None small_inputs in
  let m := embed (model_of Config_small) in
  ∃ w1 w2 b2 wp ws e y h,
    deref s (emb_weight (tok_embed1 m)) = Ok (TFloat w1) ∧
    deref s (lin_weight (tok_embed2 m)) = Ok (TFloat w2) ∧
    deref s (lin_bias (tok_embed2 m)) = Ok (TFloat b2) ∧
    deref s (emb_weight (pos_embed m)) = Ok (TFloat wp) ∧
    deref s (emb_weight (seg_embed m)) = Ok (TFloat ws) ∧
    shape e = [1; 3; hidden Config_small] ∧
    (∀ b j k, b < 1 → j < 3 → k < hidden Config_small →
       data e [b; j; k]
       = fadd (fadd (fadd (fsum (embedding_dim Config_small)
                             (fun l => fmul (data w1 [Z.to_nat (Z.of_nat (S (nth 1 [b; j] 0))); l])
                                            (data w2 [k; l])))
                          (data b2 [k]))
                    (data wp [j; k]))
              (data ws [Z.to_nat 0; k])) ∧
    nn_LayerNorm_v (deref s) (norm m) (TFloat e) = Ok (TFloat y) ∧
    shape y = [1; 3; hidden Config_small] ∧
    fst (Embeddings_forward m (input 0) (Some (input 1)) s) = Ok h ∧
    deref (snd (Embeddings_forward m (input 0) (Some (input 1)) s)) h
    = Ok (TFloat y).
Proof.
  intros s m.
  apply (C5_embed_value s Config_small m (input 0) (input 1)
           (Arr [1; 3] (fun i => Z.of_nat (S (nth 1 i 0))))
           (Arr [1; 3] (fun _ => 0%Z)) 1 3).
  - vm_compute. reflexivity.
  - reflexivity.
  - reflexivity.
  - reflexivity.
  - reflexivity.
  - vm_compute. reflexivity.
  - vm_compute. reflexivity.
  - vm_compute. reflexivity.
Defined.

Lemma C8_witness :
  let s := state_of Config_small None small_inputs in
  let m := embed (model_of Config_small) in
  (embed_fails s m (input 0) (input 1) ↔
     out_of_table (vocab_size Config_small)
       (Arr [1; 3] (fun i => Z.of_nat (S (nth 1 i 0))))
     ∨ out_of_table (n_segments Config_small) (Arr [1; 3] (fun _ => 0%Z))
     ∨ (0 < 1 ∧ max_len Config_small < 3))
  ∧ (embed_fails s m (input 0) (input 1) →
     fst (Embeddings_forward m (input 0) (Some (input 1)) s) = Err IndexError).
Proof.
  intros s m.
  apply (C8_embed_fails_iff s Config_small m (input 0) (input 1)
           (Arr [1; 3] (fun i => Z.of_nat (S (nth 1 i 0))))
           (Arr [1; 3] (fun _ => 0%Z)) 1 3).
  - vm_compute. reflexivity.
  - reflexivity.
  - reflexivity.
  - reflexivity.
  - reflexivity.
Defined.

(** C8 (as stated) fails on an empty batch: with two positions in the
    table and token ids of shape [[0; 3]], the sequence length 3 exceeds
    the maximum position count 2 and [embed] returns. *)
Lemma C8_counterexample :
  let s := state_of Config_short None [ids_empty; ids_empty] in
  let m := embed (model_of Config_short) in
  deref s (input 0) = Ok ids_empty
  ∧ deref s (input 1) = Ok ids_empty
  ∧ tshape ids_empty = [0; 3]
  ∧ max_len Config_short < 3
  ∧ is_ok (fst (Embeddings_forward m (input 0) (Some (input 1)) s)) = true.
Proof.
  cbv zeta. split; [reflexivity|]. split; [reflexivity|].
  split; [reflexivity|]. split; [vm_compute; lia|].
  vm_compute. reflexivity.
Qed.

(** ** The attention modules *)

Section AttentionModules.
Context {F : Type} {SF : Scalar F}.
#[local] Abbreviation tensor := (tensor (F:=F)).
#[local] Abbreviation state := (state (F:=F)).
#[local] Abbreviation M := (M (F:=F)).
Implicit Types (s : state) (t : tensor) (x : handle).

(** The outcome of a call to the cross-attention module is the outcome of
    its value; the module retains the normalised scores. *)
Lemma cross_outcome s cfg m x latent mask tx tl tm :
  QKVAttention_cross_ok (deref s) cfg m = true →
  deref s x = Ok tx → deref s latent = Ok tl → opt_denotes s mask tm →
  let r := QKVAttention_cross_forward m x latent mask s in
  match QKVAttention_cross_v (deref s) m tx tl tm with
  | Ok v => ∃ h sc, fst r = Ok h ∧ deref (snd r) h = Ok (fst v)
                    ∧ cross_attn_scores (snd r) = Some sc
                    ∧ deref (snd r) sc = Ok (snd v)
  | Err e => fst r = Err e
  end.
Proof.
  intros Ok1 Dx Dl Om r.
  pose proof (proj2 (refines_cross (deref s) s cfg m x latent mask tx tl tm
                       (agree_deref s) Ok1 Dx Dl Om)) as R.
  fold r in R.
  destruct (QKVAttention_cross_v (deref s) m tx tl tm) as [v|e]; [|done].
  destruct R as (h & Eh & Dh & sc & Esc & Dsc). by exists h, sc.
Qed.

Lemma self_outcome s cfg m x mask tx tm :
  QKVAttention_self_ok (deref s) cfg m = true →
  deref s x = Ok tx → opt_denotes s mask tm →
  let r := QKVAttention_self_forward m x mask s in
  match QKVAttention_self_v (deref s) m tx tm with
  | Ok v => ∃ h sc, fst r = Ok h ∧ deref (snd r) h = Ok (fst v)
                    ∧ self_attn_scores (snd r) = Some sc
                    ∧ deref (snd r) sc = Ok (snd v)
  | Err e => fst r = Err e
  end.
Proof.
  intros Ok1 Dx Om r.
  pose proof (proj2 (refines_self (deref s) s cfg m x mask tx tm
                       (agree_deref s) Ok1 Dx Om)) as R.
  fold r in R.
  destruct (QKVAttention_self_v (deref s) m tx tm) as [v|e]; [|done].
  destruct R as (h & Eh & Dh & sc & Esc & Dsc). by exists h, sc.
Qed.

Lemma softmax_at (pre : arr F) B H N S b h i j :
  shape pre = [B; H; N; S] →
  data (softmax pre) [b; h; i; j]
  = fdiv (fexp (data pre [b; h; i; j]))
         (fsum S (fun l => fexp (data pre [b; h; i; l]))).
Proof. intros Hs. unfold softmax. rewrite Hs. reflexivity. Qed.

(** C4: in [QKVAttention_cross.forward], on an embedded sequence of shape
    [[B; S; C]] and a latent array of shape [[N; D]], the tensor [pre] the
    softmax receives has the shape [[B; heads; N; S]] of the scaled
    products [q @ k.T / sqrt(width)]; with a mask of shape [[B; S]],
    [pre[b, h, i, j] = scaled[b, h, i, j] - 10000 * (1 - mask[b, j])] for
    every head [h] and query position [i]; without a mask, [pre] is
    [scaled]; the module retains the softmax of [pre] over the key axis
    [j]. *)
Theorem C4_cross_attention_mask s cfg m x latent mask (ax al : arr F) tm B S N :
  QKVAttention_cross_ok (deref s) cfg m = true →
  deref s x = Ok (TFloat ax) → shape ax = [B; S; cfg_C cfg] →
  deref s latent = Ok (TFloat al) → shape al = [N; cfg_D cfg] →
  heads_divide (n_heads m) (cfg_D cfg) →
  opt_denotes s mask tm → mask_ok tm B S →
  let r := QKVAttention_cross_forward m x latent mask s in
  ∃ q k q' k' scaled pre out sc,
    Linear_v (deref s) (proj_q m) (TFloat al) = Ok (TFloat q) ∧
    Linear_v (deref s) (proj_k m) (TFloat ax) = Ok (TFloat k) ∧
    split_heads_v (n_heads m) (TFloat q) = Ok (TFloat q') ∧
    split_heads_v (n_heads m) (TFloat k) = Ok (TFloat k') ∧
    scaled_scores_v (TFloat q') (TFloat k') = Ok (TFloat scaled) ∧
    shape scaled = [B; n_heads m; N; S] ∧
    shape pre = [B; n_heads m; N; S] ∧
    match tm with
    | Some tmask =>
        ∀ b h i j, b < B → h < n_heads m → i < N → j < S →
          data pre [b; h; i; j]
          = fsub (data scaled [b; h; i; j])
                 (fmul (fconst 10000)
                       (fsub (fconst 1) (data (promote tmask) [b; j])))
    | None => pre = scaled
    end ∧
    fst r = Ok out ∧
    cross_attn_scores (snd r) = Some sc ∧
    deref (snd r) sc = Ok (TFloat (softmax pre)) ∧
    ∀ b h i j,
      data (softmax pre) [b; h; i; j]
      = fdiv (fexp (data pre [b; h; i; j]))
             (fsum S (fun l => fexp (data pre [b; h; i; l]))).
Proof.
  intros Ok1 Dx Sx Dl Sl Hd Om Hm r.
  pose proof (cross_outcome s cfg m x latent mask _ _ tm Ok1 Dx Dl Om) as R.
  fold r in R.
  destruct (QKVAttention_cross_v_eq (deref s) cfg m ax al tm B S N
              Ok1 Sx Sl Hd Hm)
    as (q & k & q' & k' & scaled & pre & h & E1 & E2 & E3 & E4 & _ & _ & E5
        & S5 & E6 & S6 & E7 & _).
  rewrite E7 in R. destruct R as (out & sc & Eo & _ & Esc & Dsc).
  exists q, k, q', k', scaled, pre, out, sc.
  repeat (split; [assumption|]). split.
  - destruct tm as [tmask|].
    + destruct (masked_scores_v_eq scaled tmask B (n_heads m) N S S5 Hm)
        as (pre' & E' & _ & Hp).
      rewrite E6 in E'. by injection E' as <-.
    + simpl in E6. by injection E6 as <-.
  - repeat (split; [assumption|]).
    intros b h' i j. by apply (softmax_at pre B (n_heads m) N S).
Qed.

(** C7 (as amended): on a well-formed model, an embedded sequence of shape
    [[B; S; C]] and a latent array of shape [[B'; N'; D]],
    [QKVAttention_cross.forward] returns exactly when the number of
    cross-attention heads is not zero and divides [D], and
    [QKVAttention_self.forward] returns exactly when the number of latent
    heads is not zero and divides [D]; the key heads are then
    [D / heads] wide in both. *)
Theorem C7_attention_needs_heads_divide_D s cfg self x (ax : arr F) mask tm
    y (ay : arr F) B S B' N' :
  Transformer_ok (deref s) cfg self = true →
  deref s x = Ok (TFloat ax) → shape ax = [B; S; cfg_C cfg] →
  opt_denotes s mask tm → mask_ok tm B S →
  deref s y = Ok (TFloat ay) → shape ay = [B'; N'; cfg_D cfg] →
  let cross_attn := fst (cross_attend_blocks self) in
  let self_attn := fst (layers self) in
  (is_ok (fst (QKVAttention_cross_forward cross_attn x (latents self) mask s))
   = true ↔ heads_divide (cross_heads cfg) (cfg_D cfg))
  ∧ (is_ok (fst (QKVAttention_self_forward self_attn y None s)) = true
     ↔ heads_divide (latent_heads cfg) (cfg_D cfg))
  ∧ (heads_divide (cross_heads cfg) (cfg_D cfg) →
     ∃ k k', Linear_v (deref s) (proj_k cross_attn) (TFloat ax) = Ok (TFloat k)
             ∧ split_heads_v (cross_heads cfg) (TFloat k) = Ok (TFloat k')
             ∧ shape k' = [B; cross_heads cfg; S; cfg_D cfg / cross_heads cfg])
  ∧ (heads_divide (latent_heads cfg) (cfg_D cfg) →
     ∃ k k', Linear_v (deref s) (proj_k self_attn) (TFloat ay) = Ok (TFloat k)
             ∧ split_heads_v (latent_heads cfg) (TFloat k) = Ok (TFloat k')
             ∧ shape k'
               = [B'; latent_heads cfg; N'; cfg_D cfg / latent_heads cfg]).
Proof.
  intros Ok1 Dx Sx Om Hm Dy Sy cross_attn self_attn.
  destruct (Transformer_ok_inv _ _ _ Ok1)
    as ((_ & Hl & Hc & Hch & _) & (Hs & Hsh & _) & _).
  fold cross_attn in Hc, Hch. fold self_attn in Hs, Hsh.
  apply has_shape_inv in Hl as (al & Dl & Sl).
  pose proof (cross_outcome s cfg cross_attn x (latents self) mask _ _ tm
                Hc Dx Dl Om) as Rc. cbv zeta in Rc.
  pose proof (self_outcome s cfg self_attn y None _ None Hs Dy I) as Rs.
  cbv zeta in Rs.
  rewrite <- Hch, <- Hsh.
  split; [|split; [|split]].
  - destruct (decide (heads_divide (n_heads cross_attn) (cfg_D cfg))) as [Hd|Hd].
    + destruct (QKVAttention_cross_v_ok (deref s) cfg cross_attn ax al tm B S
                  (cfg_N cfg) Hc Sx Sl Hd Hm) as (h & sc & E & _).
      rewrite E in Rc. destruct Rc as (h' & sc' & -> & _). done.
    + rewrite (QKVAttention_cross_v_err_heads (deref s) cfg cross_attn ax al tm
                 B S (cfg_N cfg) Hc Sx Sl Hd) in Rc.
      rewrite Rc. simpl. split; [discriminate|done].
  - destruct (decide (heads_divide (n_heads self_attn) (cfg_D cfg))) as [Hd|Hd].
    + destruct (QKVAttention_self_v_ok (deref s) cfg self_attn ay B' N'
                  Hs Sy Hd) as (h & sc & E & _).
      rewrite E in Rs. destruct Rs as (h' & sc' & -> & _). done.
    + rewrite (QKVAttention_self_v_err_heads (deref s) cfg self_attn ay B' N'
                 Hs Sy Hd) in Rs.
      rewrite Rs. simpl. split; [discriminate|done].
  - intros Hd.
    destruct (QKVAttention_cross_v_eq (deref s) cfg cross_attn ax al tm B S
                (cfg_N cfg) Hc Sx Sl Hd Hm)
      as (q & k & q' & k' & _ & _ & _ & _ & E2 & _ & E4 & _ & S4 & _).
    by exists k, k'.
  - intros [Hh Hmod].
    unfold QKVAttention_self_ok in Hs.
    apply andb_prop in Hs as [Hs _]. apply andb_prop in Hs as [_ Hk].
    destruct (Linear_v_shape (deref s) (proj_k self_attn) ay [B'; N'] _ _ Hk Sy)
      as (k & Ek & Sk).
    destruct k as [shk fk]. simpl in Sk. subst shk.
    eexists _, _. split; [exact Ek|]. split.
    + by apply split_heads_v_3.
    + reflexivity.
Qed.

End AttentionModules.

(** ** The normalisation modules *)

Section NormalisationModules.
Context {F : Type} {SF : Scalar F}.
#[local] Abbreviation tensor := (tensor (F:=F)).
#[local] Abbreviation state := (state (F:=F)).
Implicit Types (s : state) (t : tensor) (x : handle).
Variable rnd : nat → list nat → F.

Lemma norms_ok (ρ : handle → result tensor) cfg self m :
  Transformer_ok ρ cfg self = true → m ∈ norms self →
  nn_LayerNorm_ok ρ m (normalized_shape m) = true.
Proof.
  intros Ok1 Hm.
  destruct (Transformer_ok_inv _ _ _ Ok1)
    as ((He & _) & _ & H1 & H2 & H3 & H4).
  unfold Embeddings_ok in He. apply andb_prop in He as [_ He].
  assert (∀ n, nn_LayerNorm_ok ρ m n = true
               → nn_LayerNorm_ok ρ m (normalized_shape m) = true) as Hn.
  { unfold nn_LayerNorm_ok. intros n Hn. apply andb_prop in Hn as [Hn Hb].
    apply andb_prop in Hn as [Hn Hw]. apply Nat.eqb_eq in Hn.
    by rewrite Hn, Nat.eqb_refl, Hw, Hb. }
  unfold norms in Hm.
  repeat (apply elem_of_cons in Hm as [->|Hm]; [by eapply Hn|]).
  by apply elem_of_nil in Hm.
Qed.

(** C6 (as amended): every normalisation module [m] of a model built by
    [Transformer.__init__] (the one of [Embeddings] and [norm1] to [norm4])
    maps [x], whose last axis has the width of [m], to
    [(x - mean) / sqrt(var + eps) * weight + bias] with mean and variance
    over the last axis and [eps = 1e-5], the default of [nn.LayerNorm]. *)
Theorem C6_layer_norm_eps_is_library_default s0 cfg self s m x (ax : arr F) pre :
  fst (Transformer_init rnd cfg s0) = Ok self →
  ext (snd (Transformer_init rnd cfg s0)) s →
  m ∈ norms self →
  deref s x = Ok (TFloat ax) → shape ax = pre ++ [normalized_shape m] →
  ∃ w b h,
    deref s (ln_weight m) = Ok (TFloat w) ∧
    deref s (ln_bias m) = Ok (TFloat b) ∧
    fst (nn_LayerNorm_forward m x s) = Ok h ∧
    deref (snd (nn_LayerNorm_forward m x s)) h
    = Ok (TFloat (Arr (shape ax)
            (fun i =>
               fadd (fmul (fdiv (fsub (data ax i)
                                      (row_mean (normalized_shape m) ax i))
                                (fsqrt (fadd (row_var (normalized_shape m) ax i)
                                             (fconst (1 # 100000)))))
                          (data w [lastn i]))
                    (data b [lastn i])))).
Proof.
  intros Ei Ex Hm Dx Sx.
  destruct (init_Transformer rnd s0 cfg) as [_ R]. rewrite Ei in R.
  destruct R as (self' & [= <-] & Ok1 & Heps).
  pose proof (Transformer_ok_ext _ _ _ _ Ex Ok1) as Ok2.
  pose proof (norms_ok _ _ _ _ Ok2 Hm) as On.
  destruct (nn_LayerNorm_v_eq (deref s) m ax pre _ On Sx) as (w & b & Hw & Hb & E).
  pose proof (proj2 (refines_LayerNorm (deref s) s m x _ _ (agree_deref s) On Dx))
    as R.
  rewrite E in R. destruct R as (h & Eh & Dh).
  rewrite (Heps m Hm) in Dh. unfold nn_LayerNorm_default_eps in Dh.
  exists w, b, h. repeat (split; [assumption|]). exact Dh.
Qed.

End NormalisationModules.

Lemma C4_witness :
  let s := state_of Config_small None attention_inputs in
  let m := fst (cross_attend_blocks (model_of Config_small)) in
  let ax : arr sym := Arr [1; 3; 8] (SInit 36) in
  let al : arr sym := Arr [4; 8] (SInit 7) in
  let r := QKVAttention_cross_forward m (input 0) (base 7) (Some (input 1)) s in
  ∃ q k q' k' scaled pre out sc,
    Linear_v (deref s) (proj_q m) (TFloat al) = Ok (TFloat q) ∧
    Linear_v (deref s) (proj_k m) (TFloat ax) = Ok (TFloat k) ∧
    split_heads_v (n_heads m) (TFloat q) = Ok (TFloat q') ∧
    split_heads_v (n_heads m) (TFloat k) = Ok (TFloat k') ∧
    scaled_scores_v (TFloat q') (TFloat k') = Ok (TFloat scaled) ∧
    shape scaled = [1; n_heads m; 4; 3] ∧
    shape pre = [1; n_heads m; 4; 3] ∧
    (∀ b h i j, b < 1 → h < n_heads m → i < 4 → j < 3 →
       data pre [b; h; i; j]
       = fsub (data scaled [b; h; i; j])
              (fmul (fconst 10000)
                    (fsub (fconst 1) (data (promote mask_111) [b; j])))) ∧
    fst r = Ok out ∧
    cross_attn_scores (snd r) = Some sc ∧
    deref (snd r) sc = Ok (TFloat (softmax pre)) ∧
    ∀ b h i j,
      data (softmax pre) [b; h; i; j]
      = fdiv (fexp (data pre [b; h; i; j]))
             (fsum 3 (fun l => fexp (data pre [b; h; i; l]))).
Proof.
  intros s m ax al.
  apply (C4_cross_attention_mask s Config_small m (input 0) (base 7)
           (Some (input 1)) ax al (Some mask_111) 1 3 4).
  - vm_compute. reflexivity.
  - reflexivity.
  - reflexivity.
  - reflexivity.
  - reflexivity.
  - vm_compute. split; [discriminate|reflexivity].
  - reflexivity.
  - reflexivity.
Defined.

Lemma C7_witness :
  let s := state_of Config_small None [float_input 36 [1; 3; 8]] in
  let self := model_of Config_small in
  let ax : arr sym := Arr [1; 3; 8] (SInit 36) in
  let cross_attn := fst (cross_attend_blocks self) in
  let self_attn := fst (layers self) in
  (is_ok (fst (QKVAttention_cross_forward cross_attn (input 0) (latents self)
                 None s)) = true
   ↔ heads_divide (cross_heads Config_small) (cfg_D Config_small))
  ∧ (is_ok (fst (QKVAttention_self_forward self_attn (input 0) None s)) = true
     ↔ heads_divide (latent_heads Config_small) (cfg_D Config_small))
  ∧ (heads_divide (cross_heads Config_small) (cfg_D Config_small) →
     ∃ k k', Linear_v (deref s) (proj_k cross_attn) (TFloat ax) = Ok (TFloat k)
             ∧ split_heads_v (cross_heads Config_small) (TFloat k)
               = Ok (TFloat k')
             ∧ shape k' = [1; cross_heads Config_small; 3;
                           cfg_D Config_small / cross_heads Config_small])
  ∧ (heads_divide (latent_heads Config_small) (cfg_D Config_small) →
     ∃ k k', Linear_v (deref s) (proj_k self_attn) (TFloat ax) = Ok (TFloat k)
             ∧ split_heads_v (latent_heads Config_small) (TFloat k)
               = Ok (TFloat k')
             ∧ shape k' = [1; latent_heads Config_small; 3;
                           cfg_D Config_small / latent_heads Config_small]).
Proof.
  intros s self ax.
  apply (C7_attention_needs_heads_divide_D s Config_small self (input 0) ax
           None None (input 0) ax 1 3 1 3).
  - vm_compute. reflexivity.
  - reflexivity.
  - reflexivity.
  - exact I.
  - exact I.
  - reflexivity.
  - reflexivity.
Defined.

(** C7 (as stated) fails for [C = 6], [D = 8] and three cross-attention
    heads: [C] is a multiple of the head count, and the cross-attention
    raises on an embedded sequence of shape [[1; 3; 6]]. *)
Lemma C7_counterexample :
  let s := state_of Config_three_heads None [float_input 36 [1; 3; 6]] in
  let self := model_of Config_three_heads in
  Transformer_ok (deref s) Config_three_heads self = true
  ∧ cross_heads Config_three_heads = 3
  ∧ cfg_C Config_three_heads mod cross_heads Config_three_heads = 0
  ∧ fst (QKVAttention_cross_forward (fst (cross_attend_blocks self)) (input 0)
           (latents self) None s) = Err RuntimeError.
Proof. vm_compute. repeat split; reflexivity. Qed.

Lemma C6_witness :
  let s := state_of Config_small None [float_input 36 [1; 3; 8]] in
  let m := norm1 (model_of Config_small) in
  let ax : arr sym := Arr [1; 3; 8] (SInit 36) in
  ∃ w b h,
    deref s (ln_weight m) = Ok (TFloat w) ∧
    deref s (ln_bias m) = Ok (TFloat b) ∧
    fst (nn_LayerNorm_forward m (input 0) s) = Ok h ∧
    deref (snd (nn_LayerNorm_forward m (input 0) s)) h
    = Ok (TFloat (Arr (shape ax)
            (fun i =>
               fadd (fmul (fdiv (fsub (data ax i)
                                      (row_mean (normalized_shape m) ax i))
                                (fsqrt (fadd (row_var (normalized_shape m) ax i)
                                             (fconst (1 # 100000)))))
                          (data w [lastn i]))
                    (data b [lastn i])))).
Proof.
  intros s m ax.
  apply (C6_layer_norm_eps_is_library_default SInit (initial_state None)
           Config_small (model_of Config_small) s m (input 0) ax [1; 3]).
  - vm_compute. reflexivity.
  - split; [|reflexivity]. exists [float_input 36 [1; 3; 8]]. reflexivity.
  - unfold norms. apply elem_of_cons. right. apply elem_of_cons. by left.
  - reflexivity.
  - reflexivity.
Defined.

(** C6 (as stated) fails for every normalisation module of the pipeline:
    the modules are [nn.LayerNorm] with the library's [eps], not [1e-12];
    [norm1] of a model maps the row [[x0 .. x7]] to a first element with
    [1e-5] under the square root. *)
Lemma C6_counterexample :
  let s := state_of Config_small None [float_input 36 [1; 8]] in
  let self := model_of Config_small in
  let x : arr sym := Arr [1; 8] (SInit 36) in
  let expected (eps : Q) : sym :=
    fadd (fmul (fdiv (fsub (data x [0; 0]) (row_mean 8 x [0; 0]))
                     (fsqrt (fadd (row_var 8 x [0; 0]) (fconst eps))))
               (fconst 1))
         (fconst 0) in
  Forall (fun m => ln_eps m = 1 # 100000) (norms self)
  ∧ ∃ h y, fst (nn_LayerNorm_forward (norm1 self) (input 0) s) = Ok h
           ∧ deref (snd (nn_LayerNorm_forward (norm1 self) (input 0) s)) h
             = Ok (TFloat y)
           ∧ data y [0; 0] = expected (1 # 100000)
           ∧ data y [0; 0] ≠ expected (1 # 1000000000000).
Proof.
  cbv zeta. split.
  - vm_compute. repeat constructor.
  - eexists _, _. split; [vm_compute; reflexivity|].
    split; [vm_compute; reflexivity|]. split; [vm_compute; reflexivity|].
    vm_compute. intros [=].
Qed.

(** * Further properties of the code *)

(** ** Outcomes of the forward pass *)

Section ForwardOutcomes.
Context {F : Type} {SF : Scalar F}.
#[local] Abbreviation tensor := (tensor (F:=F)).
#[local] Abbreviation state := (state (F:=F)).
#[local] Abbreviation M := (M (F:=F)).
Implicit Types (s : state) (t : tensor) (x : handle).

(** X1: with the global name [cfg] bound, on a well-formed model whose
    configuration has [hidden = C] and head counts that divide [D],
    [Transformer.forward] on in-table token ids and segment ids of shape
    [[B; S]] (and a mask of that shape, or none) returns a float tensor of
    shape [[B; N; D]], whatever the sequence length and the number of
    rounds. *)
Theorem forward_returns_B_N_D s cfg g self ids seg mask (ai asg : arr Z) tm B S :
  Transformer_ok (deref s) cfg self = true → Config_ok cfg →
  models_cfg s = Some g →
  deref s ids = Ok (TLong ai) → shape ai = [B; S] →
  deref s seg = Ok (TLong asg) → shape asg = [B; S] →
  opt_denotes s mask tm → mask_ok tm B S →
  tokens_in_table cfg ai = true →
  positions_in_table cfg B S = true →
  segments_in_table cfg asg = true →
  let r := Transformer_forward self ids (Some seg) mask s in
  ∃ h y, fst r = Ok h ∧ deref (snd r) h = Ok (TFloat y)
         ∧ shape y = [B; cfg_N cfg; cfg_D cfg].
Proof.
  intros Ok1 Hc Hg Di Si Ds Ss Om Hm Ht Hp Hsg r.
  pose proof (forward_outcome s cfg self ids (Some seg) mask _ (Some (TLong asg))
                tm Ok1 Di Ds Om) as R.
  fold r in R. rewrite Hg in R.
  destruct (Transformer_forward_v_shape (deref s) cfg g self ai asg tm B S
              Ok1 Hc Si Ss Ht Hp Hsg Hm) as (y & E & Sy).
  rewrite E in R. destruct R as (h & Eh & Dh). by exists h, y.
Qed.

(** X2: in the namespace of [models.py], where [cfg] is not bound,
    [Transformer.forward] raises [NameError] on every input that the
    embedding module and the cross-attention block accept. *)
Theorem forward_unbound_cfg_raises_NameError s cfg self ids seg mask
    (ai asg : arr Z) tm B S :
  Transformer_ok (deref s) cfg self = true → Config_ok cfg →
  models_cfg s = None →
  deref s ids = Ok (TLong ai) → shape ai = [B; S] →
  deref s seg = Ok (TLong asg) → shape asg = [B; S] →
  opt_denotes s mask tm → mask_ok tm B S →
  tokens_in_table cfg ai = true →
  positions_in_table cfg B S = true →
  segments_in_table cfg asg = true →
  fst (Transformer_forward self ids (Some seg) mask s) = Err NameError.
Proof.
  intros Ok1 Hc Hg Di Si Ds Ss Om Hm Ht Hp Hsg.
  pose proof (forward_outcome s cfg self ids (Some seg) mask _ (Some (TLong asg))
                tm Ok1 Di Ds Om) as R.
  rewrite Hg in R.
  by rewrite (Transformer_forward_v_unbound (deref s) cfg self ai asg tm B S
                Ok1 Hc Si Ss Ht Hp Hsg Hm) in R.
Qed.

(** X3: while [cfg] is not bound, no call of [Transformer.forward]
    returns, whatever the model and the arguments. *)
Theorem forward_unbound_cfg_never_returns s self ids seg mask :
  models_cfg s = None →
  ∃ e, fst (Transformer_forward self ids seg mask s) = Err e.
Proof.
  intros Hg. rewrite Transformer_forward_eq.
  destruct (frames_encode 0 self ids seg mask s (Nat.le_0_l _)) as (_ & _ & G).
  unfold bind at 1.
  destruct (encode self ids seg mask s) as [[x|e] s1]; simpl in *;
    [|by exists e].
  unfold bind, global_cfg. rewrite G, Hg. simpl. by exists NameError.
Qed.

(** X4: the number of rounds is the [process_layers] of the global [cfg]:
    with [cfg] bound to [g], the outcome of [Transformer.forward] on a
    well-formed model is the outcome of the steps before the loop followed
    by [process_layers g] rounds, whatever [process_layers] the model was
    built with. *)
Theorem forward_rounds_are_global s cfg g self ids seg mask tids tseg tmask :
  Transformer_ok (deref s) cfg self = true →
  models_cfg s = Some g →
  deref s ids = Ok tids → opt_denotes s seg tseg → opt_denotes s mask tmask →
  let r := Transformer_forward self ids seg mask s in
  match Transformer_v (deref s) self (process_layers g) tids tseg tmask with
  | Ok v => ∃ h, fst r = Ok h ∧ deref (snd r) h = Ok v
  | Err e => fst r = Err e
  end.
Proof.
  intros Ok1 Hg Di Os Om r.
  pose proof (forward_outcome s cfg self ids seg mask tids tseg tmask
                Ok1 Di Os Om) as R.
  fold r in R. rewrite Hg in R. exact R.
Qed.

(** X5: when the number of cross-attention heads is zero or does not
    divide [D], [Transformer.forward] raises [RuntimeError] on every
    in-table input, although the model was built without complaint. *)
Theorem forward_cross_heads_must_divide_D s cfg self ids seg mask
    (ai asg : arr Z) tm B S :
  Transformer_ok (deref s) cfg self = true →
  hidden cfg = cfg_C cfg →
  ¬ heads_divide (cross_heads cfg) (cfg_D cfg) →
  deref s ids = Ok (TLong ai) → shape ai = [B; S] →
  deref s seg = Ok (TLong asg) → shape asg = [B; S] →
  opt_denotes s mask tm →
  tokens_in_table cfg ai = true →
  positions_in_table cfg B S = true →
  segments_in_table cfg asg = true →
  fst (Transformer_forward self ids (Some seg) mask s) = Err RuntimeError.
Proof.
  intros Ok1 Hc Hd Di Si Ds Ss Om Ht Hp Hsg.
  pose proof (forward_outcome s cfg self ids (Some seg) mask _ (Some (TLong asg))
                tm Ok1 Di Ds Om) as R.
  destruct (Transformer_ok_inv _ _ _ Ok1)
    as ((He & Hl & Hca & Hn & _) & _).
  destruct (has_shape_inv _ _ _ Hl) as (l & Hlat & Sl).
  destruct (Embeddings_v_ok (deref s) cfg _ ai asg B S He Si Ss Ht Hp Hsg)
    as (h & Eh & Sh).
  rewrite Hc in Sh. rewrite <- Hn in Hd.
  unfold Transformer_forward_v, encode_v in R.
  rewrite Eh in R. cbn [rbind] in R. rewrite Hlat in R. cbn [rbind] in R.
  by rewrite (QKVAttention_cross_v_err_heads (deref s) cfg _ h l tm B S _
                Hca Sh Sl Hd) in R.
Qed.

End ForwardOutcomes.

Section MissingSegments.
Context {F : Type} {SF : Scalar F}.
#[local] Abbreviation tensor := (tensor (F:=F)).
#[local] Abbreviation state := (state (F:=F)).
Implicit Types (s : state) (t : tensor) (x : handle).

Lemma Embeddings_v_no_segments (ρ : handle → result tensor) cfg m
    (ids : arr Z) B S :
  Embeddings_ok ρ cfg m = true → shape ids = [B; S] →
  tokens_in_table cfg ids = true → positions_in_table cfg B S = true →
  Embeddings_v ρ m (TLong ids) None = Err TypeError.
Proof.
  intros Ok1 Hi Ht Hp. unfold Embeddings_ok in Ok1.
  apply andb_prop in Ok1 as [Ok1 On]. apply andb_prop in Ok1 as [Ok1 Os].
  apply andb_prop in Ok1 as [Ok1 Op]. apply andb_prop in Ok1 as [O1 O2].
  unfold Embeddings_v, Embeddings_sum_v.
  rewrite (positions_v_eq ids B S Hi). cbn [rbind].
  destruct (Embedding_v_eq ρ (tok_embed1 m) ids _ _ O1 Ht) as (w1 & Hw1 & _ & E1).
  rewrite E1. cbn [rbind]. rewrite Hi.
  destruct (Linear_v_eq ρ (tok_embed2 m)
              (Arr ([B; S] ++ [embedding_dim cfg])
                 (fun i => data w1 [Z.to_nat (data ids (initn i)); lastn i]))
              [B; S] _ _ O2 eq_refl) as (w2 & b2 & Hw2 & Hb2 & E2).
  rewrite E2. cbn [rbind].
  destruct (Embedding_v_eq ρ (pos_embed m) (positions_arr B S) _ _ Op)
    as (wp & Hwp & _ & Ep); [by rewrite positions_all_in_table|].
  rewrite Ep. cbn [rbind].
  rewrite (t_add_same _ _ [B; S; hidden cfg]) by done. reflexivity.
Qed.

(** X6: called without segment ids ([token_type_ids] keeps its default
    [None]), [Transformer.forward] raises [TypeError] on in-table token
    ids: the segment table is looked up with [None]. *)
Theorem forward_without_segment_ids_raises_TypeError s cfg self ids mask
    (ai : arr Z) tm B S :
  Transformer_ok (deref s) cfg self = true →
  deref s ids = Ok (TLong ai) → shape ai = [B; S] →
  opt_denotes s mask tm →
  tokens_in_table cfg ai = true →
  positions_in_table cfg B S = true →
  fst (Embeddings_forward (embed self) ids None s) = Err TypeError
  ∧ fst (Transformer_forward self ids None mask s) = Err TypeError.
Proof.
  intros Ok1 Di Si Om Ht Hp.
  destruct (Transformer_ok_inv _ _ _ Ok1) as ((He & _) & _).
  pose proof (Embeddings_v_no_segments (deref s) cfg _ ai B S He Si Ht Hp) as E.
  split.
  - pose proof (proj2 (refines_Embeddings (deref s) s cfg (embed self) ids _
                         None None (agree_deref s) He Di I)) as R.
    by rewrite E in R.
  - pose proof (forward_outcome s cfg self ids None mask _ None tm Ok1 Di I Om)
      as R.
    unfold Transformer_forward_v, encode_v in R. by rewrite E in R.
Qed.

End MissingSegments.

Lemma forward_returns_B_N_D_witness :
  let s := state_of Config_small (Some Config_small) small_inputs in
  let r := Transformer_forward (model_of Config_small) (input 0)
             (Some (input 1)) (Some (input 2)) s in
  ∃ h y, fst r = Ok h ∧ deref (snd r) h = Ok (TFloat y)
         ∧ shape y = [1; cfg_N Config_small; cfg_D Config_small].
Proof.
  intros s.
  apply (forward_returns_B_N_D s Config_small Config_small
           (model_of Config_small) (input 0) (input 1) (Some (input 2))
           (Arr [1; 3] (fun i => Z.of_nat (S (nth 1 i 0))))
           (Arr [1; 3] (fun _ => 0%Z)) (Some mask_111) 1 3).
  - vm_compute. reflexivity.
  - vm_compute. repeat split; (discriminate || reflexivity).
  - reflexivity.
  - reflexivity.
  - reflexivity.
  - reflexivity.
  - reflexivity.
  - reflexivity.
  - reflexivity.
  - vm_compute. reflexivity.
  - vm_compute. reflexivity.
  - vm_compute. reflexivity.
Defined.

Lemma forward_unbound_cfg_raises_NameError_witness :
  fst (Transformer_forward (model_of Config_small) (input 0) (Some (input 1))
         None (state_of Config_small None small_inputs)) = Err NameError.
Proof.
  apply (forward_unbound_cfg_raises_NameError
           (state_of Config_small None small_inputs) Config_small
           (model_of Config_small) (input 0) (input 1) None
           (Arr [1; 3] (fun i => Z.of_nat (S (nth 1 i 0))))
           (Arr [1; 3] (fun _ => 0%Z)) None 1 3).
  - vm_compute. reflexivity.
  - vm_compute. repeat split; (discriminate || reflexivity).
  - reflexivity.
  - reflexivity.
  - reflexivity.
  - reflexivity.
  - reflexivity.
  - exact I.
  - exact I.
  - vm_compute. reflexivity.
  - vm_compute. reflexivity.
  - vm_compute. reflexivity.
Defined.

Lemma forward_unbound_cfg_never_returns_witness :
  ∃ e, fst (Transformer_forward (model_of Config_narrow) (input 2) None None
              (state_of Config_narrow None small_inputs)) = Err e.
Proof.
  apply (forward_unbound_cfg_never_returns
           (state_of Config_narrow None small_inputs)).
  reflexivity.
Defined.

Lemma forward_rounds_are_global_witness :
  let s := state_of Config_small (Some Config_no_rounds) small_inputs in
  let r := Transformer_forward (model_of Config_small) (input 0)
             (Some (input 1)) (Some (input 2)) s in
  match Transformer_v (deref s) (model_of Config_small)
          (process_layers Config_no_rounds) ids_123 (Some seg_000)
          (Some mask_111) with
  | Ok v => ∃ h, fst r = Ok h ∧ deref (snd r) h = Ok v
  | Err e => fst r = Err e
  end.
Proof.
  intros s.
  apply (forward_rounds_are_global s Config_small Config_no_rounds
           (model_of Config_small) (input 0) (Some (input 1)) (Some (input 2))
           ids_123 (Some seg_000) (Some mask_111)).
  - vm_compute. reflexivity.
  - reflexivity.
  - reflexivity.
  - reflexivity.
  - reflexivity.
Defined.

Lemma forward_cross_heads_must_divide_D_witness :
  fst (Transformer_forward (model_of Config_three_heads) (input 0)
         (Some (input 1)) (Some (input 2))
         (state_of Config_three_heads (Some Config_three_heads) small_inputs))
  = Err RuntimeError.
Proof.
  apply (forward_cross_heads_must_divide_D
           (state_of Config_three_heads (Some Config_three_heads) small_inputs)
           Config_three_heads (model_of Config_three_heads) (input 0) (input 1)
           (Some (input 2))
           (Arr [1; 3] (fun i => Z.of_nat (S (nth 1 i 0))))
           (Arr [1; 3] (fun _ => 0%Z)) (Some mask_111) 1 3).
  - vm_compute. reflexivity.
  - reflexivity.
  - vm_compute. intros [_ H]. discriminate H.
  - reflexivity.
  - reflexivity.
  - reflexivity.
  - reflexivity.
  - reflexivity.
  - vm_compute. reflexivity.
  - vm_compute. reflexivity.
  - vm_compute. reflexivity.
Defined.

Lemma forward_without_segment_ids_raises_TypeError_witness :
  let s := state_of Config_small (Some Config_small) small_inputs in
  fst (Embeddings_forward (embed (model_of Config_small)) (input 0) None s)
  = Err TypeError
  ∧ fst (Transformer_forward (model_of Config_small) (input 0) None None s)
    = Err TypeError.
Proof.
  intros s.
  apply (forward_without_segment_ids_raises_TypeError s Config_small
           (model_of Config_small) (input 0) None
           (Arr [1; 3] (fun i => Z.of_nat (S (nth 1 i 0)))) None 1 3).
  - vm_compute. reflexivity.
  - reflexivity.
  - reflexivity.
  - exact I.
  - vm_compute. reflexivity.
  - vm_compute. reflexivity.
Defined.

(** ** Outcomes of the modules *)

Section Indexing.

(** A position of a shape is read at itself. *)
Lemma bidx_valid sh i : valid_index sh i → bidx sh i = i.
Proof.
  unfold valid_index, bidx. intros Hv.
  rewrite (Forall2_length _ _ _ Hv), Nat.sub_diag, drop_0.
  induction Hv as [|k d i sh Hk Hv IH]; simpl; [done|].
  by rewrite (bsel d k Hk), IH.
Qed.

Lemma valid_index_app_inv pre n i :
  valid_index (pre ++ [n]) i →
  ∃ ip k, i = ip ++ [k] ∧ valid_index pre ip ∧ k < n.
Proof.
  unfold valid_index. intros Hv.
  apply Forall2_app_inv_r in Hv as (ip & il & Hp & Hl & ->).
  inversion Hl as [|k ? il' ? Hk Hnil]; subst. inversion Hnil; subst.
  by exists ip, k.
Qed.

Lemma valid_index_app pre n ip k :
  valid_index pre ip → k < n → valid_index (pre ++ [n]) (ip ++ [k]).
Proof.
  unfold valid_index. intros Hp Hk. apply Forall2_app; [done|].
  by repeat constructor.
Qed.

(** The last dimension kept with size 1 is read at 0. *)
Lemma bidx_keepdim pre ip k :
  valid_index pre ip → bidx (pre ++ [1]) (ip ++ [k]) = ip ++ [0].
Proof.
  intros Hp. unfold bidx. rewrite !length_app. simpl.
  rewrite (Forall2_length _ _ _ Hp), Nat.sub_diag, drop_0.
  rewrite zip_with_app by (symmetry; apply (Forall2_length _ _ _ Hp)).
  simpl. f_equal.
  pose proof (bidx_valid pre ip Hp) as E. unfold bidx in E.
  by rewrite (Forall2_length _ _ _ Hp), Nat.sub_diag, drop_0 in E.
Qed.

(** A vector over the last dimension is read at the last index. *)
Lemma bidx_last n ip k : k < n → bidx [n] (ip ++ [k]) = [k].
Proof.
  intros Hk. unfold bidx. rewrite length_app. simpl.
  replace (length ip + 1 - 1) with (length ip) by lia.
  rewrite drop_app_length. simpl. by rewrite (bsel n k Hk).
Qed.

End Indexing.

Section ModuleOutcomes.
Context {F : Type} {SF : Scalar F}.
#[local] Abbreviation tensor := (tensor (F:=F)).
#[local] Abbreviation state := (state (F:=F)).
#[local] Abbreviation M := (M (F:=F)).
Implicit Types (s : state) (t : tensor) (x : handle).

(** X7: [QKVAttention_cross.forward] on an embedded sequence of shape
    [[B; S; C]] and a latent array of shape [[N; D]] returns a tensor of
    shape [[B; N; D]] and retains in [self.scores] a tensor of shape
    [[B; heads; N; S]]: one row of weights over the [S] input positions
    for each latent and head. *)
Theorem cross_attention_shapes s cfg m x latent mask (ax al : arr F) tm B S N :
  QKVAttention_cross_ok (deref s) cfg m = true →
  deref s x = Ok (TFloat ax) → shape ax = [B; S; cfg_C cfg] →
  deref s latent = Ok (TFloat al) → shape al = [N; cfg_D cfg] →
  heads_divide (n_heads m) (cfg_D cfg) →
  opt_denotes s mask tm → mask_ok tm B S →
  let r := QKVAttention_cross_forward m x latent mask s in
  ∃ h out sc scores,
    fst r = Ok h ∧ deref (snd r) h = Ok (TFloat out)
    ∧ shape out = [B; N; cfg_D cfg]
    ∧ cross_attn_scores (snd r) = Some sc
    ∧ deref (snd r) sc = Ok (TFloat scores)
    ∧ shape scores = [B; n_heads m; N; S].
Proof.
  intros Ok1 Dx Sx Dl Sl Hd Om Hm r.
  pose proof (cross_outcome s cfg m x latent mask _ _ tm Ok1 Dx Dl Om) as R.
  fold r in R.
  destruct (QKVAttention_cross_v_ok (deref s) cfg m ax al tm B S N
              Ok1 Sx Sl Hd Hm) as (out & scores & E & So & Ssc).
  rewrite E in R. destruct R as (h & sc & Eh & Dh & Esc & Dsc).
  by exists h, out, sc, scores.
Qed.

(** X8: [QKVAttention_self.forward] on a latent array of shape
    [[B; N; D]] returns a tensor of the same shape and retains in
    [self.scores] a tensor of shape [[B; heads; N; N]]. *)
Theorem self_attention_shapes s cfg m x (ax : arr F) B N :
  QKVAttention_self_ok (deref s) cfg m = true →
  deref s x = Ok (TFloat ax) → shape ax = [B; N; cfg_D cfg] →
  heads_divide (n_heads m) (cfg_D cfg) →
  let r := QKVAttention_self_forward m x None s in
  ∃ h out sc scores,
    fst r = Ok h ∧ deref (snd r) h = Ok (TFloat out)
    ∧ shape out = [B; N; cfg_D cfg]
    ∧ self_attn_scores (snd r) = Some sc
    ∧ deref (snd r) sc = Ok (TFloat scores)
    ∧ shape scores = [B; n_heads m; N; N].
Proof.
  intros Ok1 Dx Sx Hd r.
  pose proof (self_outcome s cfg m x None _ None Ok1 Dx I) as R.
  fold r in R.
  destruct (QKVAttention_self_v_ok (deref s) cfg m ax B N Ok1 Sx Hd)
    as (out & scores & E & So & Ssc).
  rewrite E in R. destruct R as (h & sc & Eh & Dh & Esc & Dsc).
  by exists h, out, sc, scores.
Qed.

(** X9: [FeedForward.forward] maps a float tensor whose last axis is [D]
    wide to a tensor of the same shape, and raises [RuntimeError] on any
    other width. *)
Theorem feed_forward_keeps_shape s cfg m x (ax : arr F) pre n :
  FeedForward_ok (deref s) cfg m = true →
  deref s x = Ok (TFloat ax) → shape ax = pre ++ [n] →
  let r := FeedForward_forward m x s in
  (n = cfg_D cfg →
   ∃ h y, fst r = Ok h ∧ deref (snd r) h = Ok (TFloat y)
          ∧ shape y = shape ax)
  ∧ (n ≠ cfg_D cfg → fst r = Err RuntimeError).
Proof.
  intros Ok1 Dx Sx r.
  pose proof (proj2 (refines_FeedForward (deref s) s cfg m x _
                       (agree_deref s) Ok1 Dx)) as R.
  fold r in R. split.
  - intros ->.
    destruct (FeedForward_v_shape (deref s) cfg m ax pre Ok1 Sx) as (y & E & Sy).
    rewrite E in R. destruct R as (h & Eh & Dh).
    exists h, y. by rewrite Sx.
  - intros Hn. apply andb_prop in Ok1 as [O1 _]. unfold FeedForward_v in R.
    rewrite (Linear_v_mismatch (deref s) (fc1 m) (TFloat ax) _ _ O1) in R;
      [done|].
    simpl. by rewrite Sx, lastn_app.
Qed.

(** X10: [gelu] never raises on a tensor; it returns a float tensor of the
    same shape with [y[i] = x[i] * 0.5 * (1.0 + erf(x[i] / sqrt(2.0)))] at
    every position. *)
Theorem gelu_value s x t :
  deref s x = Ok t →
  let r := gelu x s in
  ∃ h y, fst r = Ok h ∧ deref (snd r) h = Ok (TFloat y)
         ∧ shape y = tshape t
         ∧ ∀ i, valid_index (tshape t) i →
             data y i
             = fmul (fmul (data (promote t) i) (fconst (1 # 2)))
                    (fadd (fconst 1)
                          (ferf (fdiv (data (promote t) i) (fsqrt (fconst 2))))).
Proof.
  intros D r.
  pose proof (proj2 (refines_gelu s x t D)) as R. fold r in R.
  assert (Sp : shape (promote t) = tshape t) by (by destruct t).
  unfold gelu_v, t_mul, t_zip, t_map, zip_bc in R. simpl in R.
  rewrite broadcast_shapes_refl in R. simpl in R.
  destruct R as (h & Eh & Dh). eexists h, _. split; [exact Eh|].
  split; [exact Dh|]. split; [exact Sp|].
  intros i Hi. simpl. rewrite <- Sp in Hi. by rewrite (bidx_valid _ _ Hi).
Qed.

End ModuleOutcomes.

(** ** The class [LayerNorm] *)

Section OwnLayerNorm.
Context {F : Type} {SF : Scalar F}.
#[local] Abbreviation tensor := (tensor (F:=F)).
#[local] Abbreviation state := (state (F:=F)).
#[local] Abbreviation M := (M (F:=F)).
Implicit Types (s : state) (t : tensor) (x : handle).

Lemma foldl_fadd_ext (f g : nat → F) l acc :
  Forall (fun k => f k = g k) l →
  foldl (fun a k => fadd a (f k)) acc l = foldl (fun a k => fadd a (g k)) acc l.
Proof.
  intros Hl. revert acc. induction Hl as [|k l E Hl IH]; intros acc; simpl;
    [done|].
  by rewrite E, IH.
Qed.

Lemma fsum_ext n (f g : nat → F) :
  (∀ l, l < n → f l = g l) → fsum n f = fsum n g.
Proof.
  intros E. unfold fsum. apply foldl_fadd_ext. apply Forall_forall.
  intros k Hk. apply E. apply elem_of_seq in Hk. lia.
Qed.

Lemma broadcast_shapes_keepdim pre n :
  broadcast_shapes (pre ++ [n]) (pre ++ [1]) = Ok (pre ++ [n]).
Proof.
  unfold broadcast_shapes. rewrite !rev_app_distr. simpl.
  rewrite bc_dim_1_r, bc_rev_refl. simpl. by rewrite rev_involutive.
Qed.

Lemma refines_own_LayerNorm s (self : LayerNorm) x tx tg tb :
  deref s x = Ok tx → deref s (gamma self) = Ok tg →
  deref s (beta self) = Ok tb →
  refines denotes s (LayerNorm_forward self x)
          (LayerNorm_v tg tb (variance_epsilon self) tx).
Proof.
  intros Dx Dg Db. unfold LayerNorm_forward, LayerNorm_v, torch_sqrt.
  step ltac:(by apply refines_op1).
  step ltac:(by apply refines_op2).
  step_ok ltac:(by apply refines_tensor_map).
  step ltac:(by apply refines_op1).
  step ltac:(by apply refines_op2).
  step_ok ltac:(by apply refines_tensor_map).
  step_ok ltac:(by apply refines_tensor_map).
  step ltac:(by apply refines_op2).
  step ltac:(by apply refines_op2).
  by apply refines_op2.
Qed.

Lemma row_mean_initn n (a : arr F) ip k k' :
  row_mean n a (ip ++ [k]) = row_mean n a (ip ++ [k']).
Proof. unfold row_mean. by rewrite !initn_app. Qed.

Lemma LayerNorm_v_eq (g b ax : arr F) eps pre n :
  shape ax = pre ++ [n] → shape g = [n] → shape b = [n] →
  ∃ y, LayerNorm_v (TFloat g) (TFloat b) eps (TFloat ax) = Ok (TFloat y)
       ∧ shape y = pre ++ [n]
       ∧ ∀ i, valid_index (pre ++ [n]) i →
           data y i
           = fadd (fmul (data g [lastn i])
                        (fdiv (fsub (data ax i) (row_mean n ax i))
                              (fsqrt (fadd (row_var n ax i) (fconst eps)))))
                  (data b [lastn i]).
Proof.
  destruct ax as [sh fx], g as [shg fg], b as [shb fb]. simpl.
  intros -> -> ->.
  unfold LayerNorm_v, t_mean_keepdim, mean_keepdim, t_sub, t_div, t_mul, t_add,
    t_zip, t_map, zip_bc, amap.
  cbn [need_float rbind rmap shape data promote].
  destruct (pre ++ [n]) as [|d0 sh0] eqn:Esh; [by destruct pre|].
  rewrite <- Esh. clear d0 sh0 Esh.
  cbn [need_float rbind rmap shape data promote].
  rewrite !initn_app, !lastn_app.
  cbn [need_float rbind rmap shape data promote].
  rewrite !broadcast_shapes_keepdim.
  cbn [need_float rbind rmap shape data promote].
  destruct (pre ++ [n]) as [|d0 sh0] eqn:Esh; [by destruct pre|].
  rewrite <- Esh. clear d0 sh0 Esh.
  cbn [need_float rbind rmap shape data promote].
  rewrite !initn_app, !lastn_app.
  cbn [need_float rbind rmap shape data promote].
  rewrite !broadcast_shapes_keepdim.
  cbn [need_float rbind rmap shape data promote].
  rewrite (broadcast_shapes_suffix_r pre [n]).
  cbn [need_float rbind rmap shape data promote].
  rewrite (broadcast_shapes_suffix_l pre [n]).
  cbn [need_float rbind rmap shape data promote].
  eexists. split; [reflexivity|]. split; [reflexivity|].
  intros i Hi. cbn [data].
  destruct (valid_index_app_inv pre n i Hi) as (ip & k & -> & Hp & Hk).
  rewrite !(bidx_valid _ _ Hi), !(bidx_keepdim pre ip k Hp), !(bidx_last n ip k Hk).
  rewrite lastn_app. f_equal. f_equal. f_equal.
  - f_equal. apply row_mean_initn.
  - f_equal. f_equal. unfold row_var, row_mean at 1. rewrite !initn_app.
    f_equal. apply fsum_ext. intros l Hl. cbv zeta. cbn [data].
    rewrite !(bidx_valid _ _ (valid_index_app pre n ip l Hp Hl)).
    rewrite !(bidx_keepdim pre ip l Hp).
    by rewrite (row_mean_initn n _ ip 0 k).
Qed.

(** X11: the file's own [LayerNorm.forward] maps [x], whose last axis is
    as wide as [gamma] and [beta], to the tensor of the same shape with
    [y[i] = gamma[k] * ((x[i] - u) / sqrt(s + variance_epsilon)) + beta[k]],
    where [k] is the last index of [i] and [u], [s] are the mean and the
    (biased) variance of the feature vector through [i]. *)
Theorem own_LayerNorm_forward_value s (self : LayerNorm) x (ax g b : arr F)
    pre n :
  deref s x = Ok (TFloat ax) → shape ax = pre ++ [n] →
  deref s (gamma self) = Ok (TFloat g) → shape g = [n] →
  deref s (beta self) = Ok (TFloat b) → shape b = [n] →
  let r := LayerNorm_forward self x s in
  ∃ h y, fst r = Ok h ∧ deref (snd r) h = Ok (TFloat y)
         ∧ shape y = pre ++ [n]
         ∧ ∀ i, valid_index (pre ++ [n]) i →
             data y i
             = fadd (fmul (data g [lastn i])
                          (fdiv (fsub (data ax i) (row_mean n ax i))
                                (fsqrt (fadd (row_var n ax i)
                                             (fconst (variance_epsilon self))))))
                    (data b [lastn i]).
Proof.
  intros Dx Sx Dg Sg Db Sb r.
  pose proof (proj2 (refines_own_LayerNorm s self x _ _ _ Dx Dg Db)) as R.
  fold r in R.
  destruct (LayerNorm_v_eq g b ax (variance_epsilon self) pre n Sx Sg Sb)
    as (y & E & Sy & Hy).
  rewrite E in R. destruct R as (h & Eh & Dh). by exists h, y.
Qed.

(** [LayerNorm(cfg)] never raises; it creates [gamma], all ones, and
    [beta], all zeros, of shape [[hidden]] and keeps the
    [variance_epsilon] it is given. *)
Lemma own_LayerNorm_init_value s cfg eps :
  let r := LayerNorm_init cfg eps s in
  ∃ self, fst r = Ok self
    ∧ deref (snd r) (gamma self)
      = Ok (TFloat (Arr [hidden cfg] (fun _ => fconst 1)))
    ∧ deref (snd r) (beta self)
      = Ok (TFloat (Arr [hidden cfg] (fun _ => fconst 0)))
    ∧ variance_epsilon self = eps
    ∧ heap s `prefix_of` heap (snd r)
    ∧ LayerNorm_default_variance_epsilon = 1 # 1000000000000.
Proof.
  intros r. subst r. unfold LayerNorm_init, torch_full, bind, new, ret. simpl.
  eexists. split; [reflexivity|]. simpl. unfold deref. simpl.
  rewrite lookup_app_l by (rewrite length_app; simpl; lia).
  rewrite (list_lookup_middle (heap s) [] _ (length (heap s)) eq_refl).
  rewrite (list_lookup_middle (heap s ++ [_]) [] _ _ eq_refl).
  repeat (split; [reflexivity|]). split; [|reflexivity].
  rewrite <- app_assoc. by apply prefix_app_r.
Qed.

End OwnLayerNorm.

(** ** Construction *)

Section ConstructionOutcome.
Context {F : Type} {SF : Scalar F}.
#[local] Abbreviation tensor := (tensor (F:=F)).
#[local] Abbreviation state := (state (F:=F)).
#[local] Abbreviation M := (M (F:=F)).
Implicit Types (s : state) (t : tensor) (x : handle).
Variable rnd : nat → list nat → F.

















End ConstructionOutcome.

(** ** The default configuration *)

Section DefaultConfiguration.
Context {F : Type} {SF : Scalar F}.
#[local] Abbreviation tensor := (tensor (F:=F)).
#[local] Abbreviation state := (state (F:=F)).
Implicit Types (s : state) (t : tensor) (x : handle).

Lemma Config_default_ok : Config_ok Config_default.
Proof. repeat split; (discriminate || reflexivity). Qed.

(** X14: the default configuration is one [forward] accepts: with the
    global [cfg] and the model's configuration both [Config()], on
    in-table token ids and segment ids of shape [[B; S]] with
    [S ≤ 256], [Transformer.forward] returns a tensor of shape
    [[B; 128; 384]]. *)
Theorem default_Config_forward_shape s self ids seg mask (ai asg : arr Z) tm B S :
  Transformer_ok (deref s) Config_default self = true →
  models_cfg s = Some Config_default →
  deref s ids = Ok (TLong ai) → shape ai = [B; S] →
  deref s seg = Ok (TLong asg) → shape asg = [B; S] →
  opt_denotes s mask tm → mask_ok tm B S →
  tokens_in_table Config_default ai = true →
  S ≤ 256 →
  segments_in_table Config_default asg = true →
  let r := Transformer_forward self ids (Some seg) mask s in
  ∃ h y, fst r = Ok h ∧ deref (snd r) h = Ok (TFloat y)
         ∧ shape y = [B; 128; 384].
Proof.
  intros Ok1 Hg Di Si Ds Ss Om Hm Ht HS Hsg r.
  pose proof (forward_outcome s Config_default self ids (Some seg) mask _
                (Some (TLong asg)) tm Ok1 Di Ds Om) as R.
  fold r in R. rewrite Hg in R.
  assert (Hp : positions_in_table Config_default B S = true).
  { unfold positions_in_table. apply orb_true_iff. right.
    by apply Nat.leb_le. }
  destruct (Transformer_forward_v_shape (deref s) Config_default Config_default
              self ai asg tm B S Ok1 Config_default_ok Si Ss Ht Hp Hsg Hm)
    as (y & E & Sy).
  rewrite E in R. destruct R as (h & Eh & Dh). by exists h, y.
Qed.

(** X12: a [LayerNorm(cfg)] as built, applied to [x] whose last axis is
    [hidden] wide, returns the tensor of the same shape with
    [y[i] = 1 * ((x[i] - u) / sqrt(s + variance_epsilon)) + 0]: [gamma]
    starts as ones and [beta] as zeros, and [variance_epsilon] is the one
    given to the constructor. *)
Theorem own_LayerNorm_as_built s cfg eps x (ax : arr F) pre :
  deref s x = Ok (TFloat ax) → shape ax = pre ++ [hidden cfg] →
  let r0 := LayerNorm_init cfg eps s in
  ∃ self h y,
    fst r0 = Ok self
    ∧ fst (LayerNorm_forward self x (snd r0)) = Ok h
    ∧ deref (snd (LayerNorm_forward self x (snd r0))) h = Ok (TFloat y)
    ∧ shape y = pre ++ [hidden cfg]
    ∧ ∀ i, valid_index (pre ++ [hidden cfg]) i →
        data y i
        = fadd (fmul (fconst 1)
                     (fdiv (fsub (data ax i) (row_mean (hidden cfg) ax i))
                           (fsqrt (fadd (row_var (hidden cfg) ax i)
                                        (fconst eps)))))
               (fconst 0).
Proof.
  intros Dx Sx r0.
  destruct (own_LayerNorm_init_value s cfg eps)
    as (self & E0 & Dg & Db & Eeps & P & _).
  fold r0 in E0, Dg, Db, P.
  assert (Dx' : deref (snd r0) x = Ok (TFloat ax)).
  { revert Dx. unfold deref.
    destruct (heap s !! cell x) as [c|] eqn:E; [|discriminate].
    by rewrite (prefix_lookup_Some _ _ _ _ E P). }
  pose proof (proj2 (refines_own_LayerNorm (snd r0) self x _ _ _ Dx' Dg Db)) as R.
  destruct (LayerNorm_v_eq (Arr [hidden cfg] (fun _ => fconst 1))
              (Arr [hidden cfg] (fun _ => fconst 0)) ax (variance_epsilon self)
              pre (hidden cfg) Sx eq_refl eq_refl)
    as (y & E & Sy & Hy).
  rewrite E in R. destruct R as (h & Eh & Dh).
  exists self, h, y. rewrite Eeps in Hy. by repeat split.
Qed.

End DefaultConfiguration.

Lemma cross_attention_shapes_witness :
  let s := state_of Config_small None attention_inputs in
  let m := fst (cross_attend_blocks (model_of Config_small)) in
  let r := QKVAttention_cross_forward m (input 0) (base 7) (Some (input 1)) s in
  ∃ h out sc scores,
    fst r = Ok h ∧ deref (snd r) h = Ok (TFloat out)
    ∧ shape out = [1; 4; cfg_D Config_small]
    ∧ cross_attn_scores (snd r) = Some sc
    ∧ deref (snd r) sc = Ok (TFloat scores)
    ∧ shape scores = [1; n_heads m; 4; 3].
Proof.
  intros s m.
  apply (cross_attention_shapes s Config_small m (input 0) (base 7)
           (Some (input 1)) (Arr [1; 3; 8] (SInit 36)) (Arr [4; 8] (SInit 7))
           (Some mask_111) 1 3 4).
  - vm_compute. reflexivity.
  - reflexivity.
  - reflexivity.
  - reflexivity.
  - reflexivity.
  - vm_compute. split; [discriminate|reflexivity].
  - reflexivity.
  - reflexivity.
Defined.

Lemma self_attention_shapes_witness :
  let s := state_of Config_small None [latent_input] in
  let m := fst (layers (model_of Config_small)) in
  let r := QKVAttention_self_forward m (input 0) None s in
  ∃ h out sc scores,
    fst r = Ok h ∧ deref (snd r) h = Ok (TFloat out)
    ∧ shape out = [1; 4; cfg_D Config_small]
    ∧ self_attn_scores (snd r) = Some sc
    ∧ deref (snd r) sc = Ok (TFloat scores)
    ∧ shape scores = [1; n_heads m; 4; 4].
Proof.
  intros s m.
  apply (self_attention_shapes s Config_small m (input 0)
           (Arr [1; 4; 8] (SInit 36)) 1 4).
  - vm_compute. reflexivity.
  - reflexivity.
  - reflexivity.
  - vm_compute. split; [discriminate|reflexivity].
Defined.

Lemma feed_forward_keeps_shape_witness :
  let s := state_of Config_small None [latent_input] in
  let m := snd (layers (model_of Config_small)) in
  let ax : arr sym := Arr [1; 4; 8] (SInit 36) in
  let r := FeedForward_forward m (input 0) s in
  (8 = cfg_D Config_small →
   ∃ h y, fst r = Ok h ∧ deref (snd r) h = Ok (TFloat y)
          ∧ shape y = shape ax)
  ∧ (8 ≠ cfg_D Config_small → fst r = Err RuntimeError).
Proof.
  intros s m ax.
  apply (feed_forward_keeps_shape s Config_small m (input 0) ax [1; 4] 8).
  - vm_compute. reflexivity.
  - reflexivity.
  - reflexivity.
Defined.

Lemma gelu_value_witness :
  let s := state_of Config_small None [latent_input] in
  let r := gelu (input 0) s in
  ∃ h y, fst r = Ok h ∧ deref (snd r) h = Ok (TFloat y)
         ∧ shape y = tshape latent_input
         ∧ ∀ i, valid_index (tshape latent_input) i →
             data y i
             = fmul (fmul (data (promote latent_input) i) (fconst (1 # 2)))
                    (fadd (fconst 1)
                          (ferf (fdiv (data (promote latent_input) i)
                                      (fsqrt (fconst 2))))).
Proof.
  intros s.
  apply (gelu_value s (input 0) latent_input). reflexivity.
Defined.

Lemma own_LayerNorm_forward_value_witness :
  let s := own_LayerNorm_state in
  let self := {| gamma := base 1; beta := base 2;
                 variance_epsilon := LayerNorm_default_variance_epsilon |} in
  let ax : arr sym := Arr [1; 8] (SInit 0) in
  let g : arr sym := Arr [8] (fun _ => fconst 1) in
  let b : arr sym := Arr [8] (fun _ => fconst 0) in
  let r := LayerNorm_forward self (base 0) s in
  ∃ h y, fst r = Ok h ∧ deref (snd r) h = Ok (TFloat y)
         ∧ shape y = [1] ++ [8]
         ∧ ∀ i, valid_index ([1] ++ [8]) i →
             data y i
             = fadd (fmul (data g [lastn i])
                          (fdiv (fsub (data ax i) (row_mean 8 ax i))
                                (fsqrt (fadd (row_var 8 ax i)
                                             (fconst (variance_epsilon self))))))
                    (data b [lastn i]).
Proof.
  intros s self ax g b.
  apply (own_LayerNorm_forward_value s self (base 0) ax g b [1] 8);
    reflexivity.
Defined.

Lemma own_LayerNorm_as_built_witness :
  let s := own_LayerNorm_state in
  let ax : arr sym := Arr [1; 8] (SInit 0) in
  let eps := LayerNorm_default_variance_epsilon in
  let r0 := LayerNorm_init Config_small eps s in
  ∃ self h y,
    fst r0 = Ok self
    ∧ fst (LayerNorm_forward self (base 0) (snd r0)) = Ok h
    ∧ deref (snd (LayerNorm_forward self (base 0) (snd r0))) h = Ok (TFloat y)
    ∧ shape y = [1] ++ [hidden Config_small]
    ∧ ∀ i, valid_index ([1] ++ [hidden Config_small]) i →
        data y i
        = fadd (fmul (fconst 1)
                     (fdiv (fsub (data ax i) (row_mean (hidden Config_small) ax i))
                           (fsqrt (fadd (row_var (hidden Config_small) ax i)
                                        (fconst eps)))))
               (fconst 0).
Proof.
  intros s ax eps.
  apply (own_LayerNorm_as_built s Config_small eps (base 0) ax [1]);
    reflexivity.
Defined.

Lemma default_Config_forward_shape_witness :
  let s := state_of Config_default (Some Config_default) small_inputs in
  let r := Transformer_forward (model_of Config_default) (input 0)
             (Some (input 1)) (Some (input 2)) s in
  ∃ h y, fst r = Ok h ∧ deref (snd r) h = Ok (TFloat y)
         ∧ shape y = [1; 128; 384].
Proof.
  intros s.
  apply (default_Config_forward_shape s (model_of Config_default) (input 0)
           (input 1) (Some (input 2))
           (Arr [1; 3] (fun i => Z.of_nat (S (nth 1 i 0))))
           (Arr [1; 3] (fun _ => 0%Z)) (Some mask_111) 1 3).
  - vm_compute. reflexivity.
  - reflexivity.
  - reflexivity.
  - reflexivity.
  - reflexivity.
  - reflexivity.
  - reflexivity.
  - reflexivity.
  - vm_compute. reflexivity.
  - lia.
  - vm_compute. reflexivity.
Defined.

(** ** Indices outside their tables *)

Section IndexErrors.
Context {F : Type} {SF : Scalar F}.
#[local] Abbreviation tensor := (tensor (F:=F)).
#[local] Abbreviation state := (state (F:=F)).
Implicit Types (s : state) (t : tensor) (x : handle).

(** X15: an index outside its table is reported before anything else:
    on token ids and segment ids of shape [[B; S]] of which one is outside
    its table, or with a non-empty batch longer than the position table,
    [Transformer.forward] raises [IndexError], whether or not the global
    [cfg] is bound and whatever the widths and head counts. *)
Theorem forward_index_error_comes_first s cfg self ids seg mask
    (ai asg : arr Z) tm B S :
  Transformer_ok (deref s) cfg self = true →
  deref s ids = Ok (TLong ai) → shape ai = [B; S] →
  deref s seg = Ok (TLong asg) → shape asg = [B; S] →
  opt_denotes s mask tm →
  tokens_in_table cfg ai && positions_in_table cfg B S
    && segments_in_table cfg asg = false →
  fst (Transformer_forward self ids (Some seg) mask s) = Err IndexError.
Proof.
  intros Ok1 Di Si Ds Ss Om Hc.
  pose proof (forward_outcome s cfg self ids (Some seg) mask _ (Some (TLong asg))
                tm Ok1 Di Ds Om) as R.
  destruct (Transformer_ok_inv _ _ _ Ok1) as ((He & _) & _).
  unfold Transformer_forward_v, encode_v in R.
  by rewrite (Embeddings_v_err (deref s) cfg _ ai asg B S He Si Ss Hc) in R.
Qed.

End IndexErrors.

Lemma forward_index_error_comes_first_witness :
  fst (Transformer_forward (model_of Config_narrow) (input 0) (Some (input 1))
         None (state_of Config_narrow None [ids_out_of_table; seg_000]))
  = Err IndexError.
Proof.
  apply (forward_index_error_comes_first
           (state_of Config_narrow None [ids_out_of_table; seg_000])
           Config_narrow (model_of Config_narrow) (input 0) (input 1) None
           (Arr [1; 3] (fun i => if nth 1 i 0 =? 2 then 100%Z
                                 else Z.of_nat (S (nth 1 i 0))))
           (Arr [1; 3] (fun _ => 0%Z)) None 1 3).
  - vm_compute. reflexivity.
  - reflexivity.
  - reflexivity.
  - reflexivity.
  - reflexivity.
  - exact I.
  - vm_compute. reflexivity.
Defined.
